(** * lowdown: the Markdown document parser (document.c), embedded in Rocq

    The parser works on byte buffers addressed by a base pointer and a
    size, and builds the syntax tree through a cursor ([doc->current])
    moved by [pushnode] and [popnode].  The embedding keeps both: a span
    is a buffer with a base offset, and the tree under construction is a
    zipper whose focus is the cursor. *)

From Stdlib Require Import Ascii String NArith.
From Stdlib Require Import List Arith Lia Bool Permutation.
Import ListNotations.
Local Open Scope nat_scope.
Set Warnings "-register-all".

(* ================================================================== *)
(** * Part I: definitions                                              *)
(* ================================================================== *)

(** ** Bytes and buffers *)

(** A buffer ([struct lowdown_buf], or the memory a [char *] points
    into) is the list of its bytes. *)
Definition bytes := list ascii.

Definition ch_nl : ascii := "010"%char.
Definition ch_tab : ascii := "009"%char.
Definition ch_cr : ascii := "013"%char.
Definition ch_sp : ascii := "032"%char.
Definition ch_bang : ascii := "033"%char.
Definition ch_dquote : ascii := "034"%char.
Definition ch_hash : ascii := "035"%char.
Definition ch_dollar : ascii := "036"%char.
Definition ch_percent : ascii := "037"%char.
Definition ch_amp : ascii := "038"%char.
Definition ch_quote : ascii := "039"%char.
Definition ch_lparen : ascii := "040"%char.
Definition ch_rparen : ascii := "041"%char.
Definition ch_star : ascii := "042"%char.
Definition ch_plus : ascii := "043"%char.
Definition ch_minus : ascii := "045"%char.
Definition ch_dot : ascii := "046"%char.
Definition ch_slash : ascii := "047"%char.
Definition ch_colon : ascii := "058"%char.
Definition ch_semi : ascii := "059"%char.
Definition ch_lt : ascii := "060"%char.
Definition ch_eq : ascii := "061"%char.
Definition ch_gt : ascii := "062"%char.
Definition ch_at : ascii := "064"%char.
Definition ch_lbrack : ascii := "091"%char.
Definition ch_bslash : ascii := "092"%char.
Definition ch_rbrack : ascii := "093"%char.
Definition ch_caret : ascii := "094"%char.
Definition ch_under : ascii := "095"%char.
Definition ch_btick : ascii := "096"%char.
Definition ch_lbrace : ascii := "123"%char.
Definition ch_pipe : ascii := "124"%char.
Definition ch_rbrace : ascii := "125"%char.
Definition ch_tilde : ascii := "126"%char.

(** [m[i]]; a read past the end of the memory yields NUL. *)
Definition rd (m : bytes) (i : nat) : ascii := nth i m zero.

(** The [n] bytes at [m + p]. *)
Definition sub (m : bytes) (p n : nat) : bytes := firstn n (skipn p m).

Definition str (s : string) : bytes := list_ascii_of_string s.

Definition ceq (c d : ascii) : bool := Ascii.eqb c d.

(** [while (i < size && p(i)) i++], returning the final [i]. *)
Fixpoint scan_from (n : nat) (p : nat -> bool) (i : nat) : nat :=
  match n with
  | 0 => i
  | S n' => if p i then scan_from n' p (S i) else i
  end.

Definition scan (p : nat -> bool) (i size : nat) : nat :=
  scan_from (size - i) p i.

(** [while (i < size && cond(i, s)) { s = body(i, s); i++; }]: [step]
    is [None] when the condition fails.  The result is the final [i]
    and [s]. *)
Fixpoint iter_from {St : Type} (n : nat) (step : nat -> St -> option St)
  (i : nat) (s : St) : nat * St :=
  match n with
  | 0 => (i, s)
  | S n' =>
    match step i s with
    | Some s' => iter_from n' step (S i) s'
    | None => (i, s)
    end
  end.

Definition iter {St : Type} (step : nat -> St -> option St) (i size : nat)
  (s : St) : nat * St :=
  iter_from (size - i) step i s.

(** A loop whose body moves its index by one or more: [step] is [None]
    when the loop is left.  Called with [n] rounds where [n] is the
    distance of the index to the bound, which no run can exceed. *)
Fixpoint loop {St : Type} (n : nat) (step : St -> option St) (s : St) : St :=
  match n with
  | 0 => s
  | S n' =>
    match step s with
    | Some s' => loop n' step s'
    | None => s
    end
  end.

(** ** Character classes (the C locale of ctype.h) *)

Definition in_range (c : ascii) (lo hi : nat) : bool :=
  (lo <=? nat_of_ascii c) && (nat_of_ascii c <=? hi).

Definition isdigit (c : ascii) : bool := in_range c 48 57.
Definition isupper (c : ascii) : bool := in_range c 65 90.
Definition islower (c : ascii) : bool := in_range c 97 122.
Definition isalnum (c : ascii) : bool := isdigit c || isupper c || islower c.
Definition isspace (c : ascii) : bool := ceq c ch_sp || in_range c 9 13.

Definition tolower (c : ascii) : ascii :=
  if isupper c then ascii_of_nat (nat_of_ascii c + 32) else c.

(** [strncasecmp(a, b, n) == 0] on two memories at the given offsets,
    for bytes that are not NUL. *)
Definition caseeq (a : bytes) (pa : nat) (b : bytes) (pb n : nat) : bool :=
  forallb (fun k => ceq (tolower (rd a (pa + k))) (tolower (rd b (pb + k))))
          (seq 0 n).

Definition bytes_eqb (a b : bytes) : bool :=
  (length a =? length b) && forallb (fun k => ceq (rd a k) (rd b k))
                                    (seq 0 (length a)).

Definition last_opt {A : Type} (l : list A) : option A :=
  last (map Some l) None.

(** ** Tab expansion *)

(** [(c & 0xc0) != 0x80]: the byte is not a UTF-8 continuation byte. *)
Definition advances_column (c : ascii) : bool :=
  negb (N.eqb (N.land (N_of_ascii c) 192) 128).

(** The inner scan of [expand_tabs]: up to the next tab, counting the
    columns of the bytes passed. *)
Fixpoint tab_scan (n : nat) (line : bytes) (i tab : nat) : nat * nat :=
  match n with
  | 0 => (i, tab)
  | S n' =>
    if negb (ceq (rd line i) ch_tab)
    then tab_scan n' line (S i)
           (if advances_column (rd line i) then S tab else tab)
    else (i, tab)
  end.

(** [do { hbuf_putc(ob, ' '); tab++; } while (tab % 4);]
    At most four rounds are ever needed. *)
Fixpoint tab_pad (n : nat) (ob : bytes) (tab : nat) : bytes * nat :=
  match n with
  | 0 => (ob, tab)
  | S n' =>
    let ob' := ob ++ [ch_sp] in
    let tab' := S tab in
    if negb (tab' mod 4 =? 0) then tab_pad n' ob' tab' else (ob', tab')
  end.

Fixpoint expand_tabs_loop (fuel : nat) (ob line : bytes) (size i tab : nat)
  : option bytes :=
  match fuel with
  | 0 => None
  | S fuel' =>
    if i <? size then
      let org := i in
      let '(i, tab) := tab_scan (size - i) line i tab in
      let ob := if org <? i then ob ++ sub line org (i - org) else ob in
      if size <=? i then Some ob
      else
        let '(ob, tab) := tab_pad 4 ob tab in
        expand_tabs_loop fuel' ob line size (S i) tab
    else Some ob
  end.


(** [expand_tabs(ob, line, size)]: the new contents of [ob].  Every
    round of the outer loop passes at least one byte, so [size + 1]
    rounds are enough. *)
Definition expand_tabs (ob line : bytes) (size : nat) : option bytes :=
  expand_tabs_loop (S size) ob line size 0 0.

(** ** Pointers into a buffer *)

(** A [char *]: the memory it points into and its offset there.
    [data + k] is [shift data k], [data - k] is [back data k], and
    [data[i]] is [data.[i]]. *)
Record ptr : Type := { mem : bytes; base : nat }.

Definition at_ptr (data : ptr) (i : nat) : ascii := rd (mem data) (base data + i).

Notation "d .[ i ]" := (at_ptr d i) (at level 1, left associativity,
  format "d .[ i ]").

Definition shift (data : ptr) (k : nat) : ptr :=
  {| mem := mem data; base := base data + k |}.

Definition back (data : ptr) (k : nat) : ptr :=
  {| mem := mem data; base := base data - k |}.

(** A fresh buffer, pointed to at its start. *)
Definition ptr_of (b : bytes) : ptr := {| mem := b; base := 0 |}.

(** The [n] bytes at [data + i]. *)
Definition slice (data : ptr) (i n : nat) : bytes := sub (mem data) (base data + i) n.

(** [while (i > lo && p(i)) i--], returning the final [i]. *)
Fixpoint scan_back_from (n : nat) (p : nat -> bool) (i : nat) : nat :=
  match n with
  | 0 => i
  | S n' => if p i then scan_back_from n' p (i - 1) else i
  end.

Definition scan_back (p : nat -> bool) (i lo : nat) : nat :=
  scan_back_from (i - lo) p i.

(** ** Scanning helpers of the inline parser *)

Definition xisspace (c : ascii) : bool := ceq c ch_sp || ceq c ch_nl.

(** [countspaces(data, offset, size, maxlen)]. *)
Definition countspaces (data : ptr) (offset size maxlen : nat) : nat :=
  scan (fun i => negb ((0 <? maxlen) && (i - offset =? maxlen))
                 && ceq data.[i] ch_sp) offset size.

(** The number of backslashes right before [data[i]]. *)
Fixpoint backslashes (data : ptr) (i : nat) : nat :=
  match i with
  | 0 => 0
  | S j => if ceq data.[j] ch_bslash then S (backslashes data j) else 0
  end.

(** [is_escaped(data, loc)]. *)
Definition is_escaped (data : ptr) (loc : nat) : bool :=
  Nat.odd (backslashes data loc).

(** [while (i < size && data[i] != stop)
       { if (!tmp_i && data[i] == c) tmp_i = i; i++; }] *)
Definition scan_tmp (data : ptr) (size : nat) (c stop : ascii) (i tmp_i : nat)
  : nat * nat :=
  iter (fun k t =>
          if negb (ceq data.[k] stop)
          then Some (if (t =? 0) && ceq data.[k] c then k else t)
          else None) i size tmp_i.

(** The closing run of a codespan that [find_emph_char] skips: the
    state is [(bt, tmp_i)]. *)
Definition scan_ticks (data : ptr) (size : nat) (c : ascii) (span_nb i : nat)
  : nat * (nat * nat) :=
  iter (fun k '(bt, t) =>
          if bt <? span_nb
          then Some (if ceq data.[k] ch_btick then S bt else 0,
                     if (t =? 0) && ceq data.[k] c then k else t)
          else None) i size (0, 0).

(** One round of the loop of [find_emph_char]: [inl r] is [return r],
    [inr i] goes round again with the new [i]. *)
Definition find_emph_char_body (data : ptr) (size : nat) (c : ascii) (i : nat)
  : nat + nat :=
  let i := scan (fun k => negb (ceq data.[k] c) && negb (ceq data.[k] ch_lbrack)
                          && negb (ceq data.[k] ch_btick)) i size in
  if i =? size then inl 0
  else if is_escaped data i then inr (S i)
  else if ceq data.[i] c then inl i
  else if ceq data.[i] ch_btick then
    let i0 := i in
    let i := scan (fun k => ceq data.[k] ch_btick) i size in
    let span_nb := i - i0 in
    if size <=? i then inl 0
    else
      let '(i, (bt, tmp_i)) := scan_ticks data size c span_nb i in
      if (bt <? span_nb) && (size <=? i) then inl tmp_i else inr i
  else if ceq data.[i] ch_lbrack then
    let '(i, tmp_i) := scan_tmp data size c ch_rbrack (S i) 0 in
    let i := S i in
    let i := scan (fun k => xisspace data.[k]) i size in
    if size <=? i then inl tmp_i
    else
      let cont (cc : ascii) :=
        let '(i, tmp_i) := scan_tmp data size c cc (S i) tmp_i in
        if size <=? i then inl tmp_i else inr (S i) in
      if ceq data.[i] ch_lbrack then cont ch_rbrack
      else if ceq data.[i] ch_lparen then cont ch_rparen
      else if negb (tmp_i =? 0) then inl tmp_i
      else inr i
  else inr i.

(** The loop [while (i < size)] of [find_emph_char], then [return 0].
    Every round that goes round again has moved [i] forward, so the loop
    is left within [size] rounds. *)
Fixpoint find_emph_char_loop (n : nat) (data : ptr) (size : nat) (c : ascii)
  (i : nat) : nat :=
  match n with
  | 0 => 0
  | S n' =>
    if i <? size then
      match find_emph_char_body data size c i with
      | inl r => r
      | inr i' => find_emph_char_loop n' data size c i'
      end
    else 0
  end.

(** [find_emph_char(data, size, c)]. *)
Definition find_emph_char (data : ptr) (size : nat) (c : ascii) : nat :=
  find_emph_char_loop size data size c 0.

(** ** The syntax tree *)

(** [enum lowdown_rndrt] (lowdown.h). *)
Inductive lowdown_rndrt : Type :=
| LOWDOWN_ROOT | LOWDOWN_BLOCKCODE | LOWDOWN_BLOCKQUOTE
| LOWDOWN_DEFINITION | LOWDOWN_DEFINITION_TITLE | LOWDOWN_DEFINITION_DATA
| LOWDOWN_HEADER | LOWDOWN_HRULE | LOWDOWN_LIST | LOWDOWN_LISTITEM
| LOWDOWN_PARAGRAPH | LOWDOWN_TABLE_BLOCK | LOWDOWN_TABLE_HEADER
| LOWDOWN_TABLE_BODY | LOWDOWN_TABLE_ROW | LOWDOWN_TABLE_CELL
| LOWDOWN_FOOTNOTES_BLOCK | LOWDOWN_FOOTNOTE_DEF | LOWDOWN_BLOCKHTML
| LOWDOWN_LINK_AUTO | LOWDOWN_CODESPAN | LOWDOWN_DOUBLE_EMPHASIS
| LOWDOWN_EMPHASIS | LOWDOWN_HIGHLIGHT | LOWDOWN_IMAGE | LOWDOWN_LINEBREAK
| LOWDOWN_LINK | LOWDOWN_TRIPLE_EMPHASIS | LOWDOWN_STRIKETHROUGH
| LOWDOWN_SUPERSCRIPT | LOWDOWN_FOOTNOTE_REF | LOWDOWN_MATH_BLOCK
| LOWDOWN_RAW_HTML | LOWDOWN_ENTITY | LOWDOWN_NORMAL_TEXT
| LOWDOWN_DOC_HEADER | LOWDOWN_META | LOWDOWN_DOC_FOOTER.

Scheme Equality for lowdown_rndrt.

Inductive halink_type : Type := HALINK_NONE | HALINK_NORMAL | HALINK_EMAIL.

(** [enum hlist_fl], with the item-end bit [HLIST_LI_END] this file
    adds to it: one boolean per bit. *)
Record hlist_fl : Type := {
  fl_ordered : bool;
  fl_block : bool;
  fl_unordered : bool;
  fl_def : bool;
  fl_li_end : bool
}.

(** [enum htbl_flags]: alignment and header bits of a table cell. *)
Record htbl_flags : Type := {
  tfl_align_left : bool;
  tfl_align_right : bool;
  tfl_header : bool
}.

(** The payload union of [struct lowdown_node].  [rndr_zero] is the
    all-zero union of a node fresh from [xcalloc]: every buffer in it is
    empty and every number is zero. *)
Inductive rndr : Type :=
| rndr_zero
| rndr_normal_text (text : bytes)
| rndr_codespan (text : bytes)
| rndr_entity (text : bytes)
| rndr_raw_html (text : bytes)
| rndr_blockhtml (text : bytes)
| rndr_math (text : bytes) (blockmode : bool)
| rndr_autolink (link text : bytes) (altype : halink_type)
| rndr_link (link title : bytes)
| rndr_image (link title dims alt attr_width attr_height : bytes)
| rndr_blockcode (text lang : bytes)
| rndr_header (level : nat)
| rndr_list (flags : hlist_fl) (start : bytes)
| rndr_listitem (flags : hlist_fl) (num : nat)
| rndr_definition (flags : hlist_fl)
| rndr_paragraph (lines : nat) (beoln : bool)
| rndr_table (columns : nat)
| rndr_table_header (hflags : list htbl_flags) (columns : nat)
| rndr_table_cell (cflags : htbl_flags) (col columns : nat)
| rndr_footnote_ref (num : nat)
| rndr_footnote_def (num : nat)
| rndr_meta (key : bytes).

(** The fields of a node other than its links to other nodes. *)
Record node_hd : Type := {
  id : nat;
  type : lowdown_rndrt;
  payload : rndr
}.

(** A node whose subtree is complete. *)
Inductive lowdown_node : Type :=
| Node (hd : node_hd) (children : list lowdown_node).

Definition node_head (n : lowdown_node) : node_hd :=
  match n with Node h _ => h end.

Definition node_children (n : lowdown_node) : list lowdown_node :=
  match n with Node _ cs => cs end.

(** An ancestor of the cursor: its own fields, and its children to the
    left and to the right of the child the cursor is in. *)
Record frame : Type := {
  f_hd : node_hd;
  f_left : list lowdown_node;
  f_right : list lowdown_node
}.

(** [doc->current]: the node under construction, its children so far
    (all complete) and its ancestors, nearest first. *)
Record cursor : Type := {
  c_hd : node_hd;
  c_children : list lowdown_node;
  c_path : list frame
}.

(** ** The document *)

Inductive lowdown_feat : Type :=
| LOWDOWN_TABLES | LOWDOWN_FENCED | LOWDOWN_FOOTNOTES | LOWDOWN_AUTOLINK
| LOWDOWN_STRIKE | LOWDOWN_HILITE | LOWDOWN_SUPER | LOWDOWN_MATH
| LOWDOWN_NOINTEM | LOWDOWN_NOCODEIND | LOWDOWN_METADATA
| LOWDOWN_COMMONMARK | LOWDOWN_DEFLIST | LOWDOWN_IMG_EXT.

Scheme Equality for lowdown_feat.

Inductive markdown_char_t : Type :=
| MD_CHAR_NONE | MD_CHAR_EMPHASIS | MD_CHAR_CODESPAN | MD_CHAR_LINEBREAK
| MD_CHAR_LINK | MD_CHAR_IMAGE | MD_CHAR_LANGLE | MD_CHAR_ESCAPE
| MD_CHAR_ENTITY | MD_CHAR_AUTOLINK_URL | MD_CHAR_AUTOLINK_EMAIL
| MD_CHAR_AUTOLINK_WWW | MD_CHAR_SUPERSCRIPT | MD_CHAR_QUOTE | MD_CHAR_MATH.

Record link_ref : Type := {
  lr_name : option bytes;
  lr_link : bytes;
  lr_title : option bytes
}.

Record footnote_ref : Type := {
  is_used : bool;
  fr_num : nat;
  fr_name : option bytes;
  contents : bytes
}.

(** [struct hbufn]: a metadata key with its value. *)
Record hbufn : Type := {
  hb_key : bytes;
  hb_val : option bytes
}.

(** [struct lowdown_meta]: a key and value given on the command line. *)
Record lowdown_meta : Type := {
  meta_key : bytes;
  meta_value : bytes
}.

(** [struct lowdown_doc].  [opts_meta] and [opts_metaovr] are the two
    queues of [doc->opts]; [detached] is the complete node that has no
    parent, which the caller of the last [popnode] holds by pointer. *)
Record lowdown_doc : Type := {
  refq : list link_ref;
  footnotes : list footnote_ref;
  footnotesz : nat;
  active_char : ascii -> markdown_char_t;
  ext_flags : list lowdown_feat;
  cur_par : nat;
  in_link_body : bool;
  nodes : nat;
  current : option cursor;
  metaq : list hbufn;
  depth : nat;
  maxdepth : nat;
  opts_meta : list lowdown_meta;
  opts_metaovr : list lowdown_meta;
  detached : option lowdown_node
}.

Definition has_feat (doc : lowdown_doc) (f : lowdown_feat) : bool :=
  existsb (lowdown_feat_beq f) (ext_flags doc).

(** Field updates of [struct lowdown_doc]. *)

Definition set_refq (v : list link_ref) (doc : lowdown_doc) : lowdown_doc :=
  {| refq := v;
     footnotes := footnotes doc;
     footnotesz := footnotesz doc;
     active_char := active_char doc;
     ext_flags := ext_flags doc;
     cur_par := cur_par doc;
     in_link_body := in_link_body doc;
     nodes := nodes doc;
     current := current doc;
     metaq := metaq doc;
     depth := depth doc;
     maxdepth := maxdepth doc;
     opts_meta := opts_meta doc;
     opts_metaovr := opts_metaovr doc;
     detached := detached doc |}.

Definition set_footnotes (v : list footnote_ref) (doc : lowdown_doc) : lowdown_doc :=
  {| refq := refq doc;
     footnotes := v;
     footnotesz := footnotesz doc;
     active_char := active_char doc;
     ext_flags := ext_flags doc;
     cur_par := cur_par doc;
     in_link_body := in_link_body doc;
     nodes := nodes doc;
     current := current doc;
     metaq := metaq doc;
     depth := depth doc;
     maxdepth := maxdepth doc;
     opts_meta := opts_meta doc;
     opts_metaovr := opts_metaovr doc;
     detached := detached doc |}.

Definition set_footnotesz (v : nat) (doc : lowdown_doc) : lowdown_doc :=
  {| refq := refq doc;
     footnotes := footnotes doc;
     footnotesz := v;
     active_char := active_char doc;
     ext_flags := ext_flags doc;
     cur_par := cur_par doc;
     in_link_body := in_link_body doc;
     nodes := nodes doc;
     current := current doc;
     metaq := metaq doc;
     depth := depth doc;
     maxdepth := maxdepth doc;
     opts_meta := opts_meta doc;
     opts_metaovr := opts_metaovr doc;
     detached := detached doc |}.

Definition set_cur_par (v : nat) (doc : lowdown_doc) : lowdown_doc :=
  {| refq := refq doc;
     footnotes := footnotes doc;
     footnotesz := footnotesz doc;
     active_char := active_char doc;
     ext_flags := ext_flags doc;
     cur_par := v;
     in_link_body := in_link_body doc;
     nodes := nodes doc;
     current := current doc;
     metaq := metaq doc;
     depth := depth doc;
     maxdepth := maxdepth doc;
     opts_meta := opts_meta doc;
     opts_metaovr := opts_metaovr doc;
     detached := detached doc |}.

Definition set_in_link_body (v : bool) (doc : lowdown_doc) : lowdown_doc :=
  {| refq := refq doc;
     footnotes := footnotes doc;
     footnotesz := footnotesz doc;
     active_char := active_char doc;
     ext_flags := ext_flags doc;
     cur_par := cur_par doc;
     in_link_body := v;
     nodes := nodes doc;
     current := current doc;
     metaq := metaq doc;
     depth := depth doc;
     maxdepth := maxdepth doc;
     opts_meta := opts_meta doc;
     opts_metaovr := opts_metaovr doc;
     detached := detached doc |}.

Definition set_nodes (v : nat) (doc : lowdown_doc) : lowdown_doc :=
  {| refq := refq doc;
     footnotes := footnotes doc;
     footnotesz := footnotesz doc;
     active_char := active_char doc;
     ext_flags := ext_flags doc;
     cur_par := cur_par doc;
     in_link_body := in_link_body doc;
     nodes := v;
     current := current doc;
     metaq := metaq doc;
     depth := depth doc;
     maxdepth := maxdepth doc;
     opts_meta := opts_meta doc;
     opts_metaovr := opts_metaovr doc;
     detached := detached doc |}.

Definition set_current (v : option cursor) (doc : lowdown_doc) : lowdown_doc :=
  {| refq := refq doc;
     footnotes := footnotes doc;
     footnotesz := footnotesz doc;
     active_char := active_char doc;
     ext_flags := ext_flags doc;
     cur_par := cur_par doc;
     in_link_body := in_link_body doc;
     nodes := nodes doc;
     current := v;
     metaq := metaq doc;
     depth := depth doc;
     maxdepth := maxdepth doc;
     opts_meta := opts_meta doc;
     opts_metaovr := opts_metaovr doc;
     detached := detached doc |}.

Definition set_metaq (v : list hbufn) (doc : lowdown_doc) : lowdown_doc :=
  {| refq := refq doc;
     footnotes := footnotes doc;
     footnotesz := footnotesz doc;
     active_char := active_char doc;
     ext_flags := ext_flags doc;
     cur_par := cur_par doc;
     in_link_body := in_link_body doc;
     nodes := nodes doc;
     current := current doc;
     metaq := v;
     depth := depth doc;
     maxdepth := maxdepth doc;
     opts_meta := opts_meta doc;
     opts_metaovr := opts_metaovr doc;
     detached := detached doc |}.

Definition set_depth (v : nat) (doc : lowdown_doc) : lowdown_doc :=
  {| refq := refq doc;
     footnotes := footnotes doc;
     footnotesz := footnotesz doc;
     active_char := active_char doc;
     ext_flags := ext_flags doc;
     cur_par := cur_par doc;
     in_link_body := in_link_body doc;
     nodes := nodes doc;
     current := current doc;
     metaq := metaq doc;
     depth := v;
     maxdepth := maxdepth doc;
     opts_meta := opts_meta doc;
     opts_metaovr := opts_metaovr doc;
     detached := detached doc |}.

Definition set_opts_meta (v : list lowdown_meta) (doc : lowdown_doc) : lowdown_doc :=
  {| refq := refq doc;
     footnotes := footnotes doc;
     footnotesz := footnotesz doc;
     active_char := active_char doc;
     ext_flags := ext_flags doc;
     cur_par := cur_par doc;
     in_link_body := in_link_body doc;
     nodes := nodes doc;
     current := current doc;
     metaq := metaq doc;
     depth := depth doc;
     maxdepth := maxdepth doc;
     opts_meta := v;
     opts_metaovr := opts_metaovr doc;
     detached := detached doc |}.

Definition set_opts_metaovr (v : list lowdown_meta) (doc : lowdown_doc) : lowdown_doc :=
  {| refq := refq doc;
     footnotes := footnotes doc;
     footnotesz := footnotesz doc;
     active_char := active_char doc;
     ext_flags := ext_flags doc;
     cur_par := cur_par doc;
     in_link_body := in_link_body doc;
     nodes := nodes doc;
     current := current doc;
     metaq := metaq doc;
     depth := depth doc;
     maxdepth := maxdepth doc;
     opts_meta := opts_meta doc;
     opts_metaovr := v;
     detached := detached doc |}.

Definition set_detached (v : option lowdown_node) (doc : lowdown_doc) : lowdown_doc :=
  {| refq := refq doc;
     footnotes := footnotes doc;
     footnotesz := footnotesz doc;
     active_char := active_char doc;
     ext_flags := ext_flags doc;
     cur_par := cur_par doc;
     in_link_body := in_link_body doc;
     nodes := nodes doc;
     current := current doc;
     metaq := metaq doc;
     depth := depth doc;
     maxdepth := maxdepth doc;
     opts_meta := opts_meta doc;
     opts_metaovr := opts_metaovr doc;
     detached := v |}.

(** ** Running the parser

    A parser function either returns, with a value and the document it
    leaves, or the process ends: [errx] on the depth limit
    ([DepthExceeded]), a failed [assert] or a null dereference
    ([AssertFailed]).  [OutOfFuel] is the embedding's own: the run needed
    more rounds than the fuel it was given. *)

Inductive outcome (A : Type) : Type :=
| Ret (a : A) (doc : lowdown_doc)
| DepthExceeded
| AssertFailed
| OutOfFuel.

Arguments Ret {A} a doc.
Arguments DepthExceeded {A}.
Arguments AssertFailed {A}.
Arguments OutOfFuel {A}.

Definition M (A : Type) : Type := lowdown_doc -> outcome A.

Definition ret {A : Type} (a : A) : M A := fun doc => Ret a doc.

Definition bind {A B : Type} (m : M A) (f : A -> M B) : M B :=
  fun doc =>
    match m doc with
    | Ret a doc' => f a doc'
    | DepthExceeded => DepthExceeded
    | AssertFailed => AssertFailed
    | OutOfFuel => OutOfFuel
    end.

Declare Scope parser_scope.
Delimit Scope parser_scope with parser.
Bind Scope parser_scope with M.

Notation "x <- m ;; k" := (bind m (fun x => k))
  (at level 61, m at next level, right associativity) : parser_scope.
Notation "m ;; k" := (bind m (fun _ => k))
  (at level 61, right associativity) : parser_scope.

Local Open Scope parser_scope.

Definition get : M lowdown_doc := fun doc => Ret doc doc.

Definition modify (f : lowdown_doc -> lowdown_doc) : M unit :=
  fun doc => Ret tt (f doc).

Definition assert (b : bool) : M unit :=
  fun doc => if b then Ret tt doc else AssertFailed.

Definition out_of_fuel {A : Type} : M A := fun _ => OutOfFuel.

(** ** Nodes and the cursor *)

Definition new_node (i : nat) (t : lowdown_rndrt) : node_hd :=
  {| id := i; type := t; payload := rndr_zero |}.

(** [pushnode(doc, t)].  The new node is linked as the last child of the
    cursor and becomes the cursor; the result is the handle the C code
    keeps in [n], here the node's [id]. *)
Definition pushnode (t : lowdown_rndrt) : M nat :=
  fun doc =>
    if (maxdepth doc <? depth doc) && negb (maxdepth doc =? 0)
    then DepthExceeded
    else
      let n := new_node (nodes doc) t in
      let c :=
        match current doc with
        | None => {| c_hd := n; c_children := []; c_path := [] |}
        | Some c0 =>
          {| c_hd := n; c_children := [];
             c_path := {| f_hd := c_hd c0; f_left := c_children c0;
                          f_right := [] |} :: c_path c0 |}
        end in
      Ret (nodes doc)
          (set_current (Some c)
             (set_nodes (S (nodes doc)) (set_depth (S (depth doc)) doc))).

(** [popnode(doc, n)]. *)
Definition popnode (n : nat) : M unit :=
  fun doc =>
    if depth doc =? 0 then AssertFailed
    else
      match current doc with
      | None => AssertFailed
      | Some c =>
        if negb (id (c_hd c) =? n) then AssertFailed
        else
          let done := Node (c_hd c) (c_children c) in
          let doc := set_depth (depth doc - 1) doc in
          match c_path c with
          | [] => Ret tt (set_detached (Some done) (set_current None doc))
          | f :: path =>
            Ret tt (set_current
                      (Some {| c_hd := f_hd f;
                               c_children := f_left f ++ done :: f_right f;
                               c_path := path |}) doc)
          end
      end.

(** Assignment to a field of the payload of the cursor node, as in
    [n->rndr_paragraph.lines = lines] right after [n = pushnode(...)]. *)
Definition set_payload (f : rndr -> rndr) : M unit :=
  fun doc =>
    match current doc with
    | None => AssertFailed
    | Some c =>
      Ret tt (set_current
                (Some {| c_hd := {| id := id (c_hd c); type := type (c_hd c);
                                    payload := f (payload (c_hd c)) |};
                         c_children := c_children c;
                         c_path := c_path c |}) doc)
    end.

(** [TAILQ_LAST(&doc->current->children, lowdown_nodeq)]. *)
Definition last_child : M (option lowdown_node) :=
  fun doc =>
    match current doc with
    | None => AssertFailed
    | Some c => Ret (last_opt (c_children c)) doc
    end.

(** Assignment to the payload of the last child of the cursor, through
    the pointer [TAILQ_LAST] returned. *)
Definition set_last_payload (p : rndr) : M unit :=
  fun doc =>
    match current doc with
    | None => AssertFailed
    | Some c =>
      match last_opt (c_children c) with
      | None => AssertFailed
      | Some (Node hd cs) =>
        Ret tt (set_current
                  (Some {| c_hd := c_hd c;
                           c_children :=
                             removelast (c_children c)
                             ++ [Node {| id := id hd; type := type hd;
                                         payload := p |} cs];
                           c_path := c_path c |}) doc)
      end
    end.

(** [pushbuffer(buf, data, datasz)]: the buffer ends up holding a copy
    of the [datasz] bytes at [data]. *)
Definition pushbuffer (data : ptr) (datasz : nat) : bytes := slice data 0 datasz.

(** ** Other helpers *)

(** The text buffer of a NORMAL_TEXT node. *)
Definition normal_text_of (r : rndr) : bytes :=
  match r with
  | rndr_normal_text t => t
  | _ => []
  end.

(** [while (b->size && b->data[b->size - 1] == ' ') b->size--;] *)
Fixpoint trim_trailing_spaces (b : bytes) : bytes :=
  match b with
  | [] => []
  | c :: r =>
    match trim_trailing_spaces r with
    | [] => if ceq c ch_sp then [] else [c]
    | r' => c :: r'
    end
  end.

(** [unscape_text(ob, src)], for an empty [ob]: the bytes of [src] with
    each backslash dropped and the byte after it kept. *)
Fixpoint unscape_text_loop (n : nat) (src : ptr) (size i : nat) (ob : bytes)
  : bytes :=
  match n with
  | 0 => ob
  | S n' =>
    if i <? size then
      let org := i in
      let i := scan (fun k => negb (ceq src.[k] ch_bslash)) i size in
      let ob := if org <? i then ob ++ slice src org (i - org) else ob in
      if size <=? i + 1 then ob
      else unscape_text_loop n' src size (i + 2) (ob ++ [src.[i + 1]])
    else ob
  end.

Definition unscape_text (src : bytes) : bytes :=
  unscape_text_loop (length src) (ptr_of src) (length src) 0 [].

(** [replace_spacing(ob, data, size)], for an empty [ob]. *)
Fixpoint replace_spacing_loop (n : nat) (data : ptr) (size i : nat) (ob : bytes)
  : bytes :=
  let mark := i in
  let i := scan (fun k => negb (ceq data.[k] ch_nl)) i size in
  let ob := ob ++ slice data mark (i - mark) in
  if size <=? i then ob
  else
    let ob := if negb ((0 <? i) && ceq data.[i - 1] ch_sp)
              then ob ++ [ch_sp] else ob in
    match n with
    | 0 => ob
    | S n' => replace_spacing_loop n' data size (S i) ob
    end.

Definition replace_spacing (data : ptr) (size : nat) : bytes :=
  replace_spacing_loop size data size 0 [].

(** [find_link_ref(q, name, length)]. *)
Definition find_link_ref (q : list link_ref) (name : bytes) : option link_ref :=
  find (fun r => match lr_name r with
                 | None => length name =? 0
                 | Some nm => bytes_eqb nm name
                 end) q.

(** [find_footnote_ref(q, name, sz)]: the position in the queue of the
    entry the C function returns a pointer to. *)
Fixpoint find_footnote_ref (q : list footnote_ref) (name : bytes) : option nat :=
  match q with
  | [] => None
  | r :: q' =>
    if match fr_name r with
       | None => length name =? 0
       | Some nm => bytes_eqb nm name
       end
    then Some 0
    else option_map S (find_footnote_ref q' name)
  end.

(** [is_mail_autolink(data, size)]. *)
Fixpoint is_mail_autolink_loop (n : nat) (data : ptr) (i nb : nat) : nat :=
  match n with
  | 0 => 0
  | S n' =>
    let c := data.[i] in
    if isalnum c then is_mail_autolink_loop n' data (S i) nb
    else if ceq c ch_at then is_mail_autolink_loop n' data (S i) (S nb)
    else if ceq c ch_minus || ceq c ch_dot || ceq c ch_under
    then is_mail_autolink_loop n' data (S i) nb
    else if ceq c ch_gt then (if nb =? 1 then i + 1 else 0)
    else 0
  end.

Definition is_mail_autolink (data : ptr) (size : nat) : nat :=
  is_mail_autolink_loop size data 0 0.

(** The closing [-->] of an HTML comment, searched from [i = 5]. *)
Definition comment_end (data : ptr) (size : nat) : nat :=
  scan (fun i => negb (ceq data.[i - 2] ch_minus && ceq data.[i - 1] ch_minus
                       && ceq data.[i] ch_gt)) 5 size.

(** [tag_length(data, size, &ltype)]: the length and the link type left
    in [*ltype], which the caller has set to [HALINK_NONE]. *)
Definition tag_length (data : ptr) (size : nat) : nat * halink_type :=
  if size <? 3 then (0, HALINK_NONE)
  else if negb (ceq data.[0] ch_lt) then (0, HALINK_NONE)
  else
    let is_comment := (5 <? size) && ceq data.[1] ch_bang
                      && ceq data.[2] ch_minus && ceq data.[3] ch_minus in
    if is_comment && (S (comment_end data size) <=? size)
    then (S (comment_end data size), HALINK_NONE)
    else
      let i := if ceq data.[1] ch_slash then 2 else 1 in
      if negb (isalnum data.[i]) then (0, HALINK_NONE)
      else
        let i := scan (fun k => isalnum data.[k] || ceq data.[k] ch_dot
                                || ceq data.[k] ch_plus || ceq data.[k] ch_minus)
                      i size in
        let j := if (1 <? i) && ceq data.[i] ch_at
                 then is_mail_autolink (shift data i) (size - i) else 0 in
        if negb (j =? 0) then (i + j, HALINK_EMAIL)
        else
          let '(i, ltype) := if (2 <? i) && ceq data.[i] ch_colon
                             then (S i, HALINK_NORMAL) else (i, HALINK_NONE) in
          let tag_end (i : nat) :=
            let i := scan (fun k => negb (ceq data.[k] ch_gt)) i size in
            if size <=? i then (0, HALINK_NONE) else (i + 1, HALINK_NONE) in
          if size <=? i then tag_end i
          else
            match ltype with
            | HALINK_NONE => tag_end i
            | _ =>
              let j := i in
              let i :=
                loop (size - i)
                  (fun i =>
                     if i <? size then
                       if ceq data.[i] ch_bslash then Some (i + 2)
                       else if ceq data.[i] ch_gt || ceq data.[i] ch_quote
                               || ceq data.[i] ch_dquote || ceq data.[i] ch_sp
                               || ceq data.[i] ch_nl then None
                       else Some (S i)
                     else None) i in
              if size <=? i then (0, ltype)
              else if (j <? i) && ceq data.[i] ch_gt then (i + 1, ltype)
              else tag_end i
            end.

(** ** Line predicates of the block parser *)

(** [is_empty(data, size)]. *)
Definition is_empty (data : ptr) (size : nat) : nat :=
  let i := scan (fun k => negb (ceq data.[k] ch_nl) && ceq data.[k] ch_sp)
                0 size in
  if (i <? size) && negb (ceq data.[i] ch_nl) then 0 else i + 1.

(** [is_hrule(data, size)]. *)
Definition is_hrule (data : ptr) (size : nat) : bool :=
  if size <? 3 then false
  else
    let i := countspaces data 0 size 3 in
    if (size <=? i + 2)
       || (negb (ceq data.[i] ch_star) && negb (ceq data.[i] ch_minus)
           && negb (ceq data.[i] ch_under))
    then false
    else
      let c := data.[i] in
      let '(i, n) :=
        iter (fun k n =>
                if ceq data.[k] ch_nl then None
                else if ceq data.[k] c then Some (S n)
                else if ceq data.[k] ch_sp then Some n
                else None) i size 0 in
      if (i <? size) && negb (ceq data.[i] ch_nl) then false
      else 3 <=? n.

(** [is_codefence(data, size, &width, &chr)]: the result, and the
    width and the character written when it is not zero. *)
Definition is_codefence (data : ptr) (size : nat) : nat * nat * ascii :=
  if size <? 3 then (0, 0, zero)
  else
    let i := countspaces data 0 size 3 in
    let c := data.[i] in
    if (size <=? i + 2) || negb (ceq c ch_tilde || ceq c ch_btick)
    then (0, 0, zero)
    else
      let i' := scan (fun k => ceq data.[k] c) (S i) size in
      let n := i' - i in
      if n <? 3 then (0, 0, zero) else (i', n, c).

(** [parse_codefence(data, size, &lang, &width, &chr)]: the result,
    the language, the width and the character. *)
Definition parse_codefence (data : ptr) (size : nat)
  : nat * bytes * nat * ascii :=
  let '(w, width, chr) := is_codefence data size in
  if w =? 0 then (0, [], width, chr)
  else
    let i := scan (fun k => xisspace data.[k]) w size in
    let lang_start := i in
    let i := scan (fun k => negb (xisspace data.[k])) i size in
    let lang := slice data lang_start (i - lang_start) in
    let i := scan (fun k => negb (ceq data.[k] chr && ceq data.[k - 1] chr
                                  && ceq data.[k - 2] chr))
                  (lang_start + 2) size in
    if i <? size then (0, lang, width, chr) else (w, lang, width, chr).

(** [is_atxheader(doc, data, size)]. *)
Definition is_atxheader (doc : lowdown_doc) (data : ptr) (size : nat) : bool :=
  if negb (ceq data.[0] ch_hash) then false
  else if has_feat doc LOWDOWN_COMMONMARK then
    let level := scan (fun k => (k <? 6) && ceq data.[k] ch_hash) 0 size in
    negb ((level <? size) && negb (ceq data.[level] ch_sp))
  else true.

(** [is_headerline(data, size)]. *)
Definition is_headerline (data : ptr) (size : nat) : nat :=
  if ceq data.[0] ch_eq || ceq data.[0] ch_minus then
    let level := if ceq data.[0] ch_eq then 1 else 2 in
    let hchr := data.[0] in
    let i := scan (fun k => ceq data.[k] hchr) 1 size in
    let i := countspaces data i size 0 in
    if (size <=? i) || ceq data.[i] ch_nl then level else 0
  else 0.

(** [is_next_headerline(data, size)]. *)
Definition is_next_headerline (data : ptr) (size : nat) : nat :=
  let i := scan (fun k => negb (ceq data.[k] ch_nl)) 0 size in
  let i := S i in
  if size <=? i then 0 else is_headerline (shift data i) (size - i).

(** [prefix_dli(doc, data, size)]. *)
Definition prefix_dli (doc : lowdown_doc) (data : ptr) (size : nat) : nat :=
  if negb (has_feat doc LOWDOWN_DEFLIST) then 0
  else
    let i := countspaces data 0 size 3 in
    if (size <=? i + 1) || negb (ceq data.[i] ch_colon)
       || negb (ceq data.[i + 1] ch_sp) then 0
    else if negb (is_next_headerline (shift data i) (size - i) =? 0) then 0
    else i + 2.

(** [prefix_quote(data, size)]. *)
Definition prefix_quote (data : ptr) (size : nat) : nat :=
  let i := countspaces data 0 size 3 in
  if (i <? size) && ceq data.[i] ch_gt
  then countspaces data (i + 1) size 1
  else 0.

(** [prefix_code(data, size)]. *)
Definition prefix_code (data : ptr) (size : nat) : nat :=
  if countspaces data 0 size 4 =? 4 then 4 else 0.

(** [prefix_oli(doc, data, size, value)]: the result, and the string
    left in [value] when the result is not zero. *)
Definition prefix_oli (doc : lowdown_doc) (data : ptr) (size : nat)
  : nat * bytes :=
  let i := countspaces data 0 size 3 in
  if (size <=? i) || negb (isdigit data.[i]) then (0, [])
  else
    let st := i in
    let i := scan (fun k => isdigit data.[k]) i size in
    let vsize := i - st in
    let cm := has_feat doc LOWDOWN_COMMONMARK in
    if cm && (9 <? vsize) then (0, [])
    else if (if cm
             then (size <=? i + 1)
                  || (negb (ceq data.[i] ch_dot) && negb (ceq data.[i] ch_rparen))
                  || negb (ceq data.[i + 1] ch_sp)
             else (size <=? i + 1) || negb (ceq data.[i] ch_dot)
                  || negb (ceq data.[i + 1] ch_sp))
    then (0, [])
    else if negb (is_next_headerline (shift data i) (size - i) =? 0) then (0, [])
    else (i + 2, if cm then slice data st vsize else []).

(** [prefix_uli(data, size)]. *)
Definition prefix_uli (data : ptr) (size : nat) : nat :=
  let i := countspaces data 0 size 3 in
  if (size <=? i + 1)
     || (negb (ceq data.[i] ch_star) && negb (ceq data.[i] ch_plus)
         && negb (ceq data.[i] ch_minus))
     || negb (ceq data.[i + 1] ch_sp) then 0
  else if negb (is_next_headerline (shift data i) (size - i) =? 0) then 0
  else i + 2.

(** The end of the line that starts at [i]:
    [for (end = i + 1; end < size && data[end - 1] != '\n'; end++)]. *)
Definition line_end (data : ptr) (size i : nat) : nat :=
  scan (fun k => negb (ceq data.[k - 1] ch_nl)) (i + 1) size.

(** ** The autolink detectors

    [halink_url], [halink_email] and [halink_www] live in autolink.c.
    Each is given [(data, offset, size)] and yields the match length,
    the rewind count and the link text; the parser is parametric in
    them. *)
Record autolink : Type := {
  halink_url : ptr -> nat -> nat -> nat * nat * bytes;
  halink_email : ptr -> nat -> nat -> nat * nat * bytes;
  halink_www : ptr -> nat -> nat -> nat * nat * bytes
}.

Section Parser.

Variable al : autolink.

(** ** The inline handlers *)

Section Inline.

(** The recursive call to [parse_inline], and the fuel for the loops
    of the handlers. *)
Variable parse_inline : ptr -> nat -> M unit.
Variable fuel : nat.

(** [parse_emph1(doc, data, size, c)], from the given [i]. *)
Fixpoint parse_emph1_loop (gas : nat) (data : ptr) (size : nat) (c : ascii)
  (i : nat) : M nat :=
  match gas with
  | 0 => out_of_fuel
  | S gas' =>
    if i <? size then
      let len := find_emph_char (shift data i) (size - i) c in
      if len =? 0 then ret 0
      else
        let i := i + len in
        if size <=? i then ret 0
        else if ceq data.[i] c && negb (xisspace data.[i - 1]) then
          doc <- get ;;
          if has_feat doc LOWDOWN_NOINTEM
             && ((i + 1 <? size) && isalnum data.[i + 1])
          then parse_emph1_loop gas' data size c i
          else
            n <- pushnode LOWDOWN_EMPHASIS ;;
            parse_inline data i ;;
            popnode n ;;
            ret (i + 1)
        else parse_emph1_loop gas' data size c i
    else ret 0
  end.

Definition parse_emph1 (data : ptr) (size : nat) (c : ascii) : M nat :=
  parse_emph1_loop fuel data size c
    (if (1 <? size) && ceq data.[0] c && ceq data.[1] c then 1 else 0).

(** [parse_emph2(doc, data, size, c)]. *)
Fixpoint parse_emph2_loop (gas : nat) (data : ptr) (size : nat) (c : ascii)
  (i : nat) : M nat :=
  match gas with
  | 0 => out_of_fuel
  | S gas' =>
    if i <? size then
      let len := find_emph_char (shift data i) (size - i) c in
      if len =? 0 then ret 0
      else
        let i := i + len in
        if (i + 1 <? size) && ceq data.[i] c && ceq data.[i + 1] c
           && negb (i =? 0) && negb (xisspace data.[i - 1])
        then
          let t := if ceq c ch_tilde then LOWDOWN_STRIKETHROUGH
                   else if ceq c ch_eq then LOWDOWN_HIGHLIGHT
                   else LOWDOWN_DOUBLE_EMPHASIS in
          n <- pushnode t ;;
          parse_inline data i ;;
          popnode n ;;
          ret (i + 2)
        else parse_emph2_loop gas' data size c (S i)
    else ret 0
  end.

Definition parse_emph2 (data : ptr) (size : nat) (c : ascii) : M nat :=
  parse_emph2_loop fuel data size c 0.

(** [parse_emph3(doc, data, size, c)]. *)
Fixpoint parse_emph3_loop (gas : nat) (data : ptr) (size : nat) (c : ascii)
  (i : nat) : M nat :=
  match gas with
  | 0 => out_of_fuel
  | S gas' =>
    if i <? size then
      let len := find_emph_char (shift data i) (size - i) c in
      if len =? 0 then ret 0
      else
        let i := i + len in
        if negb (ceq data.[i] c) || xisspace data.[i - 1]
        then parse_emph3_loop gas' data size c i
        else if (i + 2 <? size) && ceq data.[i + 1] c && ceq data.[i + 2] c
        then
          n <- pushnode LOWDOWN_TRIPLE_EMPHASIS ;;
          parse_inline data i ;;
          popnode n ;;
          ret (i + 3)
        else if (i + 1 <? size) && ceq data.[i + 1] c
        then
          len <- parse_emph1 (back data 2) (size + 2) c ;;
          if len =? 0 then ret 0 else ret (len - 2)
        else
          len <- parse_emph2 (back data 1) (size + 1) c ;;
          if len =? 0 then ret 0 else ret (len - 1)
    else ret 0
  end.

Definition parse_emph3 (data : ptr) (size : nat) (c : ascii) : M nat :=
  parse_emph3_loop fuel data size c 0.

(** [char_emphasis(doc, data, offset, size)]. *)
Definition char_emphasis (data : ptr) (offset size : nat) : M nat :=
  let c := data.[0] in
  doc <- get ;;
  if has_feat doc LOWDOWN_NOINTEM
     && ((0 <? offset) && negb (xisspace (back data 1).[0])
         && negb (ceq (back data 1).[0] ch_gt)
         && negb (ceq (back data 1).[0] ch_lparen))
  then ret 0
  else if (2 <? size) && negb (ceq data.[1] c) then
    if ceq c ch_tilde || ceq c ch_eq || xisspace data.[1] then ret 0
    else
      r <- parse_emph1 (shift data 1) (size - 1) c ;;
      if r =? 0 then ret 0 else ret (r + 1)
  else if (3 <? size) && ceq data.[1] c && negb (ceq data.[2] c) then
    if xisspace data.[2] then ret 0
    else
      r <- parse_emph2 (shift data 2) (size - 2) c ;;
      if r =? 0 then ret 0 else ret (r + 2)
  else if (4 <? size) && ceq data.[1] c && ceq data.[2] c
          && negb (ceq data.[3] c) then
    if ceq c ch_tilde || ceq c ch_eq || xisspace data.[3] then ret 0
    else
      r <- parse_emph3 (shift data 3) (size - 3) c ;;
      if r =? 0 then ret 0 else ret (r + 3)
  else ret 0.

(** [char_linebreak(doc, data, offset, size)]. *)
Definition char_linebreak (data : ptr) (offset size : nat) : M nat :=
  if (offset <? 2) || negb (ceq (back data 1).[0] ch_sp)
     || negb (ceq (back data 2).[0] ch_sp)
  then ret 0
  else
    n <- last_child ;;
    match n with
    | Some (Node hd cs) =>
      assert (lowdown_rndrt_beq (type hd) LOWDOWN_NORMAL_TEXT) ;;
      set_last_payload
        (rndr_normal_text
           (trim_trailing_spaces (normal_text_of (payload hd)))) ;;
      let w := scan (fun w => ceq data.[w] ch_sp) 1 size in
      n <- pushnode LOWDOWN_LINEBREAK ;;
      popnode n ;;
      ret w
    | None => assert false ;; ret 0
    end.

(** [char_codespan(doc, data, offset, size)]. *)
Definition char_codespan (data : ptr) (offset size : nat) : M nat :=
  let nb := scan (fun k => ceq data.[k] ch_btick) 0 size in
  let '(end_, i) :=
    iter (fun k i => if i <? nb
                     then Some (if ceq data.[k] ch_btick then S i else 0)
                     else None) nb size 0 in
  if (i <? nb) && (size <=? end_) then ret 0
  else
    let f_begin := countspaces data nb end_ 0 in
    let f_end := scan_back (fun k => ceq data.[k - 1] ch_sp) (end_ - nb) nb in
    n <- pushnode LOWDOWN_CODESPAN ;;
    (if f_begin <? f_end
     then set_payload (fun _ =>
            rndr_codespan (pushbuffer (shift data f_begin)
                                      (f_end - f_begin)))
     else ret tt) ;;
    popnode n ;;
    ret end_.

(** The search of [parse_math] for the closing delimiter [end_] of
    [delimsz] bytes: its position, or [None] for [return 0]. *)
Fixpoint parse_math_find (n : nat) (data : ptr) (size : nat) (end_ : bytes)
  (delimsz i : nat) : option nat :=
  let i := scan (fun k => negb (ceq data.[k] (rd end_ 0))) i size in
  if size <=? i then None
  else if negb (is_escaped data i) && negb (size <? i + delimsz)
          && bytes_eqb (slice data i delimsz) (firstn delimsz end_)
  then Some i
  else
    match n with
    | 0 => None
    | S n' => parse_math_find n' data size end_ delimsz (S i)
    end.

(** [parse_math(doc, data, offset, size, end, delimsz, blockmode)]. *)
Definition parse_math (data : ptr) (offset size : nat) (end_ : bytes)
  (delimsz : nat) (blockmode : bool) : M nat :=
  match parse_math_find size data size end_ delimsz delimsz with
  | None => ret 0
  | Some i =>
    let i := i + delimsz in
    doc <- get ;;
    if negb (has_feat doc LOWDOWN_MATH) then
      n <- pushnode LOWDOWN_NORMAL_TEXT ;;
      set_payload (fun _ => rndr_normal_text (pushbuffer data i)) ;;
      popnode n ;;
      ret i
    else
      n <- pushnode LOWDOWN_MATH_BLOCK ;;
      set_payload (fun _ =>
        rndr_math (pushbuffer (shift data delimsz) (i - 2 * delimsz))
                  blockmode) ;;
      popnode n ;;
      ret i
  end.

(** The characters a backslash escapes; [strchr] also finds the NUL
    that ends the string. *)
Definition escape_chars : bytes :=
  [ch_bslash; ch_btick; ch_star; ch_under; ch_lbrace; ch_rbrace; ch_lbrack;
   ch_rbrack; ch_lparen; ch_rparen; ch_hash; ch_plus; ch_minus; ch_dot;
   ch_bang; ch_colon; ch_pipe; ch_amp; ch_lt; ch_gt; ch_caret; ch_tilde;
   ch_eq; ch_dquote; ch_dollar].

Definition strchr (s : bytes) (c : ascii) : bool :=
  existsb (ceq c) s || ceq c zero.

(** [char_escape(doc, data, offset, size)]. *)
Definition char_escape (data : ptr) (offset size : nat) : M nat :=
  if 1 <? size then
    doc <- get ;;
    w <- (if ceq data.[1] ch_bslash && has_feat doc LOWDOWN_MATH
             && (2 <? size)
             && (ceq data.[2] ch_lparen || ceq data.[2] ch_lbrack)
          then
            let end_ := if ceq data.[2] ch_lbrack
                        then [ch_bslash; ch_bslash; ch_rbrack]
                        else [ch_bslash; ch_bslash; ch_rparen] in
            parse_math data offset size end_ 3 (ceq data.[2] ch_lbrack)
          else ret 0) ;;
    if negb (w =? 0) then ret w
    else if has_feat doc LOWDOWN_COMMONMARK && ceq data.[1] ch_nl then
      let w := scan (fun w => ceq data.[w] ch_sp) 2 size in
      n <- pushnode LOWDOWN_LINEBREAK ;;
      popnode n ;;
      ret w
    else if negb (strchr escape_chars data.[1]) then ret 0
    else
      n <- pushnode LOWDOWN_NORMAL_TEXT ;;
      set_payload (fun _ => rndr_normal_text (pushbuffer (shift data 1) 1)) ;;
      popnode n ;;
      ret 2
  else if size =? 1 then
    n <- pushnode LOWDOWN_NORMAL_TEXT ;;
    set_payload (fun _ => rndr_normal_text (pushbuffer data 1)) ;;
    popnode n ;;
    ret 2
  else ret 2.

(** [char_entity(doc, data, offset, size)]. *)
Definition char_entity (data : ptr) (offset size : nat) : M nat :=
  let end_ := 1 in
  let end_ := if (end_ <? size) && ceq data.[end_] ch_hash
              then S end_ else end_ in
  let end_ := scan (fun k => isalnum data.[k]) end_ size in
  if (end_ <? size) && ceq data.[end_] ch_semi then
    let end_ := S end_ in
    n <- pushnode LOWDOWN_ENTITY ;;
    set_payload (fun _ => rndr_entity (pushbuffer data end_)) ;;
    popnode n ;;
    ret end_
  else ret 0.

(** [char_langle_tag(doc, data, offset, size)]. *)
Definition char_langle_tag (data : ptr) (offset size : nat) : M nat :=
  let '(end_, altype) := tag_length data size in
  if 2 <? end_ then
    match altype with
    | HALINK_NONE =>
      n <- pushnode LOWDOWN_RAW_HTML ;;
      set_payload (fun _ => rndr_raw_html (pushbuffer data end_)) ;;
      popnode n ;;
      ret end_
    | _ =>
      let u_link := unscape_text (slice data 1 (end_ - 2)) in
      n <- pushnode LOWDOWN_LINK_AUTO ;;
      set_payload (fun _ => rndr_autolink u_link u_link altype) ;;
      popnode n ;;
      ret end_
    end
  else ret 0.

(** The rewind the three autolink handlers apply to the text node that
    precedes the link:
    [if (size > rewind) size -= rewind; else size = 0;]. *)
Definition rewind_last_text (rewind : nat) : M unit :=
  doc <- get ;;
  match current doc with
  | None => ret tt
  | Some c =>
    match last_opt (c_children c) with
    | Some (Node hd cs) =>
      if lowdown_rndrt_beq (type hd) LOWDOWN_NORMAL_TEXT then
        let t := normal_text_of (payload hd) in
        set_last_payload (rndr_normal_text (firstn (length t - rewind) t))
      else ret tt
    | None => ret tt
    end
  end.

(** [char_autolink_www(doc, data, offset, size)].  The C code writes
    the link text through [n->rndr_normal_text.text], where [n] is the
    LINK node and not its NORMAL_TEXT child [nn]: the child keeps its
    empty buffer, and the write lands on the first buffer of the
    union of [n]. *)
Definition char_autolink_www (data : ptr) (offset size : nat) : M nat :=
  doc <- get ;;
  if in_link_body doc then ret 0
  else
    let '(link_len, rewind, link) := halink_www al data offset size in
    if 0 <? link_len then
      let link_url := str "http://" ++ link in
      rewind_last_text rewind ;;
      n <- pushnode LOWDOWN_LINK ;;
      set_payload (fun _ => rndr_link link_url []) ;;
      nn <- pushnode LOWDOWN_NORMAL_TEXT ;;
      popnode nn ;;
      set_payload (fun _ => rndr_link link []) ;;
      popnode n ;;
      ret link_len
    else ret link_len.

(** [char_autolink_email(doc, data, offset, size)]. *)
Definition char_autolink_email (data : ptr) (offset size : nat) : M nat :=
  doc <- get ;;
  if in_link_body doc then ret 0
  else
    let '(link_len, rewind, link) := halink_email al data offset size in
    if 0 <? link_len then
      rewind_last_text rewind ;;
      n <- pushnode LOWDOWN_LINK_AUTO ;;
      set_payload (fun _ => rndr_autolink link [] HALINK_EMAIL) ;;
      popnode n ;;
      ret link_len
    else ret link_len.

(** [char_autolink_url(doc, data, offset, size)]. *)
Definition char_autolink_url (data : ptr) (offset size : nat) : M nat :=
  doc <- get ;;
  if in_link_body doc then ret 0
  else
    let '(link_len, rewind, link) := halink_url al data offset size in
    if 0 <? link_len then
      rewind_last_text rewind ;;
      n <- pushnode LOWDOWN_LINK_AUTO ;;
      set_payload (fun _ => rndr_autolink link [] HALINK_NORMAL) ;;
      popnode n ;;
      ret link_len
    else ret link_len.

(** [char_superscript(doc, data, offset, size)]. *)
Definition char_superscript (data : ptr) (offset size : nat) : M nat :=
  if size <? 2 then ret 0
  else
    let paren := ceq data.[1] ch_lparen in
    let sup_start := if paren then 2 else 1 in
    let sup_len :=
      if paren then find_emph_char (shift data 2) (size - 2) ch_rparen + 2
      else scan (fun k => negb (xisspace data.[k])) 1 size in
    if paren && (sup_len =? size) then ret 0
    else if sup_len - sup_start =? 0 then ret (if paren then 3 else 0)
    else
      n <- pushnode LOWDOWN_SUPERSCRIPT ;;
      parse_inline (shift data sup_start) (sup_len - sup_start) ;;
      popnode n ;;
      ret (if paren then sup_len + 1 else sup_len).

(** [char_math(doc, data, offset, size)]. *)
Definition char_math (data : ptr) (offset size : nat) : M nat :=
  if (1 <? size) && ceq data.[1] ch_dollar
  then parse_math data offset size [ch_dollar; ch_dollar] 2 true
  else parse_math data offset size [ch_dollar] 1 false.

(** *** Links *)

Fixpoint update_nth {A : Type} (k : nat) (f : A -> A) (l : list A) : list A :=
  match l, k with
  | [], _ => []
  | x :: l', 0 => f x :: l'
  | x :: l', S k' => x :: update_nth k' f l'
  end.

Definition is_quote (c : ascii) : bool := ceq c ch_quote || ceq c ch_dquote.

(** The scan of an inline link for the end of its address, counting
    open parentheses: the final [i]. *)
Definition link_end_scan (data : ptr) (size i : nat) : nat :=
  fst (loop (size - i)
         (fun '(i, nb_p) =>
            if i <? size then
              if ceq data.[i] ch_bslash then Some (i + 2, nb_p)
              else if ceq data.[i] ch_lparen && negb (i =? 0)
              then Some (S i, S nb_p)
              else if ceq data.[i] ch_rparen
              then (if nb_p =? 0 then None else Some (S i, nb_p - 1))
              else if (1 <=? i) && xisspace data.[i - 1]
                      && (is_quote data.[i] || ceq data.[i] ch_eq)
              then None
              else Some (S i, nb_p)
            else None) (i, 0)).

(** The scan of a link title, from the byte after its opening quote. *)
Definition title_scan (data : ptr) (size i : nat) (qtype : ascii) : nat :=
  fst (loop (size - i)
         (fun '(i, in_title) =>
            if i <? size then
              if ceq data.[i] ch_bslash then Some (i + 2, in_title)
              else if ceq data.[i] qtype then Some (S i, false)
              else if ceq data.[i] ch_eq && negb in_title then None
              else if ceq data.[i] ch_rparen && negb in_title then None
              else Some (S i, in_title)
            else None) (i, true)).

(** The scan of a dimension string. *)
Definition dims_scan (data : ptr) (size i : nat) : nat :=
  loop (size - i)
    (fun i =>
       if i <? size then
         if ceq data.[i] ch_bslash then Some (i + 2)
         else if is_quote data.[i] then None
         else if ceq data.[i] ch_rparen then None
         else Some (S i)
       else None) i.

(** The offsets an inline link is cut at. *)
Record link_cut : Type := {
  lc_i : nat;
  link_e : nat;
  title_b : nat;
  title_e : nat;
  dims_b : nat;
  dims_e : nat
}.

(** The code at the label [again] of [char_link]: a title or a
    dimension string, each of which may be followed by the other.
    [None] is [goto cleanup]. *)
Fixpoint link_again (n : nat) (data : ptr) (size : nat) (st : link_cut)
  : option link_cut :=
  let i := lc_i st in
  if is_quote data.[i] then
    let qtype := data.[i] in
    let tb := S i in
    let i := title_scan data size (S i) qtype in
    if size <=? i then None
    else
      let te := scan_back (fun k => xisspace data.[k]) (i - 1) tb in
      let closed := is_quote data.[te] in
      let st' := {| lc_i := i;
                    link_e := if closed then link_e st else i;
                    title_b := if closed then tb else 0;
                    title_e := if closed then te else 0;
                    dims_b := dims_b st; dims_e := dims_e st |} in
      if ceq data.[i] ch_eq then
        match n with
        | 0 => None
        | S n' => link_again n' data size st'
        end
      else Some st'
  else if ceq data.[i] ch_eq then
    let db := S i in
    let i := dims_scan data size (S i) in
    if size <=? i then None
    else
      let de := scan_back (fun k => xisspace data.[k]) i db in
      let st' := {| lc_i := i; link_e := link_e st;
                    title_b := title_b st; title_e := title_e st;
                    dims_b := db; dims_e := de |} in
      if is_quote data.[i] then
        match n with
        | 0 => None
        | S n' => link_again n' data size st'
        end
      else Some st'
  else Some st.

(** What the three forms of a link yield: the index after the link and
    the [link], [title] and [dims] buffers, each possibly [NULL]. *)
Definition link_parts : Type :=
  (nat * option bytes * option bytes * option bytes)%type.

(** The inline form [(url "title" =dims)], entered at the parenthesis. *)
Definition link_inline (data : ptr) (size i : nat) : option link_parts :=
  let i := S i in
  let i := scan (fun k => xisspace data.[k]) i size in
  let link_b := i in
  let i := link_end_scan data size i in
  if size <=? i then None
  else
    match link_again (size - i) data size
            {| lc_i := i; link_e := i; title_b := 0; title_e := 0;
               dims_b := 0; dims_e := 0 |} with
    | None => None
    | Some st =>
      let le := scan_back (fun k => xisspace data.[k - 1]) (link_e st) link_b in
      let '(link_b, le) :=
        if ceq data.[link_b] ch_lt && ceq data.[le - 1] ch_gt
        then (S link_b, le - 1) else (link_b, le) in
      Some (S (lc_i st),
            if link_b <? le then Some (slice data link_b (le - link_b))
            else None,
            if title_b st <? title_e st
            then Some (slice data (title_b st) (title_e st - title_b st))
            else None,
            if dims_b st <? dims_e st
            then Some (slice data (dims_b st) (dims_e st - dims_b st))
            else None)
    end.

(** The reference form [[id]] and the shortcut form. *)
Definition link_reference (doc : lowdown_doc) (data : ptr) (size i txt_e : nat)
  : option link_parts :=
  if (i <? size) && ceq data.[i] ch_lbrack then
    let i := S i in
    let link_b := i in
    let i := scan (fun k => negb (ceq data.[k] ch_rbrack)) i size in
    if size <=? i then None
    else
      let link_e := i in
      let idp := if link_b =? link_e
                 then replace_spacing (shift data 1) (txt_e - 1)
                 else slice data link_b (link_e - link_b) in
      match find_link_ref (refq doc) idp with
      | None => None
      | Some lr => Some (S i, Some (lr_link lr), lr_title lr, None)
      end
  else
    let idp := replace_spacing (shift data 1) (txt_e - 1) in
    match find_link_ref (refq doc) idp with
    | None => None
    | Some lr => Some (txt_e + 1, Some (lr_link lr), lr_title lr, None)
    end.

Definition buf_or_empty (b : option bytes) : bytes :=
  match b with
  | Some x => x
  | None => []
  end.

(** [char_link(doc, data, offset, size)]. *)
Definition char_link (data : ptr) (offset size : nat) : M nat :=
  doc <- get ;;
  let is_img := (0 <? offset) && ceq (back data 1).[0] ch_bang
                && negb (is_escaped (back data offset) (offset - 1)) in
  let is_footnote := has_feat doc LOWDOWN_FOOTNOTES && ceq data.[1] ch_caret in
  let is_metadata := has_feat doc LOWDOWN_METADATA && ceq data.[1] ch_percent in
  let i := 1 + find_emph_char (shift data 1) (size - 1) ch_rbrack in
  let txt_e := i in
  if negb ((i <? size) && ceq data.[i] ch_rbrack) then ret 0
  else
    let i := S i in
    if is_footnote then
      if txt_e <? 3 then ret 0
      else
        let idb := slice data 2 (txt_e - 2) in
        match find_footnote_ref (footnotes doc) idb with
        | Some k =>
          if negb (is_used (nth k (footnotes doc)
                                {| is_used := false; fr_num := 0;
                                   fr_name := None; contents := [] |}))
          then
            n <- pushnode LOWDOWN_FOOTNOTE_REF ;;
            modify (fun doc =>
              let num := S (footnotesz doc) in
              set_footnotes
                (update_nth k (fun fr =>
                   {| is_used := true; fr_num := num;
                      fr_name := fr_name fr; contents := contents fr |})
                   (footnotes doc))
                (set_footnotesz num doc)) ;;
            doc <- get ;;
            set_payload (fun _ => rndr_footnote_ref (footnotesz doc)) ;;
            popnode n ;;
            ret i
          else
            n <- pushnode LOWDOWN_NORMAL_TEXT ;;
            set_payload (fun _ => rndr_normal_text (pushbuffer data (txt_e + 1))) ;;
            popnode n ;;
            ret i
        | None =>
          n <- pushnode LOWDOWN_NORMAL_TEXT ;;
          set_payload (fun _ => rndr_normal_text (pushbuffer data (txt_e + 1))) ;;
          popnode n ;;
          ret i
        end
    else if is_metadata then
      if txt_e <? 3 then ret 0
      else
        let idb := slice data 2 (txt_e - 2) in
        match find (fun m => bytes_eqb (hb_key m) idb) (metaq doc) with
        | Some m =>
          match hb_val m with
          | Some v =>
            n <- pushnode LOWDOWN_NORMAL_TEXT ;;
            set_payload (fun _ => rndr_normal_text v) ;;
            popnode n ;;
            ret i
          | None => ret i
          end
        | None => ret i
        end
    else
      let i := scan (fun k => xisspace data.[k]) i size in
      match (if (i <? size) && ceq data.[i] ch_lparen
             then link_inline data size i
             else link_reference doc data size i txt_e) with
      | None => ret 0
      | Some (i, link, title, dims) =>
        n <- pushnode (if is_img then LOWDOWN_IMAGE else LOWDOWN_LINK) ;;
        (if (1 <? txt_e) && negb is_img then
           modify (set_in_link_body true) ;;
           parse_inline (shift data 1) (txt_e - 1) ;;
           modify (set_in_link_body false)
         else ret tt) ;;
        let content := if (1 <? txt_e) && is_img
                       then slice data 1 (txt_e - 1) else [] in
        let u_link := buf_or_empty (option_map unscape_text link) in
        set_payload (fun _ =>
          if is_img
          then rndr_image u_link (buf_or_empty title) (buf_or_empty dims)
                          content [] []
          else rndr_link u_link (buf_or_empty title)) ;;
        popnode n ;;
        ret i
      end.

(** [char_image(doc, data, offset, size)]. *)
Definition char_image (data : ptr) (offset size : nat) : M nat :=
  if (size <? 2) || negb (ceq data.[1] ch_lbrack) then ret 0
  else
    r <- char_link (shift data 1) (offset + 1) (size - 1) ;;
    if r =? 0 then ret 0 else ret (r + 1).

(** *** The inline loop *)

(** The search of [parse_image_attrs] for the closing brace. *)
Definition attrs_end (data : ptr) (size : nat) : nat :=
  fst (iter (fun k stack =>
               if ceq data.[k] ch_lbrace then Some (S stack)
               else if ceq data.[k] ch_rbrace
               then (if stack - 1 =? 0 then None else Some (stack - 1))
               else Some stack) 1 size 1).

(** The loop of [parse_image_attrs] over the key-value pairs up to
    [end_]: the image payload it leaves, and whether it ended in
    [return 0]. *)
Fixpoint attrs_loop (n : nat) (data : ptr) (end_ offs : nat) (img : rndr)
  : rndr * bool :=
  match n with
  | 0 => (img, true)
  | S n' =>
    if offs <? end_ then
      let offs := scan (fun k => xisspace data.[k]) offs end_ in
      if offs =? end_ then (img, true)
      else
        let i := offs in
        let offs := scan (fun k => negb (ceq data.[k] ch_eq)) offs end_ in
        if offs =? end_ then (img, false)
        else
          let is_width := (offs - i =? 5)
                          && caseeq (mem data) (base data + i) (str "width") 0 5 in
          let is_height := (offs - i =? 6)
                           && caseeq (mem data) (base data + i) (str "height") 0 6 in
          let i := S offs in
          let offs := scan (fun k => negb (xisspace data.[k])) (S offs) end_ in
          let v := pushbuffer (shift data i) (offs - i) in
          let img :=
            match img with
            | rndr_image l t d a w h =>
              if is_width && (i <? offs) then rndr_image l t d a v h
              else if negb is_width && is_height && (i <? offs)
              then rndr_image l t d a w v
              else img
            | _ => img
            end in
          attrs_loop n' data end_ offs img
    else (img, true)
  end.

(** [parse_image_attrs(img, data, size)]. *)
Definition parse_image_attrs (img : rndr) (data : ptr) (size : nat)
  : rndr * nat :=
  let end_ := attrs_end data size in
  if end_ =? size then (img, 0)
  else
    let '(img, ok) := attrs_loop end_ data end_ 1 img in
    (img, if ok then end_ + 1 else 0).

(** [markdown_char_ptrs[...]]: the entries of [MD_CHAR_NONE] and
    [MD_CHAR_QUOTE] are null pointers. *)
Definition markdown_char_ptrs (t : markdown_char_t)
  : ptr -> nat -> nat -> M nat :=
  match t with
  | MD_CHAR_NONE => fun _ _ _ => assert false ;; ret 0
  | MD_CHAR_EMPHASIS => char_emphasis
  | MD_CHAR_CODESPAN => char_codespan
  | MD_CHAR_LINEBREAK => char_linebreak
  | MD_CHAR_LINK => char_link
  | MD_CHAR_IMAGE => char_image
  | MD_CHAR_LANGLE => char_langle_tag
  | MD_CHAR_ESCAPE => char_escape
  | MD_CHAR_ENTITY => char_entity
  | MD_CHAR_AUTOLINK_URL => char_autolink_url
  | MD_CHAR_AUTOLINK_EMAIL => char_autolink_email
  | MD_CHAR_AUTOLINK_WWW => char_autolink_www
  | MD_CHAR_SUPERSCRIPT => char_superscript
  | MD_CHAR_QUOTE => fun _ _ _ => assert false ;; ret 0
  | MD_CHAR_MATH => char_math
  end.

Definition is_active (t : markdown_char_t) : bool :=
  match t with
  | MD_CHAR_NONE => false
  | _ => true
  end.

(** The image attributes that may follow an inline element: the check
    and call at the end of the loop body of [parse_inline].  The result
    is the value [end] gets, or [None] when the check fails. *)
Definition inline_image_attrs (data : ptr) (size i : nat) : M (option nat) :=
  n <- last_child ;;
  doc <- get ;;
  match n with
  | Some (Node hd cs) =>
    if has_feat doc LOWDOWN_IMG_EXT && (i <? size) && ceq data.[i] ch_lbrace
       && lowdown_rndrt_beq (type hd) LOWDOWN_IMAGE
    then
      let '(img, r) := parse_image_attrs (payload hd) (shift data i) (size - i) in
      set_last_payload img ;;
      ret (Some r)
    else ret None
  | None => ret None
  end.

(** The loop of [parse_inline(doc, data, size)]. *)
Fixpoint parse_inline_loop (gas : nat) (data : ptr) (size i end_ consumed : nat)
  : M unit :=
  match gas with
  | 0 => out_of_fuel
  | S gas' =>
    if i <? size then
      doc <- get ;;
      let end_ := scan (fun k => negb (is_active (active_char doc data.[k])))
                       end_ size in
      (if i <? end_ then
         n <- pushnode LOWDOWN_NORMAL_TEXT ;;
         set_payload (fun _ =>
           rndr_normal_text (pushbuffer (shift data i) (end_ - i))) ;;
         popnode n
       else ret tt) ;;
      if size <=? end_ then ret tt
      else
        let i := end_ in
        r <- markdown_char_ptrs (active_char doc data.[end_])
               (shift data i) (i - consumed) (size - i) ;;
        if r =? 0 then parse_inline_loop gas' data size i (i + 1) consumed
        else
          let i := i + r in
          a <- inline_image_attrs data size i ;;
          match a with
          | None => parse_inline_loop gas' data size i i i
          | Some 0 => parse_inline_loop gas' data size i (i + 1) i
          | Some r => parse_inline_loop gas' data size (i + r) (i + r) (i + r)
          end
    else ret tt
  end.

End Inline.

(** [parse_inline(doc, data, size)].  One unit of fuel is spent on each
    level of nesting; the loops at a level run on what is left. *)
Fixpoint parse_inline (fuel : nat) (data : ptr) (size : nat) : M unit :=
  match fuel with
  | 0 => out_of_fuel
  | S fuel' => parse_inline_loop (parse_inline fuel') fuel' fuel' data size 0 0 0
  end.

(** ** The block parsers *)

(** The memory after the bytes [w] have been moved to offset [p]. *)
Definition overwrite (m : bytes) (p : nat) (w : bytes) : bytes :=
  firstn p m ++ w ++ skipn (p + length w) m.

Definition fl_or (a b : hlist_fl) : hlist_fl :=
  {| fl_ordered := fl_ordered a || fl_ordered b;
     fl_block := fl_block a || fl_block b;
     fl_unordered := fl_unordered a || fl_unordered b;
     fl_def := fl_def a || fl_def b;
     fl_li_end := fl_li_end a || fl_li_end b |}.

Definition fl_none : hlist_fl :=
  {| fl_ordered := false; fl_block := false; fl_unordered := false;
     fl_def := false; fl_li_end := false |}.

Definition HLIST_FL_ORDERED : hlist_fl :=
  {| fl_ordered := true; fl_block := false; fl_unordered := false;
     fl_def := false; fl_li_end := false |}.

Definition HLIST_FL_BLOCK : hlist_fl :=
  {| fl_ordered := false; fl_block := true; fl_unordered := false;
     fl_def := false; fl_li_end := false |}.

Definition HLIST_FL_UNORDERED : hlist_fl :=
  {| fl_ordered := false; fl_block := false; fl_unordered := true;
     fl_def := false; fl_li_end := false |}.

Definition HLIST_FL_DEF : hlist_fl :=
  {| fl_ordered := false; fl_block := false; fl_unordered := false;
     fl_def := true; fl_li_end := false |}.

Definition HLIST_LI_END : hlist_fl :=
  {| fl_ordered := false; fl_block := false; fl_unordered := false;
     fl_def := false; fl_li_end := true |}.

Section Block.

(** The recursive call to [parse_block], and the fuel for the loops of
    the block parsers and for the inline parser. *)
Variable parse_block : ptr -> nat -> M unit.
Variable fuel : nat.

(** The loop of [parse_blockquote]: the final [end], where the work
    area starts ([work_data], as an offset from [data]) and what the
    [memmove]s have gathered there. *)
Fixpoint blockquote_loop (n : nat) (data : ptr) (size beg end_ : nat)
  (work_data : option nat) (work : bytes) : nat * option nat * bytes :=
  match n with
  | 0 => (end_, work_data, work)
  | S n' =>
    if beg <? size then
      let end_ := line_end data size beg in
      let pre := prefix_quote (shift data beg) (end_ - beg) in
      if (pre =? 0)
         && negb (is_empty (shift data beg) (end_ - beg) =? 0)
         && ((size <=? end_)
             || ((prefix_quote (shift data end_) (size - end_) =? 0)
                 && (is_empty (shift data end_) (size - end_) =? 0)))
      then (end_, work_data, work)
      else
        let beg := beg + pre in
        let '(work_data, work) :=
          if beg <? end_
          then (match work_data with
                | None => Some beg
                | Some b => Some b
                end, work ++ slice data beg (end_ - beg))
          else (work_data, work) in
        blockquote_loop n' data size end_ end_ work_data work
    else (end_, work_data, work)
  end.

(** [parse_blockquote(doc, data, size)].  The [memmove]s pack the
    quoted lines at [work_data]; they write only below the offset the
    caller resumes at, so the caller's view of the memory is kept. *)
Definition parse_blockquote (data : ptr) (size : nat) : M nat :=
  let '(end_, work_data, work) := blockquote_loop size data size 0 0 None [] in
  n <- pushnode LOWDOWN_BLOCKQUOTE ;;
  match work_data with
  | Some b =>
    parse_block {| mem := overwrite (mem data) (base data + b) work;
                   base := base data + b |} (length work)
  | None => parse_block (ptr_of []) 0
  end ;;
  popnode n ;;
  ret end_.

(** The loop of [parse_paragraph]: the final [i], [end], [lines],
    [level] and [beoln]. *)
Fixpoint paragraph_loop (n : nat) (doc : lowdown_doc) (data : ptr)
  (size i end_ lines : nat) : nat * nat * nat * nat * bool :=
  match n with
  | 0 => (i, end_, lines, 0, false)
  | S n' =>
    if i <? size then
      let end_ := line_end data size i in
      if negb (is_empty (shift data i) (size - i) =? 0)
      then (i, end_, lines, 0, true)
      else
        let level := is_headerline (shift data i) (size - i) in
        if negb (level =? 0) then (i, end_, lines, level, false)
        else if is_atxheader doc (shift data i) (size - i)
                || is_hrule (shift data i) (size - i)
                || ((lines =? 1)
                    && negb (prefix_dli doc (shift data i) (size - i) =? 0))
                || negb (prefix_quote (shift data i) (size - i) =? 0)
        then (i, i, lines, 0, false)
        else paragraph_loop n' doc data size end_ end_ (S lines)
    else (i, end_, lines, 0, false)
  end.

(** [parse_paragraph(doc, data, size)]. *)
Definition parse_paragraph (data : ptr) (size : nat) : M nat :=
  doc <- get ;;
  let '(i, end_, lines, level, beoln) :=
    paragraph_loop size doc data size 0 0 0 in
  let wsize := scan_back (fun k => ceq data.[k - 1] ch_nl) i 0 in
  if level =? 0 then
    n <- pushnode LOWDOWN_PARAGRAPH ;;
    set_payload (fun _ => rndr_paragraph lines beoln) ;;
    parse_inline fuel data wsize ;;
    popnode n ;;
    modify (fun doc => set_cur_par (S (cur_par doc)) doc) ;;
    ret end_
  else
    wd <- (if 0 <? wsize then
             let i := wsize in
             let ws := scan_back (fun k => negb (ceq data.[k] ch_nl))
                                 (wsize - 1) 0 in
             let beg := ws + 1 in
             let ws := scan_back (fun k => ceq data.[k - 1] ch_nl) ws 0 in
             if 0 <? ws then
               n <- pushnode LOWDOWN_PARAGRAPH ;;
               set_payload (fun _ => rndr_paragraph (lines - 1) beoln) ;;
               parse_inline fuel data ws ;;
               popnode n ;;
               modify (fun doc => set_cur_par (S (cur_par doc)) doc) ;;
               ret (shift data beg, i - beg)
             else ret (data, i)
           else ret (data, wsize)) ;;
    n <- pushnode LOWDOWN_HEADER ;;
    set_payload (fun _ => rndr_header (level - 1)) ;;
    parse_inline fuel (fst wd) (snd wd) ;;
    popnode n ;;
    ret end_.

(** The test of [parse_fencedcode] on the line from [line_start] to
    [i]: it closes the fence that [w], [width] and [chr] describe. *)
Definition closing_fence (data : ptr) (line_start i w width : nat)
  (chr : ascii) : bool :=
  let '(w2, width2, chr2) :=
    is_codefence (shift data line_start) (i - line_start) in
  (w =? w2) && (width =? width2) && ceq chr chr2
  && negb (is_empty (shift data (line_start + w))
                    (i - (line_start + w)) =? 0).

(** The search of [parse_fencedcode] for the closing fence, from the
    line that starts at [i]: the final [line_start] and [i]. *)
Fixpoint fencedcode_loop (n : nat) (data : ptr) (size w width : nat)
  (chr : ascii) (i : nat) : nat * nat :=
  let line_start := i in
  if line_start <? size then
    let i := scan (fun k => negb (ceq data.[k] ch_nl)) i size in
    if closing_fence data line_start i w width chr
    then (line_start, i)
    else
      match n with
      | 0 => (line_start, i)
      | S n' => fencedcode_loop n' data size w width chr (S i)
      end
  else (line_start, i).

(** [parse_fencedcode(doc, data, size)]. *)
Definition parse_fencedcode (data : ptr) (size : nat) : M nat :=
  let i := scan (fun k => negb (ceq data.[k] ch_nl)) 0 size in
  let '(w, lang, width, chr) := parse_codefence data i in
  if w =? 0 then ret 0
  else
    let i := S i in
    let text_start := i in
    let '(line_start, i) := fencedcode_loop size data size w width chr i in
    n <- pushnode LOWDOWN_BLOCKCODE ;;
    set_payload (fun _ =>
      rndr_blockcode (pushbuffer (shift data text_start)
                                 (line_start - text_start)) lang) ;;
    popnode n ;;
    ret i.

(** The loop of [parse_blockcode]: the final [beg] and work buffer. *)
Fixpoint blockcode_loop (n : nat) (data : ptr) (size beg : nat) (work : bytes)
  : nat * bytes :=
  match n with
  | 0 => (beg, work)
  | S n' =>
    if beg <? size then
      let end_ := line_end data size beg in
      let pre := prefix_code (shift data beg) (end_ - beg) in
      if (pre =? 0) && (is_empty (shift data beg) (end_ - beg) =? 0)
      then (beg, work)
      else
        let beg := beg + pre in
        let work :=
          if beg <? end_ then
            if negb (is_empty (shift data beg) (end_ - beg) =? 0)
            then work ++ [ch_nl]
            else work ++ slice data beg (end_ - beg)
          else work in
        blockcode_loop n' data size end_ work
    else (beg, work)
  end.

(** [while (work->size && work->data[work->size - 1] == '\n')
       work->size -= 1;] *)
Definition trim_trailing_newlines (work : bytes) : bytes :=
  firstn (scan_back (fun k => ceq (rd work (k - 1)) ch_nl) (length work) 0) work.

(** [parse_blockcode(doc, data, size)]. *)
Definition parse_blockcode (data : ptr) (size : nat) : M nat :=
  let '(beg, work) := blockcode_loop size data size 0 [] in
  let work := trim_trailing_newlines work ++ [ch_nl] in
  n <- pushnode LOWDOWN_BLOCKCODE ;;
  set_payload (fun _ => rndr_blockcode work []) ;;
  popnode n ;;
  ret beg.

(** The state of the loop of [parse_listitem]. *)
Record listitem_st : Type := {
  li_beg : nat;
  li_in_empty : bool;
  li_has_inside_empty : bool;
  li_in_fence : bool;
  li_dli_lines : nat;
  li_sublist : nat;
  li_work : bytes;
  li_flags : hlist_fl
}.

(** [ff == HLIST_FL_ORDERED || ff == HLIST_FL_UNORDERED ||
     ff == HLIST_FL_DEF], for [ff = *flags & HLIST_FL_MASK]. *)
Definition one_list_type (f : hlist_fl) : bool :=
  match fl_ordered f, fl_unordered f, fl_def f with
  | true, false, false => true
  | false, true, false => true
  | false, false, true => true
  | _, _, _ => false
  end.

(** The loop of [parse_listitem] over the lines after the first;
    [None] is the failed assertion on the list type. *)
Fixpoint listitem_loop (n : nat) (doc : lowdown_doc) (data : ptr)
  (size orgpre : nat) (st : listitem_st) : option listitem_st :=
  match n with
  | 0 => Some st
  | S n' =>
    let beg := li_beg st in
    if beg <? size then
      let end_ := line_end data size beg in
      if negb (is_empty (shift data beg) (end_ - beg) =? 0) then
        listitem_loop n' doc data size orgpre
          {| li_beg := end_; li_in_empty := true;
             li_has_inside_empty := li_has_inside_empty st;
             li_in_fence := li_in_fence st; li_dli_lines := 0;
             li_sublist := li_sublist st; li_work := li_work st;
             li_flags := li_flags st |}
      else
        let dli_lines := S (li_dli_lines st) in
        let i := countspaces data beg end_ 4 - beg in
        let pre := i in
        let line := shift data (beg + i) in
        let lsize := end_ - beg - i in
        let in_fence :=
          if has_feat doc LOWDOWN_FENCED
             && negb (fst (fst (is_codefence line lsize)) =? 0)
          then negb (li_in_fence st) else li_in_fence st in
        let has_next_uli :=
          negb in_fence && negb (prefix_uli line lsize =? 0) in
        let has_next_dli :=
          negb in_fence && (dli_lines <=? 2)
          && negb (prefix_dli doc line lsize =? 0) in
        let has_next_oli :=
          negb in_fence && negb (fst (prefix_oli doc line lsize) =? 0) in
        let dli_lines :=
          if has_next_uli || has_next_dli || has_next_oli
          then 0 else dli_lines in
        let in_empty := li_in_empty st in
        let flags := li_flags st in
        let join (has_inside_empty : bool) (sublist : nat) :=
          let work := if in_empty then li_work st ++ [ch_nl] else li_work st in
          listitem_loop n' doc data size orgpre
            {| li_beg := end_; li_in_empty := false;
               li_has_inside_empty := has_inside_empty || in_empty;
               li_in_fence := in_fence; li_dli_lines := dli_lines;
               li_sublist := sublist;
               li_work := work ++ slice data (beg + i) lsize;
               li_flags := flags |} in
        let stop (has_inside_empty : bool) (flags : hlist_fl) :=
          Some {| li_beg := beg; li_in_empty := in_empty;
                  li_has_inside_empty := has_inside_empty;
                  li_in_fence := in_fence; li_dli_lines := dli_lines;
                  li_sublist := li_sublist st; li_work := li_work st;
                  li_flags := flags |} in
        if (has_next_uli && negb (is_hrule line lsize))
           || has_next_oli || has_next_dli
        then
          let has_inside_empty := li_has_inside_empty st || in_empty in
          if pre <=? orgpre then
            if negb (one_list_type flags) then None
            else if in_empty
                    && ((fl_ordered flags && (has_next_uli || has_next_dli))
                        || (fl_unordered flags && (has_next_oli || has_next_dli))
                        || (fl_def flags && (has_next_oli || has_next_uli)))
            then stop has_inside_empty (fl_or flags HLIST_LI_END)
            else stop has_inside_empty flags
          else
            join has_inside_empty
                 (if li_sublist st =? 0 then length (li_work st)
                  else li_sublist st)
        else if in_empty && (pre =? 0)
        then stop (li_has_inside_empty st) (fl_or flags HLIST_LI_END)
        else join (li_has_inside_empty st) (li_sublist st)
    else Some st
  end.

(** [parse_listitem(ob, doc, data, size, &flags, num)]: the result and
    the flags it leaves in [*flags]. *)
Definition parse_listitem (data : ptr) (size : nat) (flags : hlist_fl)
  (num : nat) : M (nat * hlist_fl) :=
  doc <- get ;;
  let orgpre := countspaces data 0 size 3 in
  let beg := prefix_uli data size in
  let beg := if beg =? 0 then fst (prefix_oli doc data size) else beg in
  let beg := if beg =? 0 then prefix_dli doc data size else beg in
  if beg =? 0 then ret (0, flags)
  else
    let end_ := scan (fun k => negb (ceq data.[k - 1] ch_nl)) beg size in
    match listitem_loop size doc data size orgpre
            {| li_beg := end_; li_in_empty := false;
               li_has_inside_empty := false; li_in_fence := false;
               li_dli_lines := 1; li_sublist := 0;
               li_work := slice data beg (end_ - beg);
               li_flags := flags |} with
    | None => assert false ;; ret (0, flags)
    | Some st =>
      let flags := if li_has_inside_empty st
                   then fl_or (li_flags st) HLIST_FL_BLOCK else li_flags st in
      let work := ptr_of (li_work st) in
      let wsize := length (li_work st) in
      let sublist := li_sublist st in
      n <- pushnode LOWDOWN_LISTITEM ;;
      set_payload (fun _ => rndr_listitem flags num) ;;
      (if fl_block flags then
         if negb (sublist =? 0) && (sublist <? wsize) then
           parse_block work sublist ;;
           parse_block (shift work sublist) (wsize - sublist)
         else parse_block work wsize
       else
         if negb (sublist =? 0) && (sublist <? wsize) then
           parse_inline fuel work sublist ;;
           parse_block (shift work sublist) (wsize - sublist)
         else parse_inline fuel work wsize) ;;
      popnode n ;;
      ret (li_beg st, flags)
    end.

(** The loop of [parse_list], and of [parse_definition] with each item
    wrapped in a DEFINITION_DATA node: the final [i] and flags. *)
Fixpoint list_loop (gas : nat) (wrap : bool) (data : ptr) (size i : nat)
  (flags : hlist_fl) (k : nat) : M (nat * hlist_fl) :=
  match gas with
  | 0 => out_of_fuel
  | S gas' =>
    if i <? size then
      nn <- (if wrap then pushnode LOWDOWN_DEFINITION_DATA else ret 0) ;;
      r <- parse_listitem (shift data i) (size - i) flags k ;;
      let '(j, flags) := r in
      let i := i + j in
      (if wrap then popnode nn else ret tt) ;;
      if (j =? 0) || fl_li_end flags then ret (i, flags)
      else list_loop gas' wrap data size i flags (S k)
    else ret (i, flags)
  end.

(** [strtonum] on a string of at most nine digits. *)
Definition strtonum (v : bytes) : nat :=
  fold_left (fun a c => 10 * a + (nat_of_ascii c - 48)) v 0.

(** [parse_list(doc, data, size, oli_data)]; [None] is a null
    [oli_data]. *)
Definition parse_list (data : ptr) (size : nat) (oli_data : option bytes)
  : M nat :=
  let flags := match oli_data with
               | Some _ => HLIST_FL_ORDERED
               | None => HLIST_FL_UNORDERED
               end in
  let start := match oli_data with Some v => v | None => [] end in
  let k := match start with [] => 1 | _ => strtonum start end in
  n <- pushnode LOWDOWN_LIST ;;
  set_payload (fun _ => rndr_list flags start) ;;
  r <- list_loop fuel false data size 0 flags k ;;
  let '(i, flags') := r in
  (if fl_block flags'
   then set_payload (fun _ => rndr_list (fl_or flags HLIST_FL_BLOCK) start)
   else ret tt) ;;
  popnode n ;;
  ret i.

(** The second branch of the start of [parse_definition]: a new
    DEFINITION node is pushed, and the title paragraph, until then the
    last of the children [before ++ [title]] of the parent, is moved
    into it. *)
Definition definition_fresh (before : list lowdown_node) (title : lowdown_node)
  (flags : hlist_fl) : M (nat * hlist_fl) :=
  n <- pushnode LOWDOWN_DEFINITION ;;
  set_payload (fun _ => rndr_definition flags) ;;
  doc <- get ;;
  match current doc with
  | Some {| c_hd := h; c_children := _; c_path := f :: path |} =>
    modify (set_current
              (Some {| c_hd := h; c_children := [title];
                       c_path := {| f_hd := f_hd f; f_left := before;
                                    f_right := f_right f |} :: path |})) ;;
    ret (n, flags)
  | _ => assert false ;; ret (n, flags)
  end.

(** The start of [parse_definition]: the cursor moves into the
    DEFINITION node, which is the previous sibling of the title
    paragraph when that is a DEFINITION and a new node otherwise, and
    the paragraph becomes its last child, retyped DEFINITION_TITLE.
    The result is the handle of the DEFINITION node and the flags. *)
Definition definition_open : M (nat * hlist_fl) :=
  doc <- get ;;
  match current doc with
  | None => assert false ;; ret (0, fl_none)
  | Some c =>
    match last_opt (c_children c) with
    | None => assert false ;; ret (0, fl_none)
    | Some (Node cur cur_children) =>
      assert (lowdown_rndrt_beq (type cur) LOWDOWN_PARAGRAPH) ;;
      assert (match payload cur with
              | rndr_paragraph 1 _ => true
              | _ => false
              end) ;;
      let flags := match payload cur with
                   | rndr_paragraph _ true => fl_or HLIST_FL_DEF HLIST_FL_BLOCK
                   | _ => HLIST_FL_DEF
                   end in
      let title := Node {| id := id cur; type := LOWDOWN_DEFINITION_TITLE;
                           payload := payload cur |} cur_children in
      let before := removelast (c_children c) in
      match last_opt before with
      | Some (Node prev prev_children) =>
        if lowdown_rndrt_beq (type prev) LOWDOWN_DEFINITION then
          let flags := match payload prev with
                       | rndr_definition f => fl_or flags f
                       | _ => flags
                       end in
          modify (fun doc =>
            set_current
              (Some {| c_hd := prev;
                       c_children := prev_children ++ [title];
                       c_path := {| f_hd := c_hd c;
                                    f_left := removelast before;
                                    f_right := [] |} :: c_path c |})
              (set_depth (S (depth doc)) doc)) ;;
          ret (id prev, flags)
        else definition_fresh before title flags
      | None => definition_fresh before title flags
      end
    end
  end.

(** [parse_definition(doc, data, size)]. *)
Definition parse_definition (data : ptr) (size : nat) : M nat :=
  o <- definition_open ;;
  let '(n, flags) := o in
  r <- list_loop fuel true data size 0 flags 1 ;;
  let '(i, flags) := r in
  (if fl_block flags
   then set_payload (fun p =>
          match p with
          | rndr_definition f => rndr_definition (fl_or f HLIST_FL_BLOCK)
          | _ => rndr_definition HLIST_FL_BLOCK
          end)
   else ret tt) ;;
  popnode n ;;
  ret i.

(** [parse_atxheader(doc, data, size)]. *)
Definition parse_atxheader (data : ptr) (size : nat) : M nat :=
  let level := scan (fun k => (k <? 6) && ceq data.[k] ch_hash) 0 size in
  let i := countspaces data level size 0 in
  let end_ := scan (fun k => negb (ceq data.[k] ch_nl)) i size in
  let skip := end_ in
  let end_ := scan_back (fun k => ceq data.[k - 1] ch_hash) end_ 0 in
  let end_ := scan_back (fun k => ceq data.[k - 1] ch_sp) end_ 0 in
  if i <? end_ then
    n <- pushnode LOWDOWN_HEADER ;;
    assert (0 <? level) ;;
    set_payload (fun _ => rndr_header (level - 1)) ;;
    parse_inline fuel (shift data i) (end_ - i) ;;
    popnode n ;;
    ret skip
  else ret skip.

(** [parse_footnote_def(doc, num, data, size)]. *)
Definition parse_footnote_def (num : nat) (data : ptr) (size : nat) : M unit :=
  n <- pushnode LOWDOWN_FOOTNOTE_DEF ;;
  set_payload (fun _ => rndr_footnote_def num) ;;
  parse_block data size ;;
  popnode n.

(** The [TAILQ_FOREACH] of [parse_footnote_list] for one value of [i],
    over the positions [js] of the queue: [n] is the handle of the
    FOOTNOTES_BLOCK node once it exists. *)
Fixpoint footnote_foreach (js : list nat) (i : nat) (n : option nat)
  : M (option nat) :=
  match js with
  | [] => ret n
  | j :: js' =>
    doc <- get ;;
    match nth_error (footnotes doc) j with
    | None => footnote_foreach js' i n
    | Some ref =>
      if negb (fr_num ref =? i) || negb (is_used ref)
      then footnote_foreach js' i n
      else
        n <- match n with
             | None => x <- pushnode LOWDOWN_FOOTNOTES_BLOCK ;; ret (Some x)
             | Some x => ret (Some x)
             end ;;
        parse_footnote_def (fr_num ref) (ptr_of (contents ref))
                           (length (contents ref)) ;;
        footnote_foreach js' i n
    end
  end.

(** [for (i = 0; i <= doc->footnotesz; i++)] of [parse_footnote_list]. *)
Fixpoint footnote_for (gas : nat) (i : nat) (n : option nat) : M (option nat) :=
  match gas with
  | 0 => out_of_fuel
  | S gas' =>
    doc <- get ;;
    if i <=? footnotesz doc then
      n <- footnote_foreach (seq 0 (length (footnotes doc))) i n ;;
      footnote_for gas' (S i) n
    else ret n
  end.

(** [parse_footnote_list(doc)]. *)
Definition parse_footnote_list : M unit :=
  doc <- get ;;
  match footnotes doc with
  | [] => ret tt
  | _ =>
    n <- footnote_for fuel 0 None ;;
    match n with
    | Some x => popnode x
    | None => ret tt
    end
  end.

(** *** HTML blocks *)

(** [strncasecmp(tag, str, len) == 0] for a NUL-terminated [tag]: the
    comparison ends early where both strings hold a NUL. *)
Fixpoint tag_caseeq (n : nat) (tag : bytes) (data : ptr) (k : nat) : bool :=
  match n with
  | 0 => true
  | S n' =>
    if ceq (tolower (rd tag k)) (tolower data.[k])
    then (if ceq (rd tag k) zero then true else tag_caseeq n' tag data (S k))
    else false
  end.

Definition block_tags : list bytes :=
  map str ["address"; "article"; "aside"; "blockquote"; "del"; "details";
           "dialog"; "dd"; "div"; "dl"; "dt"; "fieldset"; "figcaption";
           "figure"; "footer"; "form"; "h1"; "h2"; "h3"; "h4"; "h5"; "h6";
           "header"; "hgroup"; "iframe"; "ins"; "li"; "main"; "math"; "nav";
           "noscript"; "ol"; "p"; "pre"; "section"; "script"; "style";
           "table"; "ul"]%string.

(** [hhtml_find_block(str, len)]. *)
Definition hhtml_find_block (data : ptr) (len : nat) : option bytes :=
  find (fun tag => tag_caseeq len tag data 0) block_tags.

(** [htmlblock_is_end(tag, tag_len, doc, data, size)]. *)
Definition htmlblock_is_end (tag : bytes) (tag_len : nat) (data : ptr)
  (size : nat) : nat :=
  let i := tag_len + 3 in
  if (size <? i) || negb (ceq data.[1] ch_slash)
     || negb (tag_caseeq tag_len tag (shift data 2) 0)
     || negb (ceq data.[tag_len + 2] ch_gt)
  then 0
  else
    let w := is_empty (shift data i) (size - i) in
    if (w =? 0) && (i <? size) then 0 else i + w.

(** [htmlblock_find_end(tag, tag_len, doc, data, size)]. *)
Fixpoint htmlblock_find_end_loop (n : nat) (tag : bytes) (tag_len : nat)
  (data : ptr) (size i : nat) : nat :=
  let i := scan (fun k => negb (ceq data.[k] ch_lt)) i size in
  if size <=? i then 0
  else
    let w := htmlblock_is_end tag tag_len (shift data i) (size - i) in
    if negb (w =? 0) then i + w
    else
      match n with
      | 0 => 0
      | S n' => htmlblock_find_end_loop n' tag tag_len data size (S i)
      end.

Definition htmlblock_find_end (tag : bytes) (tag_len : nat) (data : ptr)
  (size : nat) : nat :=
  htmlblock_find_end_loop size tag tag_len data size 0.

(** [htmlblock_find_end_strict(tag, tag_len, doc, data, size)]. *)
Fixpoint htmlblock_find_end_strict_loop (n : nat) (tag : bytes)
  (tag_len : nat) (data : ptr) (size i : nat) : nat :=
  let mark := i in
  let i := scan (fun k => negb (ceq data.[k] ch_nl)) i size in
  let i := if i <? size then S i else i in
  if i =? mark then 0
  else
    let again (tt : unit) :=
      match n with
      | 0 => 0
      | S n' => htmlblock_find_end_strict_loop n' tag tag_len data size i
      end in
    if ceq data.[mark] ch_sp && (0 <? mark) then again tt
    else
      let mark := mark + htmlblock_find_end tag tag_len (shift data mark)
                                            (i - mark) in
      if (mark =? i)
         && (negb (is_empty (shift data i) (size - i) =? 0) || (size <=? i))
      then i
      else again tt.

Definition htmlblock_find_end_strict (tag : bytes) (tag_len : nat)
  (data : ptr) (size : nat) : nat :=
  htmlblock_find_end_strict_loop size tag tag_len data size 0.

(** [parse_htmlblock(doc, data, size)]. *)
Definition parse_htmlblock (data : ptr) (size : nat) : M nat :=
  let emit (len : nat) : M nat :=
    n <- pushnode LOWDOWN_BLOCKHTML ;;
    set_payload (fun _ => rndr_blockhtml (pushbuffer data len)) ;;
    popnode n ;;
    ret len in
  if (size <? 2) || negb (ceq data.[0] ch_lt) then ret 0
  else
    let i := scan (fun k => negb (ceq data.[k] ch_gt)
                            && negb (ceq data.[k] ch_sp)) 1 size in
    let curtag := if i <? size then hhtml_find_block (shift data 1) (i - 1)
                  else None in
    match curtag with
    | None =>
      let hr (tt : unit) : M nat :=
        if (4 <? size)
           && (ceq data.[1] "h"%char || ceq data.[1] "H"%char)
           && (ceq data.[2] "r"%char || ceq data.[2] "R"%char)
        then
          let i := scan (fun k => negb (ceq data.[k] ch_gt)) 3 size in
          if i + 1 <? size then
            let i := S i in
            let j := is_empty (shift data i) (size - i) in
            if negb (j =? 0) then emit (i + j) else ret 0
          else ret 0
        else ret 0 in
      if (5 <? size) && ceq data.[1] ch_bang && ceq data.[2] ch_minus
         && ceq data.[3] ch_minus
      then
        let i := S (comment_end data size) in
        let j := if i <? size then is_empty (shift data i) (size - i) else 0 in
        if negb (j =? 0) then emit (i + j) else hr tt
      else hr tt
    | Some tag =>
      let tag_len := length tag in
      let tag_end := htmlblock_find_end_strict tag tag_len data size in
      let tag_end :=
        if (tag_end =? 0) && negb (bytes_eqb tag (str "ins"))
           && negb (bytes_eqb tag (str "del"))
        then htmlblock_find_end tag tag_len data size
        else tag_end in
      if tag_end =? 0 then ret 0 else emit tag_end
    end.

(** *** Tables *)

Definition htbl_none : htbl_flags :=
  {| tfl_align_left := false; tfl_align_right := false; tfl_header := false |}.

Definition htbl_or (a b : htbl_flags) : htbl_flags :=
  {| tfl_align_left := tfl_align_left a || tfl_align_left b;
     tfl_align_right := tfl_align_right a || tfl_align_right b;
     tfl_header := tfl_header a || tfl_header b |}.

Definition HTBL_FL_HEADER : htbl_flags :=
  {| tfl_align_left := false; tfl_align_right := false; tfl_header := true |}.

(** The first loop of [parse_table_row], over the cells the row has. *)
Fixpoint table_row_cells (gas : nat) (data : ptr) (size columns : nat)
  (col_data : list htbl_flags) (header_flag : htbl_flags) (col i : nat)
  : M (nat * nat) :=
  match gas with
  | 0 => out_of_fuel
  | S gas' =>
    if (col <? columns) && (i <? size) then
      let i := scan (fun k => xisspace data.[k]) i size in
      let cell_start := i in
      let len := find_emph_char (shift data i) (size - i) ch_pipe in
      let len := if (len =? 0) && (i <? size) && negb (ceq data.[i] ch_pipe)
                 then size - i else len in
      let i := i + len in
      let cell_end := scan_back (fun k => xisspace data.[k]) (i - 1) cell_start in
      nn <- pushnode LOWDOWN_TABLE_CELL ;;
      set_payload (fun _ =>
        rndr_table_cell (htbl_or (nth col col_data htbl_none) header_flag)
                        col columns) ;;
      parse_inline fuel (shift data cell_start) (1 + cell_end - cell_start) ;;
      popnode nn ;;
      table_row_cells gas' data size columns col_data header_flag (S col) (S i)
    else ret (col, i)
  end.

(** The second loop of [parse_table_row]: the cells the row lacks. *)
Fixpoint table_row_fill (n : nat) (columns : nat) (col_data : list htbl_flags)
  (header_flag : htbl_flags) (col : nat) : M unit :=
  match n with
  | 0 => ret tt
  | S n' =>
    if col <? columns then
      nn <- pushnode LOWDOWN_TABLE_CELL ;;
      set_payload (fun _ =>
        rndr_table_cell (htbl_or (nth col col_data htbl_none) header_flag)
                        col columns) ;;
      popnode nn ;;
      table_row_fill n' columns col_data header_flag (S col)
    else ret tt
  end.

(** [parse_table_row(ob, doc, data, size, columns, col_data,
    header_flag)]. *)
Definition parse_table_row (data : ptr) (size columns : nat)
  (col_data : list htbl_flags) (header_flag : htbl_flags) : M unit :=
  let i := if (0 <? size) && ceq data.[0] ch_pipe then 1 else 0 in
  n <- pushnode LOWDOWN_TABLE_ROW ;;
  r <- table_row_cells fuel data size columns col_data header_flag 0 i ;;
  table_row_fill (columns - fst r) columns col_data header_flag (fst r) ;;
  popnode n.

(** The number of pipes of the line that starts at [i], and its end. *)
Definition count_pipes (data : ptr) (size i : nat) : nat * nat :=
  iter (fun k pipes =>
          if ceq data.[k] ch_nl then None
          else Some (if ceq data.[k] ch_pipe then S pipes else pipes))
       i size 0.

(** The loop of [parse_table_header] over the underline: the final
    [col], and the alignment flags of the columns passed. *)
Fixpoint table_under (n : nat) (data : ptr) (under_end columns col i : nat)
  (column_data : list htbl_flags) : nat * list htbl_flags :=
  match n with
  | 0 => (col, column_data)
  | S n' =>
    if (col <? columns) && (i <? under_end) then
      let i := countspaces data i under_end 0 in
      let left := ceq data.[i] ch_colon in
      let i := if left then S i else i in
      let dashes := if left then 1 else 0 in
      let i' := scan (fun k => ceq data.[k] ch_minus) i under_end in
      let dashes := dashes + (i' - i) in
      let i := i' in
      let right := (i <? under_end) && ceq data.[i] ch_colon in
      let i := if right then S i else i in
      let dashes := if right then S dashes else dashes in
      let column_data :=
        update_nth col (fun f =>
          {| tfl_align_left := tfl_align_left f || left;
             tfl_align_right := tfl_align_right f || right;
             tfl_header := tfl_header f |}) column_data in
      let i := countspaces data i under_end 0 in
      if (i <? under_end) && negb (ceq data.[i] ch_pipe)
         && negb (ceq data.[i] ch_plus)
      then (col, column_data)
      else if dashes <? 3 then (col, column_data)
      else table_under n' data under_end columns (S col) (S i) column_data
    else (col, column_data)
  end.

(** [parse_table_header(&n, ob, doc, data, size, &columns,
    &column_data)]: the result with the handle of the TABLE_BLOCK node,
    the number of columns and their flags. *)
Definition parse_table_header (data : ptr) (size : nat)
  : M (nat * nat * nat * list htbl_flags) :=
  let '(i, pipes) := count_pipes data size 0 in
  if (i =? size) || (pipes =? 0) then ret (0, 0, 0, [])
  else
    let header_end := scan_back (fun k => xisspace data.[k - 1]) i 0 in
    let lead := ceq data.[0] ch_pipe in
    let trail := (0 <? header_end) && ceq data.[header_end - 1] ch_pipe in
    let drop := (if lead then 1 else 0) + (if trail then 1 else 0) in
    if pipes <? drop then ret (0, 0, 0, [])
    else
      let columns := pipes - drop + 1 in
      let i := S i in
      let i := if (i <? size) && ceq data.[i] ch_pipe then S i else i in
      let under_end := scan (fun k => negb (ceq data.[k] ch_nl)) i size in
      let '(col, column_data) :=
        table_under columns data under_end columns 0 i
                    (repeat htbl_none columns) in
      if col <? columns then ret (0, 0, columns, column_data)
      else
        np <- pushnode LOWDOWN_TABLE_BLOCK ;;
        set_payload (fun _ => rndr_table columns) ;;
        n <- pushnode LOWDOWN_TABLE_HEADER ;;
        set_payload (fun _ => rndr_table_header column_data columns) ;;
        parse_table_row data header_end columns column_data HTBL_FL_HEADER ;;
        popnode n ;;
        ret (under_end + 1, np, columns, column_data).

(** The loop of [parse_table] over the rows of the body. *)
Fixpoint table_body (gas : nat) (data : ptr) (size columns : nat)
  (col_data : list htbl_flags) (i : nat) : M nat :=
  match gas with
  | 0 => out_of_fuel
  | S gas' =>
    if i <? size then
      let row_start := i in
      let '(i, pipes) := count_pipes data size i in
      if (pipes =? 0) || (i =? size) then ret row_start
      else
        parse_table_row (shift data row_start) (i - row_start) columns
                        col_data htbl_none ;;
        table_body gas' data size columns col_data (S i)
    else ret i
  end.

(** [parse_table(doc, data, size)]. *)
Definition parse_table (data : ptr) (size : nat) : M nat :=
  h <- parse_table_header data size ;;
  let '(i, n, columns, col_data) := h in
  if 0 <? i then
    nn <- pushnode LOWDOWN_TABLE_BODY ;;
    i <- table_body fuel data size columns col_data i ;;
    popnode nn ;;
    popnode n ;;
    ret i
  else ret i.

(** *** The block loop *)

(** The loop of [parse_block(doc, data, size)]. *)
Fixpoint parse_block_loop (gas : nat) (data : ptr) (size beg : nat) : M unit :=
  match gas with
  | 0 => out_of_fuel
  | S gas' =>
    if beg <? size then
      doc <- get ;;
      let txt_data := shift data beg in
      let end_ := size - beg in
      let continue (beg : nat) := parse_block_loop gas' data size beg in
      if is_atxheader doc txt_data end_ then
        r <- parse_atxheader txt_data end_ ;;
        continue (beg + r)
      else
        i <- (if ceq data.[beg] ch_lt then parse_htmlblock txt_data end_
              else ret 0) ;;
        if negb (i =? 0) then continue (beg + i)
        else if negb (is_empty txt_data end_ =? 0)
        then continue (beg + is_empty txt_data end_)
        else if is_hrule txt_data end_ then
          n <- pushnode LOWDOWN_HRULE ;;
          let beg := S (scan (fun k => negb (ceq data.[k] ch_nl)) beg size) in
          popnode n ;;
          continue beg
        else
          i <- (if has_feat doc LOWDOWN_FENCED
                then parse_fencedcode txt_data end_ else ret 0) ;;
          if negb (i =? 0) then continue (beg + i)
          else
            i <- (if has_feat doc LOWDOWN_TABLES
                  then parse_table txt_data end_ else ret 0) ;;
            if negb (i =? 0) then continue (beg + i)
            else if negb (prefix_quote txt_data end_ =? 0) then
              r <- parse_blockquote txt_data end_ ;;
              continue (beg + r)
            else if negb (has_feat doc LOWDOWN_NOCODEIND)
                    && negb (prefix_code txt_data end_ =? 0) then
              r <- parse_blockcode txt_data end_ ;;
              continue (beg + r)
            else if negb (prefix_uli txt_data end_ =? 0) then
              r <- parse_list txt_data end_ None ;;
              continue (beg + r)
            else
              doc <- get ;;
              let is_def :=
                match current doc with
                | None => false
                | Some c =>
                  negb (prefix_dli doc txt_data end_ =? 0)
                  && match last_opt (c_children c) with
                     | Some (Node hd _) =>
                       lowdown_rndrt_beq (type hd) LOWDOWN_PARAGRAPH
                       && match payload hd with
                          | rndr_paragraph 1 _ => true
                          | _ => false
                          end
                     | None => false
                     end
                end in
              if is_def then
                r <- parse_definition txt_data end_ ;;
                continue (beg + r)
              else if negb (fst (prefix_oli doc txt_data end_) =? 0) then
                r <- parse_list txt_data end_
                       (Some (snd (prefix_oli doc txt_data end_))) ;;
                continue (beg + r)
              else
                r <- parse_paragraph txt_data end_ ;;
                continue (beg + r)
    else ret tt
  end.

End Block.

(** [parse_block(doc, data, size)].  As in [parse_inline], one unit of
    fuel is spent on each level of nesting. *)
Fixpoint parse_block (fuel : nat) (data : ptr) (size : nat) : M unit :=
  match fuel with
  | 0 => out_of_fuel
  | S fuel' => parse_block_loop (parse_block fuel') fuel' fuel' data size 0
  end.

(** ** The first pass: footnote definitions and link references *)

Definition is_eol (c : ascii) : bool := ceq c ch_nl || ceq c ch_cr.

(** Past one line break at [i], [\r\n] counting as one. *)
Definition skip_eol (data : ptr) (end_ i : nat) : nat :=
  if (i <? end_) && is_eol data.[i] then
    let i := S i in
    if (i <? end_) && ceq data.[i] ch_nl && ceq data.[i - 1] ch_cr
    then S i else i
  else i.

(** The loop of [is_footnote] over the lines of the definition: the
    final [start] and contents. *)
Fixpoint footnote_lines (n : nat) (data : ptr) (end_ id_end i start : nat)
  (in_empty : bool) (contents : bytes) : nat * bytes :=
  match n with
  | 0 => (start, contents)
  | S n' =>
    if i <? end_ then
      let i := scan (fun k => negb (is_eol data.[k])) i end_ in
      if negb (is_empty (shift data start) (i - start) =? 0) then
        let i := skip_eol data end_ i in
        footnote_lines n' data end_ id_end i i true contents
      else
        let ind := countspaces data start end_ 4 - start in
        if (ind =? 0)
           && negb ((start =? id_end + 2) && ceq data.[start] ch_tab)
        then (start, contents)
        else
          let contents := if negb (ind =? 0) && in_empty
                          then contents ++ [ch_nl] else contents in
          let contents := contents ++ slice data (start + ind) (i - start - ind) in
          let contents := if i <? end_ then contents ++ [ch_nl] else contents in
          let i := skip_eol data end_ i in
          footnote_lines n' data end_ id_end i i false contents
    else (start, contents)
  end.

(** [is_footnote(doc, data, beg, end, &last)]: [Some last] when the
    line starts a footnote definition, which is then queued. *)
Definition is_footnote (data : ptr) (beg end_ : nat) : M (option nat) :=
  if end_ <=? beg + 3 then ret None
  else
    let i := countspaces data beg end_ 3 in
    if negb (ceq data.[i] ch_lbrack) then ret None
    else
      let i := S i in
      if (end_ <=? i) || negb (ceq data.[i] ch_caret) then ret None
      else
        let i := S i in
        let id_offset := i in
        let i := scan (fun k => negb (is_eol data.[k])
                                && negb (ceq data.[k] ch_rbrack)) i end_ in
        if (end_ <=? i) || negb (ceq data.[i] ch_rbrack) then ret None
        else
          let id_end := i in
          let i := S i in
          if (end_ <=? i) || negb (ceq data.[i] ch_colon) then ret None
          else
            let i := S i in
            let '(start, contents) :=
              footnote_lines (S (end_ - i)) data end_ id_end i i false [] in
            modify (fun doc =>
              set_footnotes
                (footnotes doc ++
                 [{| is_used := false; fr_num := 0;
                     fr_name := if 0 <? id_end - id_offset
                                then Some (slice data id_offset
                                                 (id_end - id_offset))
                                else None;
                     contents := contents |}]) doc) ;;
            ret (Some start).

(** [is_ref(doc, data, beg, end, &last)]: [Some last] when the line is
    a link reference, which is then queued. *)
Definition is_ref (data : ptr) (beg end_ : nat) : M (option nat) :=
  if end_ <=? beg + 3 then ret None
  else
    let i := countspaces data beg end_ 3 in
    if negb (ceq data.[i] ch_lbrack) then ret None
    else
      let i := S i in
      let id_offset := i in
      let i := scan (fun k => negb (is_eol data.[k])
                              && negb (ceq data.[k] ch_rbrack)) i end_ in
      if (end_ <=? i) || negb (ceq data.[i] ch_rbrack) then ret None
      else
        let id_end := i in
        let i := S i in
        if (end_ <=? i) || negb (ceq data.[i] ch_colon) then ret None
        else
          let i := S i in
          let i := countspaces data i end_ 0 in
          let i := if (i <? end_) && is_eol data.[i] then
                     let i := S i in
                     if (i <? end_) && ceq data.[i] ch_cr
                        && ceq data.[i - 1] ch_nl then S i else i
                   else i in
          let i := countspaces data i end_ 0 in
          if end_ <=? i then ret None
          else
            let i := if ceq data.[i] ch_lt then S i else i in
            let link_offset := i in
            let i := scan (fun k => negb (ceq data.[k] ch_sp)
                                    && negb (is_eol data.[k])) i end_ in
            let link_end := if ceq data.[i - 1] ch_gt then i - 1 else i in
            let i := countspaces data i end_ 0 in
            if (i <? end_) && negb (is_eol data.[i])
               && negb (is_quote data.[i]) && negb (ceq data.[i] ch_lparen)
            then ret None
            else
              let line_end := if (end_ <=? i) || is_eol data.[i] then i else 0 in
              let line_end := if (i + 1 <? end_) && ceq data.[i] ch_nl
                                 && ceq data.[i + 1] ch_cr
                              then i + 1 else line_end in
              let i := if negb (line_end =? 0)
                       then countspaces data (line_end + 1) end_ 0 else i in
              let '(title_offset, title_end, line_end) :=
                if (i + 1 <? end_)
                   && (is_quote data.[i] || ceq data.[i] ch_lparen)
                then
                  let i := S i in
                  let title_offset := i in
                  let i := scan (fun k => negb (is_eol data.[k])) i end_ in
                  let title_end :=
                    if (i + 1 <? end_) && ceq data.[i] ch_nl
                       && ceq data.[i + 1] ch_cr
                    then i + 1 else i in
                  let i := i - 1 in
                  let i := scan_back (fun k => ceq data.[k] ch_sp)
                                     i title_offset in
                  if (title_offset <? i)
                     && (is_quote data.[i] || ceq data.[i] ch_rparen)
                  then (title_offset, i, title_end)
                  else (title_offset, title_end, line_end)
                else (0, 0, line_end) in
              if (line_end =? 0) || (link_end =? link_offset) then ret None
              else
                modify (fun doc =>
                  set_refq
                    (refq doc ++
                     [{| lr_name := if 0 <? id_end - id_offset
                                    then Some (slice data id_offset
                                                     (id_end - id_offset))
                                    else None;
                         lr_link := slice data link_offset
                                          (link_end - link_offset);
                         lr_title := if title_offset <? title_end
                                     then Some (slice data title_offset
                                                  (title_end - title_offset))
                                     else None |}]) doc) ;;
                ret (Some line_end).

(** ** Metadata *)

(** The state of the second loop of [parse_metadata_val]. *)
Record metaval_st : Type := {
  mv_peek : nat;
  mv_nlines : nat;
  mv_len : nat;
  mv_startws : bool
}.

Definition starts_ws (data : ptr) (sz i : nat) : bool :=
  (i + 1 <? sz) && (ceq data.[i + 1] ch_sp || ceq data.[i + 1] ch_tab).

(** The second loop of [parse_metadata_val], over the following lines:
    the final [i] and state, or [None] for the failed assertion. *)
Fixpoint metaval_loop (n : nat) (data : ptr) (sz i : nat) (st : metaval_st)
  : option (nat * metaval_st) :=
  match n with
  | 0 => Some (i, st)
  | S n' =>
    if i <? sz then
      if negb (mv_startws st) && ceq data.[i] ch_colon then Some (i, st)
      else
        let peek := S (mv_peek st) in
        if negb (ceq data.[i] ch_nl) then
          metaval_loop n' data sz (S i)
            {| mv_peek := peek; mv_nlines := mv_nlines st;
               mv_len := mv_len st; mv_startws := mv_startws st |}
        else if (i + 1 <? sz) && ceq data.[i + 1] ch_nl then None
        else
          metaval_loop n' data sz (S i)
            {| mv_peek := 0; mv_nlines := S (mv_nlines st);
               mv_len := mv_len st + peek;
               mv_startws := starts_ws data sz i |}
    else Some (i, st)
  end.

(** [parse_metadata_val(data, sz, &len)]: the length written to
    [*len]; the pointer returned is [data] itself. *)
Definition parse_metadata_val (data : ptr) (sz : nat) : option nat :=
  let i := countspaces data 0 sz 0 in
  let sz := sz - i in
  let '(i, nspaces) :=
    iter (fun k nspaces =>
            if ceq data.[k] ch_nl then None
            else Some (if ceq data.[k] ch_sp then S nspaces else 0))
         0 sz 0 in
  match metaval_loop sz data sz (S i)
          {| mv_peek := 0; mv_nlines := 0; mv_len := i;
             mv_startws := starts_ws data sz i |} with
  | None => None
  | Some (i, st) =>
    let len := if (i =? sz) && negb (mv_peek st =? 0)
               then mv_len st + mv_peek st + 1 else mv_len st in
    Some (if mv_nlines st =? 0 then len - nspaces else len)
  end.

(** The normalised key of a metadata pair. *)
Definition normalise_key (key : bytes) : bytes :=
  flat_map (fun c =>
              if isalnum c || ceq c ch_minus || ceq c ch_under
              then [tolower c]
              else if isspace c then []
              else ["?"%char]) key.

(** The first entry of the queue with the given key, and the queue
    without it. *)
Fixpoint take_meta (key : bytes) (q : list lowdown_meta)
  : option lowdown_meta * list lowdown_meta :=
  match q with
  | [] => (None, [])
  | md :: q' =>
    if bytes_eqb key (meta_key md) then (Some md, q')
    else let '(r, q'') := take_meta key q' in (r, md :: q'')
  end.

(** [TAILQ_REMOVE] and [TAILQ_INSERT_HEAD] of the cursor node in the
    children of its parent. *)
Definition move_to_head : M unit :=
  doc <- get ;;
  match current doc with
  | Some {| c_hd := h; c_children := cs; c_path := f :: path |} =>
    modify (set_current
              (Some {| c_hd := h; c_children := cs;
                       c_path := {| f_hd := f_hd f; f_left := [];
                                    f_right := f_left f ++ f_right f |}
                                 :: path |}))
  | _ => assert false
  end.

(** The loop of [parse_metadata] over the pairs of the document. *)
Fixpoint metadata_pairs (gas : nat) (data : ptr) (sz pos : nat) : M unit :=
  match gas with
  | 0 => out_of_fuel
  | S gas' =>
    if pos <? sz then
      n <- pushnode LOWDOWN_META ;;
      let i := scan (fun k => negb (ceq data.[k] ch_colon)) pos sz in
      let keysz := i - pos in
      let key := normalise_key (slice data pos keysz) in
      set_payload (fun _ => rndr_meta key) ;;
      modify (fun doc =>
        set_opts_meta (snd (take_meta key (opts_meta doc))) doc) ;;
      (if bytes_eqb key (str "title") then move_to_head else ret tt) ;;
      let no_value :=
        modify (fun doc =>
          set_metaq (metaq doc ++ [{| hb_key := key; hb_val := None |}]) doc) ;;
        popnode n in
      if i =? sz then no_value
      else
        let i := scan (fun k => isspace data.[k]) (S i) sz in
        if i =? sz then no_value
        else
          match parse_metadata_val (shift data i) (sz - i) with
          | None => assert false
          | Some valsz =>
            nn <- pushnode LOWDOWN_NORMAL_TEXT ;;
            doc <- get ;;
            let '(ovr, rest) := take_meta key (opts_metaovr doc) in
            let v := match ovr with
                     | Some md => meta_value md
                     | None => pushbuffer (shift data i) valsz
                     end in
            set_payload (fun _ => rndr_normal_text v) ;;
            popnode nn ;;
            modify (fun doc =>
              set_opts_metaovr rest
                (set_metaq (metaq doc ++ [{| hb_key := key; hb_val := Some v |}])
                           doc)) ;;
            popnode n ;;
            metadata_pairs gas' data sz (i + valsz + 1)
          end
    else ret tt
  end.

(** The last loop of [parse_metadata]: a META node for each entry left
    in a queue of the options. *)
Fixpoint metadata_rest (q : list lowdown_meta) : M unit :=
  match q with
  | [] => ret tt
  | md :: q' =>
    n <- pushnode LOWDOWN_META ;;
    set_payload (fun _ => rndr_meta (meta_key md)) ;;
    nn <- pushnode LOWDOWN_NORMAL_TEXT ;;
    set_payload (fun _ => rndr_normal_text (meta_value md)) ;;
    popnode nn ;;
    popnode n ;;
    modify (fun doc =>
      set_metaq (metaq doc ++ [{| hb_key := meta_key md;
                                  hb_val := Some (meta_value md) |}]) doc) ;;
    metadata_rest q'
  end.

(** [parse_metadata(doc, data, sz)]. *)
Definition parse_metadata (fuel : nat) (data : ptr) (sz : nat) : M bool :=
  if (sz =? 0) || negb (ceq data.[sz - 1] ch_nl) then ret false
  else
    let pos := scan (fun k => negb (ceq data.[k] ch_nl)
                              && negb (ceq data.[k] ch_colon)) 0 sz in
    if (pos =? sz) || ceq data.[pos] ch_nl then ret false
    else
      metadata_pairs fuel data sz 0 ;;
      doc <- get ;;
      metadata_rest (opts_meta doc) ;;
      modify (set_opts_meta []) ;;
      doc <- get ;;
      metadata_rest (opts_metaovr doc) ;;
      modify (set_opts_metaovr []) ;;
      ret true.

(** ** The document driver *)

Definition UTF8_BOM : bytes := ["239"%char; "187"%char; "191"%char].

(** The line breaks at [end]: one [\n] is added for each. *)
Definition put_newlines (data : ptr) (size end_ : nat) (text : bytes)
  : nat * bytes :=
  iter (fun k text =>
          if is_eol data.[k] then
            Some (if ceq data.[k] ch_nl
                     || ((k + 1 <? size) && negb (ceq data.[k + 1] ch_nl))
                  then text ++ [ch_nl] else text)
          else None) end_ size text.

(** The first pass of [lowdown_doc_parse]: footnotes and references
    are queued and every other line is copied to [text]. *)
Fixpoint first_pass (gas : nat) (data : ptr) (size beg : nat) (text : bytes)
  : M bytes :=
  match gas with
  | 0 => out_of_fuel
  | S gas' =>
    if beg <? size then
      doc <- get ;;
      f <- (if has_feat doc LOWDOWN_FOOTNOTES
            then is_footnote data beg size else ret None) ;;
      match f with
      | Some end_ => first_pass gas' data size end_ text
      | None =>
        r <- is_ref data beg size ;;
        match r with
        | Some end_ => first_pass gas' data size end_ text
        | None =>
          let end_ := scan (fun k => negb (is_eol data.[k])) beg size in
          match (if beg <? end_
                 then expand_tabs text (skipn (base data + beg) (mem data))
                                  (end_ - beg)
                 else Some text) with
          | None => out_of_fuel
          | Some text =>
            let '(end_, text) := put_newlines data size end_ text in
            first_pass gas' data size end_ text
          end
        end
      end
    else ret text
  end.

(** [lowdown_doc_parse(doc, maxn, data, size)]: the root, and the
    count written to [*maxn]. *)
Definition lowdown_doc_parse (fuel : nat) (data : bytes) (size : nat)
  : M (option lowdown_node * nat) :=
  modify (fun doc =>
    set_in_link_body false (set_current None (set_depth 0 doc))) ;;
  root <- pushnode LOWDOWN_ROOT ;;
  modify (fun doc =>
    set_footnotesz 0 (set_footnotes [] (set_refq [] (set_metaq [] doc)))) ;;
  doc <- get ;;
  let data := ptr_of data in
  let beg := if (3 <=? size) && bytes_eqb (slice data 0 3) UTF8_BOM
             then 3 else 0 in
  n <- pushnode LOWDOWN_DOC_HEADER ;;
  beg <- (if has_feat doc LOWDOWN_METADATA && (beg <? size - 1)
             && isalnum data.[beg]
          then
            let end_ := scan (fun k => negb (ceq data.[k] ch_nl
                                             && ceq data.[k - 1] ch_nl))
                             (beg + 1) size in
            b <- parse_metadata fuel (shift data beg) (end_ - beg) ;;
            ret (if b : bool then end_ + 1 else beg)
          else ret beg) ;;
  text <- first_pass fuel data size beg [] ;;
  popnode n ;;
  (match text with
   | [] => ret tt
   | _ =>
     let text := if negb (is_eol (last text zero))
                 then text ++ [ch_nl] else text in
     parse_block fuel (ptr_of text) (length text)
   end) ;;
  (if has_feat doc LOWDOWN_FOOTNOTES
   then parse_footnote_list (parse_block fuel) fuel else ret tt) ;;
  n <- pushnode LOWDOWN_DOC_FOOTER ;;
  popnode n ;;
  modify (fun doc => set_footnotes [] (set_refq [] (set_metaq [] doc))) ;;
  doc <- get ;;
  let maxn := nodes doc in
  popnode root ;;
  doc <- get ;;
  assert (depth doc =? 0) ;;
  ret (detached doc, maxn).

End Parser.

(** ** Creating a document *)

(** [struct lowdown_opts], as far as the parser reads it. *)
Record lowdown_opts : Type := {
  feat : list lowdown_feat;
  opt_maxdepth : nat;
  meta : list lowdown_meta;
  metaovr : list lowdown_meta
}.

Definition set_active (c : ascii) (t : markdown_char_t)
  (tbl : ascii -> markdown_char_t) : ascii -> markdown_char_t :=
  fun x => if ceq x c then t else tbl x.

Definition set_active_if (b : bool) (c : ascii) (t : markdown_char_t)
  (tbl : ascii -> markdown_char_t) : ascii -> markdown_char_t :=
  if b then set_active c t tbl else tbl.

(** [lowdown_doc_new(opts)]; [None] is a null [opts]. *)
Definition lowdown_doc_new (opts : option lowdown_opts) : lowdown_doc :=
  let extensions := match opts with Some o => feat o | None => [] end in
  let on (f : lowdown_feat) := existsb (lowdown_feat_beq f) extensions in
  {| refq := [];
     footnotes := [];
     footnotesz := 0;
     active_char :=
       set_active_if (on LOWDOWN_MATH) ch_dollar MD_CHAR_MATH
       (set_active_if (on LOWDOWN_SUPER) ch_caret MD_CHAR_SUPERSCRIPT
       (set_active_if (on LOWDOWN_AUTOLINK) "w"%char MD_CHAR_AUTOLINK_WWW
       (set_active_if (on LOWDOWN_AUTOLINK) ch_at MD_CHAR_AUTOLINK_EMAIL
       (set_active_if (on LOWDOWN_AUTOLINK) ch_colon MD_CHAR_AUTOLINK_URL
       (set_active ch_amp MD_CHAR_ENTITY
       (set_active ch_bslash MD_CHAR_ESCAPE
       (set_active ch_lt MD_CHAR_LANGLE
       (set_active ch_bang MD_CHAR_IMAGE
       (set_active ch_lbrack MD_CHAR_LINK
       (set_active ch_nl MD_CHAR_LINEBREAK
       (set_active ch_btick MD_CHAR_CODESPAN
       (set_active_if (on LOWDOWN_HILITE) ch_eq MD_CHAR_EMPHASIS
       (set_active_if (on LOWDOWN_STRIKE) ch_tilde MD_CHAR_EMPHASIS
       (set_active ch_under MD_CHAR_EMPHASIS
       (set_active ch_star MD_CHAR_EMPHASIS
       (fun _ => MD_CHAR_NONE))))))))))))))));
     ext_flags := extensions;
     cur_par := 0;
     in_link_body := false;
     nodes := 0;
     current := None;
     metaq := [];
     depth := 0;
     maxdepth := match opts with Some o => opt_maxdepth o | None => 128 end;
     opts_meta := match opts with Some o => meta o | None => [] end;
     opts_metaovr := match opts with Some o => metaovr o | None => [] end;
     detached := None |}.

(** ** Vocabulary of the statements *)

(** [pushnode] passes its depth check. *)
Definition can_push (doc : lowdown_doc) : bool :=
  (depth doc <=? maxdepth doc) || (maxdepth doc =? 0).

(** The document after a childless node of type [t] and payload [p]
    has been pushed under the cursor and popped again. *)
Definition add_leaf (t : lowdown_rndrt) (p : rndr) (doc : lowdown_doc)
  : lowdown_doc :=
  match current doc with
  | Some c =>
    set_current
      (Some {| c_hd := c_hd c;
               c_children := c_children c
                             ++ [Node {| id := nodes doc; type := t;
                                         payload := p |} []];
               c_path := c_path c |})
      (set_nodes (S (nodes doc)) doc)
  | None => doc
  end.

(** The text buffer of a node that has one. *)
Definition text_of (r : rndr) : bytes :=
  match r with
  | rndr_normal_text t | rndr_codespan t | rndr_entity t | rndr_raw_html t
  | rndr_blockhtml t | rndr_math t _ | rndr_blockcode t _ => t
  | _ => []
  end.

Fixpoint drop_leading_spaces (b : bytes) : bytes :=
  match b with
  | [] => []
  | c :: r => if ceq c ch_sp then drop_leading_spaces r else b
  end.

(** All leading and all trailing spaces removed. *)
Definition strip_spaces (b : bytes) : bytes :=
  trim_trailing_spaces (drop_leading_spaces b).

(** One leading and one trailing space removed when present. *)
Definition strip_one_space (b : bytes) : bytes :=
  let b := match b with
           | c :: r => if ceq c ch_sp then r else b
           | [] => []
           end in
  match rev b with
  | c :: r => if ceq c ch_sp then rev r else b
  | [] => []
  end.

(** The number of backticks right before position [k] of [b]. *)
Fixpoint ticks_before (b : bytes) (k : nat) : nat :=
  match k with
  | 0 => 0
  | S k' => if ceq (rd b k') ch_btick then S (ticks_before b k') else 0
  end.

(** [b] holds no run of [n] backticks and does not end in one. *)
Definition no_tick_run (n : nat) (b : bytes) : Prop :=
  (forall k, k <= length b -> ticks_before b k < n)
  /\ ticks_before b (length b) = 0.

(** What [find_emph_char] may return: zero, or a position of the span
    that holds the character searched. *)
Definition found (data : ptr) (size : nat) (c : ascii) (r : nat) : Prop :=
  r = 0 \/ (r < size /\ data.[r] = c).


(** Modelled from the spec: a closing fence in the words of the
    specification, a line that is the character [c] repeated at least
    [n] times, after at most three spaces, followed by nothing but white
    space. *)
Fixpoint run_length (c : ascii) (l : bytes) : nat :=
  match l with
  | [] => 0
  | d :: r => if ceq d c then S (run_length c r) else 0
  end.

Definition closes_spec (n : nat) (c : ascii) (line : bytes) : bool :=
  let indent := run_length ch_sp line in
  let fence := skipn indent line in
  let k := run_length c fence in
  (indent <=? 3) && (n <=? k) && forallb xisspace (skipn k fence).

(** The shape of a line that [is_codefence] accepts: [s] spaces, no more
    than three, then [width] times the fence character, three times at
    least. *)
Definition fence_shape (data : ptr) (s width : nat) (chr : ascii) : Prop :=
  s <= 3 /\ 3 <= width
  /\ (chr = ch_tilde \/ chr = ch_btick)
  /\ (forall k, k < s -> data.[k] = ch_sp)
  /\ (forall k, k < width -> data.[s + k] = chr).

(** A line from [ls] to [le] that closes a fence of [s] spaces and
    [width] fence characters: the same spaces, the same characters as
    many times, and then spaces only. *)
Definition closing_line (data : ptr) (ls le s width : nat) (chr : ascii)
  : Prop :=
  ls + s + width <= le
  /\ (forall k, k < s -> data.[ls + k] = ch_sp)
  /\ (forall k, k < width -> data.[ls + s + k] = chr)
  /\ (forall k, ls + s + width <= k < le -> data.[k] = ch_sp).

(** The depth of the deepest node of a tree, its root at depth 0. *)
Fixpoint tree_depth (t : lowdown_node) : nat :=
  match t with
  | Node _ cs => fold_right (fun c d => Nat.max (S (tree_depth c)) d) 0 cs
  end.

(** What [unscape_text] computes, by recursion over the bytes: each
    backslash is dropped and the byte after it is kept as it is; a
    backslash that ends the text is dropped too. *)
Fixpoint unescaped (l : bytes) : bytes :=
  match l with
  | [] => []
  | c :: r =>
    if ceq c ch_bslash then
      match r with
      | [] => []
      | d :: r' => d :: unescaped r'
      end
    else c :: unescaped r
  end.

(** The name of a queued reference, which may be null, is the one
    looked up. *)
Definition named (o : option bytes) (name : bytes) : Prop :=
  o = Some name \/ (o = None /\ name = []).

(** What [replace_spacing] computes, by recursion over the bytes:
    a newline becomes a space, or nothing when the byte before it in
    the text is a space; [prev] tells whether it is. *)
Fixpoint respaced (prev : bool) (l : bytes) : bytes :=
  match l with
  | [] => []
  | c :: r =>
    if ceq c ch_nl
    then (if prev then [] else [ch_sp]) ++ respaced false r
    else c :: respaced (ceq c ch_sp) r
  end.


(** Detectors that match nothing.  They stand in for autolink.c in the
    concrete runs below, all of which have the autolink feature off, so
    that the handlers calling them are not in the jump table. *)
Definition halink_off : autolink :=
  {| halink_url := fun _ _ _ => (0, 0, []);
     halink_email := fun _ _ _ => (0, 0, []);
     halink_www := fun _ _ _ => (0, 0, []) |}.

(** A document whose cursor is a fresh ROOT node. *)
Definition doc_at_root (opts : option lowdown_opts) : lowdown_doc :=
  match pushnode LOWDOWN_ROOT (lowdown_doc_new opts) with
  | Ret _ doc => doc
  | _ => lowdown_doc_new opts
  end.

(* ================================================================== *)
(** * Part II: properties                                              *)
(* ================================================================== *)

(** ** Bytes, scans and loops *)

Lemma ceq_eq (c d : ascii) : ceq c d = true <-> c = d.
Proof. unfold ceq. apply Ascii.eqb_eq. Qed.

Lemma ceq_refl (c : ascii) : ceq c c = true.
Proof. apply ceq_eq. reflexivity. Qed.

Lemma ceq_neq (c d : ascii) : ceq c d = false <-> c <> d.
Proof. unfold ceq. apply Ascii.eqb_neq. Qed.

Lemma skipn_rd (l : bytes) (i : nat) :
  i < length l -> skipn i l = rd l i :: skipn (S i) l.
Proof.
  revert i. induction l as [|c l IH]; intros i H; simpl in H; [lia|].
  destruct i as [|i]; [reflexivity|].
  simpl. unfold rd in *. simpl. apply IH. lia.
Qed.

Lemma scan_from_le (p : nat -> bool) (n i : nat) : i <= scan_from n p i.
Proof.
  revert i. induction n as [|n IH]; intros i; simpl; [lia|].
  destruct (p i); [|lia]. specialize (IH (S i)). lia.
Qed.

Lemma scan_from_bound (p : nat -> bool) (n i : nat) : scan_from n p i <= i + n.
Proof.
  revert i. induction n as [|n IH]; intros i; simpl; [lia|].
  destruct (p i); [|lia]. specialize (IH (S i)). lia.
Qed.

Lemma scan_ge (p : nat -> bool) (i size : nat) : i <= scan p i size.
Proof. apply scan_from_le. Qed.

Lemma scan_le (p : nat -> bool) (i size : nat) :
  i <= size -> scan p i size <= size.
Proof. intros H. unfold scan. pose proof (scan_from_bound p (size - i) i). lia. Qed.

Lemma scan_from_all (p : nat -> bool) (n i : nat) :
  (forall k, i <= k < i + n -> p k = true) -> scan_from n p i = i + n.
Proof.
  revert i. induction n as [|n IH]; intros i H; simpl; [lia|].
  rewrite H by lia. rewrite IH; [lia|]. intros k Hk. apply H. lia.
Qed.

Lemma scan_from_stop (p : nat -> bool) (n i j : nat) :
  i <= j < i + n -> (forall k, i <= k < j -> p k = true) -> p j = false ->
  scan_from n p i = j.
Proof.
  revert i. induction n as [|n IH]; intros i Hj Hall Hstop; simpl; [lia|].
  destruct (Nat.eq_dec i j) as [->|Hne].
  - rewrite Hstop. reflexivity.
  - rewrite Hall by lia. apply IH; [lia| |assumption].
    intros k Hk. apply Hall. lia.
Qed.

Lemma scan_all (p : nat -> bool) (i size : nat) :
  i <= size -> (forall k, i <= k < size -> p k = true) -> scan p i size = size.
Proof.
  intros Hi H. unfold scan. rewrite scan_from_all; [lia|].
  intros k Hk. apply H. lia.
Qed.

Lemma scan_stop (p : nat -> bool) (i size j : nat) :
  i <= j < size -> (forall k, i <= k < j -> p k = true) -> p j = false ->
  scan p i size = j.
Proof. intros Hj Hall Hstop. unfold scan. apply scan_from_stop; [lia|assumption..]. Qed.


Lemma scan_past (p : nat -> bool) (i size : nat) :
  size <= i -> scan p i size = i.
Proof. intros H. unfold scan. replace (size - i) with 0 by lia. reflexivity. Qed.

(** ** Tab expansion (C9) *)











(** ** Leaves *)

Lemma pushnode_check (doc : lowdown_doc) :
  can_push doc = true ->
  (maxdepth doc <? depth doc) && negb (maxdepth doc =? 0) = false.
Proof.
  unfold can_push. intros H.
  destruct (Nat.ltb_spec (maxdepth doc) (depth doc));
    destruct (Nat.leb_spec (depth doc) (maxdepth doc));
    destruct (Nat.eqb_spec (maxdepth doc) 0); simpl in *; try reflexivity;
    try discriminate; lia.
Qed.

Lemma leaf_run {A : Type} (t : lowdown_rndrt) (p : rndr) (x : A)
  (doc : lowdown_doc) (c : cursor) :
  current doc = Some c -> can_push doc = true ->
  (n <- pushnode t ;; set_payload (fun _ => p) ;; popnode n ;; ret x) doc
  = Ret x (add_leaf t p doc).
Proof.
  intros Hc Hp. unfold bind, pushnode. rewrite (pushnode_check doc Hp).
  unfold add_leaf, set_payload, popnode, ret. rewrite Hc.
  destruct doc. simpl in *. subst. simpl.
  rewrite Nat.eqb_refl. simpl. rewrite Nat.sub_0_r. reflexivity.
Qed.

Lemma leaf_run_zero {A : Type} (t : lowdown_rndrt) (x : A)
  (doc : lowdown_doc) (c : cursor) :
  current doc = Some c -> can_push doc = true ->
  (n <- pushnode t ;; ret tt ;; popnode n ;; ret x) doc
  = Ret x (add_leaf t rndr_zero doc).
Proof.
  intros Hc Hp. unfold bind, pushnode. rewrite (pushnode_check doc Hp).
  unfold add_leaf, set_payload, popnode, ret. rewrite Hc.
  destruct doc. simpl in *. subst. simpl.
  rewrite Nat.eqb_refl. simpl. rewrite Nat.sub_0_r. reflexivity.
Qed.

(** ** Reading concatenated buffers *)

Lemma at_ptr_of (l : bytes) (i : nat) : (ptr_of l).[i] = rd l i.
Proof. reflexivity. Qed.

Lemma rd_app_l (a b : bytes) (i : nat) : i < length a -> rd (a ++ b) i = rd a i.
Proof. intros H. unfold rd. apply app_nth1. assumption. Qed.

Lemma rd_app_r (a b : bytes) (i : nat) :
  length a <= i -> rd (a ++ b) i = rd b (i - length a).
Proof. intros H. unfold rd. apply app_nth2. lia. Qed.

Lemma rd_repeat (c : ascii) (n i : nat) : i < n -> rd (repeat c n) i = c.
Proof.
  intros H. unfold rd. apply nth_repeat_lt. assumption.
Qed.

Lemma sub_app_mid (a b c : bytes) :
  sub (a ++ b ++ c) (length a) (length b) = b.
Proof.
  unfold sub. rewrite skipn_app. rewrite skipn_all. simpl.
  replace (length a - length a) with 0 by lia. simpl.
  rewrite firstn_app. rewrite firstn_all.
  replace (length b - length b) with 0 by lia. simpl. apply app_nil_r.
Qed.

Lemma scan_back_from_stop (p : nat -> bool) (n i j : nat) :
  i - n <= j <= i -> (forall k, j < k <= i -> p k = true) ->
  (j = i - n \/ p j = false) -> scan_back_from n p i = j.
Proof.
  revert i. induction n as [|n IH]; intros i Hj Hall Hstop; simpl.
  - lia.
  - destruct (Nat.eq_dec i j) as [->|Hne].
    + destruct Hstop as [Hs|Hs]; [|rewrite Hs; reflexivity].
      destruct j as [|j]; [|lia].
      destruct (p 0); [|reflexivity]. simpl.
      clear. induction n as [|n IH]; simpl; [reflexivity|].
      destruct (p 0); [assumption|reflexivity].
    + rewrite Hall by lia. apply IH; [lia| |].
      * intros k Hk. apply Hall. lia.
      * destruct Hstop as [Hs|Hs]; [left; lia|right; assumption].
Qed.

Lemma scan_back_stop (p : nat -> bool) (i lo j : nat) :
  lo <= j <= i -> (forall k, j < k <= i -> p k = true) ->
  (j = lo \/ p j = false) -> scan_back p i lo = j.
Proof.
  intros Hj Hall Hstop. unfold scan_back. apply scan_back_from_stop; [lia|assumption|].
  destruct Hstop as [Hs|Hs]; [left; lia|right; assumption].
Qed.

Lemma iter_from_run {St : Type} (step : nat -> St -> option St) (f : nat -> St)
  (m n i : nat) :
  m <= n -> (forall k, k < m -> step (i + k) (f k) = Some (f (S k))) ->
  iter_from n step i (f 0) = iter_from (n - m) step (i + m) (f m).
Proof.
  revert f n i. induction m as [|m IH]; intros f n i Hm Hstep.
  - rewrite Nat.sub_0_r, Nat.add_0_r. reflexivity.
  - destruct n as [|n]; [lia|]. simpl.
    specialize (Hstep 0 ltac:(lia)) as H0. rewrite Nat.add_0_r in H0.
    rewrite H0. rewrite (IH (fun k => f (S k)) n (S i)); [|lia|].
    + f_equal. lia.
    + intros k Hk. specialize (Hstep (S k) ltac:(lia)).
      rewrite <- Hstep. f_equal. lia.
Qed.

Lemma iter_from_none {St : Type} (step : nat -> St -> option St) (n i : nat)
  (s : St) :
  step i s = None -> iter_from n step i s = (i, s).
Proof. intros H. destruct n; simpl; [reflexivity|]. rewrite H. reflexivity. Qed.

(** ** Stripping spaces *)

Lemma trim_trailing_spaces_split (l : bytes) :
  exists b, l = trim_trailing_spaces l ++ repeat ch_sp b
            /\ (trim_trailing_spaces l = []
                \/ rd (trim_trailing_spaces l)
                      (length (trim_trailing_spaces l) - 1) <> ch_sp).
Proof.
  induction l as [|c l (b & Hl & Hlast)]; simpl.
  - exists 0. split; [reflexivity|left; reflexivity].
  - destruct (trim_trailing_spaces l) as [|d r] eqn:E.
    + destruct (ceq c ch_sp) eqn:Ec.
      * apply ceq_eq in Ec. subst c. exists (S b). simpl in *.
        split; [f_equal; assumption|left; reflexivity].
      * exists b. simpl in *. split; [f_equal; assumption|].
        right. simpl. apply ceq_neq. assumption.
    + exists b. split; [simpl; f_equal; assumption|].
      right. destruct Hlast as [Hlast|Hlast]; [discriminate|].
      simpl in *. rewrite Nat.sub_0_r in *.
      destruct (length r) eqn:Er; simpl in *; assumption.
Qed.

Lemma drop_leading_spaces_split (l : bytes) :
  exists a, l = repeat ch_sp a ++ drop_leading_spaces l
            /\ (drop_leading_spaces l = [] \/ rd (drop_leading_spaces l) 0 <> ch_sp).
Proof.
  induction l as [|c l (a & Hl & Hfirst)]; simpl.
  - exists 0. split; [reflexivity|left; reflexivity].
  - destruct (ceq c ch_sp) eqn:Ec.
    + apply ceq_eq in Ec. subst c. exists (S a). simpl.
      split; [f_equal; assumption|assumption].
    + exists 0. split; [reflexivity|]. right. apply ceq_neq. assumption.
Qed.

(** A buffer is spaces, then its stripped core, then spaces; a core
    that is not empty neither starts nor ends with a space. *)
Lemma strip_spaces_split (l : bytes) :
  exists a b,
    l = repeat ch_sp a ++ strip_spaces l ++ repeat ch_sp b
    /\ (strip_spaces l = []
        \/ (rd (strip_spaces l) 0 <> ch_sp
            /\ rd (strip_spaces l) (length (strip_spaces l) - 1) <> ch_sp)).
Proof.
  destruct (drop_leading_spaces_split l) as (a & Hl & Hfirst).
  destruct (trim_trailing_spaces_split (drop_leading_spaces l)) as (b & Hd & Hlast).
  exists a, b. unfold strip_spaces. split.
  - rewrite <- Hd. assumption.
  - destruct Hlast as [Hlast|Hlast]; [left; assumption|].
    right. split; [|assumption].
    destruct Hfirst as [Hfirst|Hfirst].
    + rewrite Hfirst in Hlast. simpl in Hlast. rewrite Hfirst. assumption.
    + destruct (trim_trailing_spaces (drop_leading_spaces l)) as [|d r] eqn:E.
      * simpl in *. congruence.
      * rewrite Hd in Hfirst. simpl in *. assumption.
Qed.

(** ** Codespans (C5) *)

Section Codespan.

Variable n : nat.
Variables content rest : bytes.

Let data : bytes := repeat ch_btick n ++ content ++ repeat ch_btick n ++ rest.

Hypothesis n_pos : 1 <= n.
Hypothesis content_nonempty : content <> [].
Hypothesis content_first : rd content 0 <> ch_btick.
Hypothesis content_run : no_tick_run n content.

Lemma codespan_size :
  length data = n + length content + n + length rest.
Proof. unfold data. rewrite !length_app, !repeat_length. lia. Qed.

Lemma codespan_rd_open (k : nat) : k < n -> rd data k = ch_btick.
Proof.
  intros H. unfold data. rewrite rd_app_l by (rewrite repeat_length; lia).
  apply rd_repeat. assumption.
Qed.

Lemma codespan_rd_content (k : nat) :
  k < length content -> rd data (n + k) = rd content k.
Proof.
  intros H. unfold data. rewrite rd_app_r by (rewrite repeat_length; lia).
  rewrite repeat_length. replace (n + k - n) with k by lia.
  apply rd_app_l. assumption.
Qed.

Lemma codespan_rd_close (k : nat) :
  k < n -> rd data (n + length content + k) = ch_btick.
Proof.
  intros H. unfold data. rewrite rd_app_r by (rewrite repeat_length; lia).
  rewrite repeat_length. rewrite rd_app_r by lia.
  rewrite rd_app_l by (rewrite repeat_length; lia).
  apply rd_repeat. lia.
Qed.

Lemma content_length_pos : 1 <= length content.
Proof. destruct content; [contradiction|simpl; lia]. Qed.

Lemma codespan_nb :
  scan (fun k => ceq (ptr_of data).[k] ch_btick) 0 (length data) = n.
Proof.
  pose proof content_length_pos. pose proof codespan_size.
  apply scan_stop; [lia| |].
  - intros k Hk. rewrite at_ptr_of, codespan_rd_open by lia. apply ceq_refl.
  - rewrite at_ptr_of. replace n with (n + 0) by lia.
    rewrite codespan_rd_content by lia. apply ceq_neq. assumption.
Qed.

Lemma codespan_end :
  iter (fun k i => if i <? n
                   then Some (if ceq (ptr_of data).[k] ch_btick then S i else 0)
                   else None) n (length data) 0
  = (n + length content + n, n).
Proof.
  pose proof content_length_pos. pose proof codespan_size as Hsz.
  destruct content_run as [Hrun Hlast].
  set (f := fun k => if k <=? length content then ticks_before content k
                     else k - length content).
  unfold iter. change 0 with (f 0) at 2.
  rewrite (iter_from_run _ f (length content + n)); [|lia|].
  - replace (f (length content + n)) with n.
    + rewrite iter_from_none; [f_equal; lia|]. rewrite Nat.ltb_irrefl. reflexivity.
    + unfold f. destruct (Nat.leb_spec (length content + n) (length content)); lia.
  - intros k Hk. unfold f.
    destruct (Nat.leb_spec k (length content)) as [Hle|Hgt].
    + destruct (Nat.eq_dec k (length content)) as [->|Hne].
      * rewrite Hlast. destruct (Nat.ltb_spec 0 n); [|lia].
        rewrite at_ptr_of. replace (n + length content) with (n + length content + 0) by lia.
        rewrite codespan_rd_close by lia. rewrite ceq_refl.
        destruct (Nat.leb_spec (S (length content)) (length content)); [lia|].
        f_equal. lia.
      * specialize (Hrun k Hle). destruct (Nat.ltb_spec (ticks_before content k) n); [|lia].
        rewrite at_ptr_of, codespan_rd_content by lia.
        destruct (Nat.leb_spec (S k) (length content)); [|lia]. reflexivity.
    + destruct (Nat.ltb_spec (k - length content) n); [|lia].
      rewrite at_ptr_of.
      replace (n + k) with (n + length content + (k - length content)) by lia.
      rewrite codespan_rd_close by lia. rewrite ceq_refl.
      destruct (Nat.leb_spec (S k) (length content)); [lia|]. f_equal. lia.
Qed.

(** C5, as the code has it: the text of the CODESPAN node is the
    bytes between the opening run of [n] backticks and the next [n]
    backticks in a row, with all the leading and all the trailing spaces
    removed, and the handler consumes both delimiters. *)
Theorem char_codespan_strips_all_spaces (offset : nat) (doc : lowdown_doc)
  (c : cursor) :
  current doc = Some c -> can_push doc = true ->
  exists p,
    char_codespan (ptr_of data) offset (length data) doc
    = Ret (n + length content + n) (add_leaf LOWDOWN_CODESPAN p doc)
    /\ text_of p = strip_spaces content.
Proof.
  intros Hc Hp. pose proof content_length_pos as Hlen. pose proof codespan_size as Hsz.
  unfold char_codespan. rewrite codespan_nb, codespan_end.
  rewrite Nat.ltb_irrefl. cbn [andb].
  replace (n + length content + n - n) with (n + length content) by lia.
  destruct (strip_spaces_split content) as (a & b & Hsplit & Hcore).
  assert (Hlens : length content = a + length (strip_spaces content) + b).
  { rewrite Hsplit at 1. rewrite !length_app, !repeat_length. lia. }
  assert (Hsp_l : forall k, k < a -> rd content k = ch_sp).
  { intros k Hk. rewrite Hsplit. rewrite rd_app_l by (rewrite repeat_length; lia).
    apply rd_repeat. assumption. }
  assert (Hsp_r : forall k, a + length (strip_spaces content) <= k < length content ->
                            rd content k = ch_sp).
  { intros k Hk. rewrite Hsplit. rewrite rd_app_r by (rewrite repeat_length; lia).
    rewrite repeat_length. rewrite rd_app_r by lia.
    apply rd_repeat. lia. }
  assert (Hcore_rd : forall k, k < length (strip_spaces content) ->
                               rd content (a + k) = rd (strip_spaces content) k).
  { intros k Hk. rewrite Hsplit at 1. rewrite rd_app_r by (rewrite repeat_length; lia).
    rewrite repeat_length. replace (a + k - a) with k by lia.
    apply rd_app_l. assumption. }
  destruct (strip_spaces content) as [|c0 core] eqn:Ecore.
  - (* nothing but spaces *)
    simpl in Hlens.
    assert (Hall : forall k, k < length content -> rd content k = ch_sp).
    { intros k Hk. destruct (Nat.lt_ge_cases k a) as [Hka|Hka].
      - apply Hsp_l. assumption.
      - apply Hsp_r. simpl. lia. }
    assert (Hb : countspaces (ptr_of data) n (n + length content + n) 0
                 = n + length content).
    { unfold countspaces. apply scan_stop; [lia| |].
      - intros k Hk. cbn [Nat.ltb Nat.leb andb negb]. rewrite at_ptr_of.
        replace k with (n + (k - n)) by lia. rewrite codespan_rd_content by lia.
        rewrite Hall by lia. apply ceq_refl.
      - cbn [Nat.ltb Nat.leb andb negb]. rewrite at_ptr_of.
        replace (n + length content) with (n + length content + 0) by lia.
        rewrite codespan_rd_close by lia. reflexivity. }
    assert (He : scan_back (fun k => ceq (ptr_of data).[k - 1] ch_sp)
                           (n + length content) n = n).
    { apply scan_back_stop; [lia| |left; reflexivity].
      intros k Hk. rewrite at_ptr_of.
      replace (k - 1) with (n + (k - 1 - n)) by lia.
      rewrite codespan_rd_content by lia.
      rewrite Hall by lia. apply ceq_refl. }
    rewrite Hb, He. destruct (Nat.ltb_spec (n + length content) n); [lia|].
    exists rndr_zero. split; [|reflexivity].
    apply (leaf_run_zero _ _ _ c); assumption.
  - (* a core that neither starts nor ends with a space *)
    destruct Hcore as [Hcore|[Hfirst Hlast]]; [discriminate|].
    set (core' := c0 :: core) in *.
    assert (Hcl : 1 <= length core') by (simpl; lia).
    assert (Hb : countspaces (ptr_of data) n (n + length content + n) 0 = n + a).
    { unfold countspaces. apply scan_stop; [lia| |].
      - intros k Hk. cbn [Nat.ltb Nat.leb andb negb]. rewrite at_ptr_of.
        replace k with (n + (k - n)) by lia. rewrite codespan_rd_content by lia.
        rewrite Hsp_l by lia. apply ceq_refl.
      - cbn [Nat.ltb Nat.leb andb negb]. rewrite at_ptr_of.
        rewrite codespan_rd_content by lia.
        replace a with (a + 0) by lia. rewrite Hcore_rd by lia.
        apply ceq_neq. assumption. }
    assert (He : scan_back (fun k => ceq (ptr_of data).[k - 1] ch_sp)
                           (n + length content) n = n + a + length core').
    { apply scan_back_stop; [lia| |right].
      - intros k Hk. rewrite at_ptr_of.
        replace (k - 1) with (n + (k - 1 - n)) by lia.
        rewrite codespan_rd_content by lia.
        rewrite Hsp_r by lia. apply ceq_refl.
      - rewrite at_ptr_of.
        replace (n + a + length core' - 1) with (n + (a + (length core' - 1))) by lia.
        rewrite codespan_rd_content by lia. rewrite Hcore_rd by lia.
        apply ceq_neq. assumption. }
    rewrite Hb, He. destruct (Nat.ltb_spec (n + a) (n + a + length core')); [|lia].
    eexists. split; [apply (leaf_run _ _ _ _ c); assumption|].
    cbn [text_of]. unfold pushbuffer, slice, shift, ptr_of. cbn [mem base].
    replace (0 + (n + a) + 0) with (length (repeat ch_btick n ++ repeat ch_sp a))
      by (rewrite length_app, !repeat_length; lia).
    replace (n + a + length core' - (n + a)) with (length core') by lia.
    unfold data. rewrite Hsplit. rewrite <- !app_assoc.
    rewrite (app_assoc (repeat ch_btick n) (repeat ch_sp a)).
    apply sub_app_mid.
Qed.

End Codespan.

Lemma char_codespan_strips_all_spaces_witness :
  exists p,
    char_codespan (ptr_of (str "`  a  `")) 0 7 (doc_at_root None)
    = Ret 7 (add_leaf LOWDOWN_CODESPAN p (doc_at_root None))
    /\ text_of p = str "a".
Proof.
  refine (char_codespan_strips_all_spaces 1 (str "  a  ") [] _ _ _ _ 0
            (doc_at_root None) _ eq_refl eq_refl).
  - lia.
  - discriminate.
  - discriminate.
  - split; [|reflexivity].
    intros k Hk. simpl in Hk.
    do 6 (destruct k as [|k]; [simpl; lia|]). lia.
Defined.

(** C5 as the specification words it fails on a codespan with two
    spaces on each side of its content: the node holds ["a"], not the
    content less one space on each side. *)
Lemma char_codespan_one_space_counterexample :
  exists p,
    char_codespan (ptr_of (str "`  a  `")) 0 7 (doc_at_root None)
    = Ret 7 (add_leaf LOWDOWN_CODESPAN p (doc_at_root None))
    /\ text_of p = str "a"
    /\ strip_one_space (str "  a  ") = str " a "
    /\ text_of p <> strip_one_space (str "  a  ").
Proof.
  exists (rndr_codespan (str "a")).
  split; [reflexivity|]. split; [reflexivity|]. split; [reflexivity|].
  discriminate.
Qed.

(** ** Running monadic code *)

Lemma bind_ret_eq {A B : Type} (m : M A) (k : A -> M B) (doc doc' : lowdown_doc)
  (a : A) :
  m doc = Ret a doc' -> bind m k doc = k a doc'.
Proof. intros H. unfold bind. rewrite H. reflexivity. Qed.

Lemma leaf_run_unit (t : lowdown_rndrt) (p : rndr) (doc : lowdown_doc)
  (c : cursor) :
  current doc = Some c -> can_push doc = true ->
  (n <- pushnode t ;; set_payload (fun _ => p) ;; popnode n) doc
  = Ret tt (add_leaf t p doc).
Proof.
  intros Hc Hp. unfold bind, pushnode. rewrite (pushnode_check doc Hp).
  unfold add_leaf, set_payload, popnode, ret. rewrite Hc.
  destruct doc. simpl in *. subst. simpl.
  rewrite Nat.eqb_refl. simpl. rewrite Nat.sub_0_r. reflexivity.
Qed.

Lemma add_leaf_current (t : lowdown_rndrt) (p : rndr) (doc : lowdown_doc)
  (c : cursor) :
  current doc = Some c ->
  current (add_leaf t p doc)
  = Some {| c_hd := c_hd c;
            c_children := c_children c
                          ++ [Node {| id := nodes doc; type := t; payload := p |} []];
            c_path := c_path c |}.
Proof. intros H. unfold add_leaf. rewrite H. reflexivity. Qed.

Lemma add_leaf_can_push (t : lowdown_rndrt) (p : rndr) (doc : lowdown_doc) :
  can_push (add_leaf t p doc) = can_push doc.
Proof. unfold add_leaf. destruct (current doc); reflexivity. Qed.



Lemma last_opt_snoc {A : Type} (l : list A) (x : A) : last_opt (l ++ [x]) = Some x.
Proof.
  unfold last_opt. rewrite map_app. simpl. apply last_last.
Qed.

Lemma parse_inline_loop_S (al : autolink) (rec : ptr -> nat -> M unit)
  (fuel gas : nat) (data : ptr) (size i end_ consumed : nat) :
  parse_inline_loop al rec fuel (S gas) data size i end_ consumed
  = if i <? size then
      doc <- get ;;
      let end_ := scan (fun k => negb (is_active (active_char doc data.[k])))
                       end_ size in
      (if i <? end_ then
         n <- pushnode LOWDOWN_NORMAL_TEXT ;;
         set_payload (fun _ =>
           rndr_normal_text (pushbuffer (shift data i) (end_ - i))) ;;
         popnode n
       else ret tt) ;;
      if size <=? end_ then ret tt
      else
        let i := end_ in
        r <- markdown_char_ptrs al rec fuel (active_char doc data.[end_])
               (shift data i) (i - consumed) (size - i) ;;
        if r =? 0 then parse_inline_loop al rec fuel gas data size i (i + 1) consumed
        else
          let i := i + r in
          a <- inline_image_attrs data size i ;;
          match a with
          | None => parse_inline_loop al rec fuel gas data size i i i
          | Some 0 => parse_inline_loop al rec fuel gas data size i (i + 1) i
          | Some r => parse_inline_loop al rec fuel gas data size (i + r) (i + r) (i + r)
          end
    else ret tt.
Proof. reflexivity. Qed.

(** The image attributes are not looked for at the end of the span. *)
Lemma inline_image_attrs_at_end (data : ptr) (size i : nat) (doc : lowdown_doc)
  (c : cursor) :
  current doc = Some c -> size <= i ->
  inline_image_attrs data size i doc = Ret None doc.
Proof.
  intros Hc Hi. unfold inline_image_attrs, bind, last_child, get. rewrite Hc.
  destruct (last_opt (c_children c)) as [[hd cs]|]; [|reflexivity].
  destruct (Nat.ltb_spec i size); [lia|].
  rewrite andb_false_r. reflexivity.
Qed.

Lemma slice_one (data : ptr) (k : nat) :
  base data + k < length (mem data) -> slice data k 1 = [data.[k]].
Proof.
  intros H. unfold slice, sub, at_ptr. rewrite skipn_rd by assumption. reflexivity.
Qed.

(** ** A backslash at the end of the span (C10) *)

Section TrailingBackslash.

Variable al : autolink.
Variable rec : ptr -> nat -> M unit.
Variables fuel gas : nat.
Variable data : ptr.
Variables size i e0 consumed offset : nat.
Variable doc : lowdown_doc.
Variable c : cursor.

Hypothesis span_in_memory : base data + size <= length (mem data).
Hypothesis size_pos : 1 <= size.
Hypothesis last_is_backslash : data.[size - 1] = ch_bslash.
Hypothesis escape_active : active_char doc ch_bslash = MD_CHAR_ESCAPE.
Hypothesis pending : i <= e0 <= size - 1.
Hypothesis pending_plain :
  forall k, e0 <= k < size - 1 -> active_char doc data.[k] = MD_CHAR_NONE.
Hypothesis cur : current doc = Some c.
Hypothesis room : can_push doc = true.

(** The document after the pending plain text, if any, was flushed. *)
Let flushed : lowdown_doc :=
  if i <? size - 1
  then add_leaf LOWDOWN_NORMAL_TEXT
         (rndr_normal_text (slice data i (size - 1 - i))) doc
  else doc.

Lemma char_escape_lone (off : nat) (d : lowdown_doc) (cd : cursor) :
  current d = Some cd -> can_push d = true ->
  char_escape (shift data (size - 1)) off 1 d
  = Ret 2 (add_leaf LOWDOWN_NORMAL_TEXT (rndr_normal_text [ch_bslash]) d).
Proof.
  intros Hc Hr. unfold char_escape. cbn [Nat.ltb Nat.leb Nat.eqb].
  rewrite (leaf_run _ _ _ _ cd Hc Hr). do 3 f_equal.
  unfold pushbuffer. rewrite slice_one.
  - unfold at_ptr, shift. cbn [mem base]. rewrite Nat.add_0_r.
    f_equal. exact last_is_backslash.
  - unfold shift. cbn [mem base]. lia.
Qed.

(** C10: at a backslash that is the last byte of the span, the escape
    handler pushes a NORMAL_TEXT node that holds the backslash and
    returns 2; the inline loop, with whatever plain text was pending
    flushed before, then ends, whatever lies in memory after the span. *)
Theorem char_escape_trailing_backslash :
  char_escape (shift data (size - 1)) offset 1 doc
  = Ret 2 (add_leaf LOWDOWN_NORMAL_TEXT (rndr_normal_text [ch_bslash]) doc)
  /\ parse_inline_loop al rec fuel (S (S gas)) data size i e0 consumed doc
     = Ret tt (add_leaf LOWDOWN_NORMAL_TEXT (rndr_normal_text [ch_bslash])
                        flushed).
Proof.
  split; [apply (char_escape_lone offset doc c cur room)|].
  rewrite parse_inline_loop_S.
  destruct (Nat.ltb_spec i size) as [_|Hi]; [|lia].
  unfold bind at 1. unfold get at 1.
  assert (Hscan : scan (fun k => negb (is_active (active_char doc data.[k])))
                       e0 size = size - 1).
  { apply scan_stop; [lia| |].
    - intros k Hk. rewrite pending_plain by lia. reflexivity.
    - rewrite last_is_backslash, escape_active. reflexivity. }
  cbv zeta. rewrite Hscan.
  assert (Hflush :
    (if i <? size - 1
     then n <- pushnode LOWDOWN_NORMAL_TEXT ;;
          set_payload (fun _ =>
            rndr_normal_text (pushbuffer (shift data i) (size - 1 - i))) ;;
          popnode n
     else ret tt) doc = Ret tt flushed).
  { unfold flushed. destruct (i <? size - 1).
    - rewrite (leaf_run_unit _ _ _ c cur room). do 3 f_equal.
      unfold pushbuffer, slice, shift. cbn [mem base].
      rewrite Nat.add_0_r. reflexivity.
    - reflexivity. }
  rewrite (bind_ret_eq _ _ _ _ _ Hflush).
  destruct (Nat.leb_spec size (size - 1)) as [Hle|_]; [lia|].
  rewrite last_is_backslash, escape_active. cbn [markdown_char_ptrs].
  replace (size - (size - 1)) with 1 by lia.
  assert (Hcur : exists cf, current flushed = Some cf).
  { unfold flushed. destruct (i <? size - 1).
    - eexists. apply add_leaf_current. exact cur.
    - exists c. exact cur. }
  destruct Hcur as [cf Hcf].
  assert (Hroom : can_push flushed = true).
  { unfold flushed. destruct (i <? size - 1); [rewrite add_leaf_can_push|];
      exact room. }
  rewrite (bind_ret_eq _ _ _ _ _
             (char_escape_lone (size - 1 - consumed) flushed cf Hcf Hroom)).
  cbn [Nat.eqb]. cbv zeta.
  erewrite bind_ret_eq.
  2:{ eapply inline_image_attrs_at_end; [|lia].
      eapply add_leaf_current. exact Hcf. }
  cbv beta iota. rewrite parse_inline_loop_S.
  destruct (Nat.ltb_spec (size - 1 + 2) size); [lia|]. reflexivity.
Qed.

End TrailingBackslash.

Lemma char_escape_trailing_backslash_witness :
  parse_inline halink_off 3 (ptr_of (str "ab" ++ [ch_bslash] ++ str "*x*")) 3
               (doc_at_root None)
  = Ret tt (add_leaf LOWDOWN_NORMAL_TEXT (rndr_normal_text [ch_bslash])
              (add_leaf LOWDOWN_NORMAL_TEXT (rndr_normal_text (str "ab"))
                        (doc_at_root None))).
Proof.
  refine (proj2 (char_escape_trailing_backslash halink_off
                   (parse_inline halink_off 2) 2 0
                   (ptr_of (str "ab" ++ [ch_bslash] ++ str "*x*")) 3 0 0 0 0
                   (doc_at_root None) _ _ _ eq_refl eq_refl _ _ eq_refl eq_refl)).
  - simpl. lia.
  - lia.
  - simpl. lia.
  - intros k Hk. simpl in Hk.
    destruct k as [|[|k]]; [reflexivity|reflexivity|lia].
Defined.



Lemma get_bind {A : Type} (k : lowdown_doc -> M A) (doc : lowdown_doc) :
  bind get k doc = k doc doc.
Proof. reflexivity. Qed.

(** ** The search for a closing delimiter *)

Lemma iter_from_inv {St : Type} (P : St -> Prop) (step : nat -> St -> option St)
  (n i : nat) (s : St) :
  P s ->
  (forall k s s', i <= k < i + n -> P s -> step k s = Some s' -> P s') ->
  P (snd (iter_from n step i s)) /\ i <= fst (iter_from n step i s) <= i + n.
Proof.
  revert i s. induction n as [|n IH]; intros i s Hs Hstep; simpl.
  - split; [assumption|lia].
  - destruct (step i s) as [s'|] eqn:E; simpl; [|split; [assumption|lia]].
    destruct (IH (S i) s') as [H1 H2].
    + apply (Hstep i s); [lia|assumption|assumption].
    + intros k t t' Hk. apply Hstep. lia.
    + split; [assumption|lia].
Qed.

Lemma scan_tmp_found (data : ptr) (size : nat) (c stop : ascii) (i t : nat) :
  found data size c t ->
  found data size c (snd (scan_tmp data size c stop i t)).
Proof.
  intros Ht. unfold scan_tmp, iter.
  destruct (Nat.le_gt_cases i size) as [Hi|Hi].
  - apply iter_from_inv; [assumption|].
    intros k s s' Hk Hs Hstep.
    destruct (negb (ceq data.[k] stop)); [|discriminate].
    injection Hstep as <-.
    destruct ((s =? 0) && ceq data.[k] c) eqn:E; [|assumption].
    apply andb_prop in E. destruct E as [_ E]. apply ceq_eq in E.
    right. split; [lia|assumption].
  - replace (size - i) with 0 by lia. assumption.
Qed.

Lemma scan_ticks_found (data : ptr) (size : nat) (c : ascii) (span_nb i : nat) :
  found data size c (snd (snd (scan_ticks data size c span_nb i))).
Proof.
  unfold scan_ticks, iter.
  destruct (Nat.le_gt_cases i size) as [Hi|Hi].
  - apply (iter_from_inv (fun s => found data size c (snd s))); [left; reflexivity|].
    intros k [bt t] s' Hk Hs Hstep. simpl in Hs.
    destruct (bt <? span_nb); [|discriminate].
    injection Hstep as <-. simpl.
    destruct ((t =? 0) && ceq data.[k] c) eqn:E; [|assumption].
    apply andb_prop in E. destruct E as [_ E]. apply ceq_eq in E.
    right. split; [lia|assumption].
  - replace (size - i) with 0 by lia. left. reflexivity.
Qed.

Lemma find_emph_char_body_found (data : ptr) (size : nat) (c : ascii) (i : nat) :
  i < size ->
  match find_emph_char_body data size c i with
  | inl r => found data size c r
  | inr _ => True
  end.
Proof.
  intros Hi. unfold find_emph_char_body.
  set (j := scan _ i size).
  assert (Hj : j <= size) by (apply scan_le; lia).
  destruct (Nat.eqb_spec j size) as [E|E]; [left; reflexivity|].
  destruct (is_escaped data j); [exact I|].
  destruct (ceq data.[j] c) eqn:Ec.
  { right. split; [lia|]. apply ceq_eq. assumption. }
  destruct (ceq data.[j] ch_btick).
  { destruct (size <=? scan _ j size); [left; reflexivity|].
    pose proof (scan_ticks_found data size c
                  (scan (fun k => ceq data.[k] ch_btick) j size - j)
                  (scan (fun k => ceq data.[k] ch_btick) j size)) as Hf.
    destruct (scan_ticks data size c _ _) as [i1 [bt t]]. simpl in Hf.
    destruct ((bt <? _) && (size <=? i1)); [assumption|exact I]. }
  destruct (ceq data.[j] ch_lbrack); [|exact I].
  pose proof (scan_tmp_found data size c ch_rbrack (S j) 0
                (or_introl eq_refl)) as Hf.
  destruct (scan_tmp data size c ch_rbrack (S j) 0) as [i1 t]. simpl in Hf.
  set (i2 := scan _ (S i1) size).
  destruct (size <=? i2); [assumption|].
  assert (Hcont : forall cc,
    match (let '(i3, t3) := scan_tmp data size c cc (S i2) t in
           if size <=? i3 then inl t3 else inr (S i3)) with
    | inl r => found data size c r
    | inr _ => True
    end).
  { intros cc. pose proof (scan_tmp_found data size c cc (S i2) t Hf) as Hf2.
    destruct (scan_tmp data size c cc (S i2) t) as [i3 t3]. simpl in Hf2.
    destruct (size <=? i3); [assumption|exact I]. }
  destruct (ceq data.[i2] ch_lbrack); [apply Hcont|].
  destruct (ceq data.[i2] ch_lparen); [apply Hcont|].
  destruct (negb (t =? 0)); [assumption|exact I].
Qed.

Lemma find_emph_char_loop_found (n : nat) (data : ptr) (size : nat) (c : ascii)
  (i : nat) :
  found data size c (find_emph_char_loop n data size c i).
Proof.
  revert i. induction n as [|n IH]; intros i; simpl; [left; reflexivity|].
  destruct (Nat.ltb_spec i size) as [Hi|Hi]; [|left; reflexivity].
  pose proof (find_emph_char_body_found data size c i Hi) as H.
  destruct (find_emph_char_body data size c i) as [r|i']; [assumption|apply IH].
Qed.

Lemma find_emph_char_found (data : ptr) (size : nat) (c : ascii) :
  found data size c (find_emph_char data size c).
Proof. apply find_emph_char_loop_found. Qed.

(** Where the character does not occur, the search returns 0. *)
Lemma find_emph_char_absent (data : ptr) (size : nat) (c : ascii) :
  (forall j, j < size -> data.[j] <> c) -> find_emph_char data size c = 0.
Proof.
  intros H. destruct (find_emph_char_found data size c) as [E|[Hlt Hc]];
    [assumption|]. exfalso. apply (H _ Hlt Hc).
Qed.

(** ** Emphasis without a closer (C7) *)

Section EmphasisResults.

Variable rec : ptr -> nat -> M unit.




End EmphasisResults.

Lemma at_ptr_shift (data : ptr) (k j : nat) : (shift data k).[j] = data.[k + j].
Proof. unfold at_ptr, shift. cbn [mem base]. f_equal. lia. Qed.


Section EmphasisUnclosed.

Variable rec : ptr -> nat -> M unit.
Variable data : ptr.
Variable size : nat.
Variable c : ascii.

(** Past the start of the span, the delimiter only occurs after white
    space, where it closes nothing. *)
Hypothesis after_space :
  forall j, 0 < j < size -> data.[j] = c -> xisspace data.[j - 1] = true.





End EmphasisUnclosed.

Section EmphasisHandler.

Variable rec : ptr -> nat -> M unit.
Variable fuel : nat.
Variable data : ptr.
Variables offset size : nat.


(** Each occurrence of the delimiter byte in the span either belongs to
    the opening run or follows white space. *)
Hypothesis no_closer :
  forall j, j < size -> data.[j] = data.[0] ->
    (forall k, k <= j -> data.[k] = data.[0]) \/ xisspace data.[j - 1] = true.
Hypothesis enough_fuel : size < fuel.



End EmphasisHandler.

Lemma scan_from_end (p : nat -> bool) (n i : nat) :
  scan_from n p i = i + n \/ p (scan_from n p i) = false.
Proof.
  revert i. induction n as [|n IH]; intros i; simpl; [left; lia|].
  destruct (p i) eqn:E; [|right; exact E].
  destruct (IH (S i)) as [H|H]; [left; lia|right; exact H].
Qed.

(** Where [scan] stops inside the span, the test has failed. *)
Lemma scan_end (p : nat -> bool) (i size : nat) :
  scan p i size < size -> p (scan p i size) = false.
Proof.
  unfold scan. intros H. destruct (scan_from_end p (size - i) i) as [E|E];
    [lia|exact E].
Qed.

Section UnclosedEmphasis.

Variable al : autolink.
Variable rec : ptr -> nat -> M unit.
Variables fuel gas : nat.
Variable data : ptr.
Variables size i e0 consumed : nat.
Variable p : nat.
Variable doc : lowdown_doc.
Variable c : cursor.

Hypothesis pending : i <= e0 <= p.
Hypothesis delimiter_in_span : p < size.
Hypothesis pending_plain :
  forall k, e0 <= k < p -> active_char doc data.[k] = MD_CHAR_NONE.
Hypothesis delimiter_active : active_char doc data.[p] = MD_CHAR_EMPHASIS.
Hypothesis cur : current doc = Some c.
Hypothesis room : can_push doc = true.

(** The document after the plain text pending before the delimiter, if
    any, was flushed. *)
Let flushed : lowdown_doc :=
  if i <? p
  then add_leaf LOWDOWN_NORMAL_TEXT (rndr_normal_text (slice data i (p - i))) doc
  else doc.

(** Where the plain text that starts with the delimiter ends: at the
    next active character after it, or at the end of the span. *)
Let e : nat :=
  scan (fun k => negb (is_active (active_char doc data.[k]))) (p + 1) size.







End UnclosedEmphasis.


(** ** Text nodes and the hard line break (C8) *)

Lemma sub_length (m : bytes) (p n : nat) :
  p + n <= length m -> length (sub m p n) = n.
Proof.
  intros H. unfold sub. rewrite length_firstn, length_skipn. lia.
Qed.

Lemma slice_length (data : ptr) (i n : nat) :
  base data + i + n <= length (mem data) -> length (slice data i n) = n.
Proof. intros H. unfold slice. apply sub_length. lia. Qed.

Lemma rd_sub (m : bytes) (p n k : nat) :
  k < n -> rd (sub m p n) k = rd m (p + k).
Proof.
  intros H. unfold rd, sub. rewrite nth_firstn.
  destruct (Nat.ltb_spec k n); [|lia]. apply nth_skipn.
Qed.


(** A childless node pushed and popped with the payload it was
    allocated with. *)
Lemma push_pop_run {A : Type} (t : lowdown_rndrt) (x : A) (doc : lowdown_doc)
  (c : cursor) :
  current doc = Some c -> can_push doc = true ->
  (n <- pushnode t ;; popnode n ;; ret x) doc
  = Ret x (add_leaf t rndr_zero doc).
Proof.
  intros Hc Hp. unfold bind, pushnode. rewrite (pushnode_check doc Hp).
  unfold add_leaf, popnode, ret. rewrite Hc.
  destruct doc. simpl in *. subst. simpl.
  rewrite Nat.eqb_refl. simpl. rewrite Nat.sub_0_r. reflexivity.
Qed.





Section HardLinebreak.

Variable al : autolink.
Variable rec : ptr -> nat -> M unit.
Variables fuel gas : nat.
Variable data : ptr.
Variables size i e0 consumed : nat.
Variable p : nat.
Variable doc : lowdown_doc.
Variable c : cursor.

Hypothesis span_in_memory : base data + size <= length (mem data).
Hypothesis pending : i <= e0 <= p.
Hypothesis text_pending : i < p.
Hypothesis newline_in_span : p < size.
Hypothesis pending_plain :
  forall k, e0 <= k < p -> active_char doc data.[k] = MD_CHAR_NONE.
Hypothesis newline_active : active_char doc data.[p] = MD_CHAR_LINEBREAK.
Hypothesis since_last_element : consumed + 2 <= p.
Hypothesis two_spaces : data.[p - 1] = ch_sp /\ data.[p - 2] = ch_sp.
Hypothesis cur : current doc = Some c.
Hypothesis room : can_push doc = true.

(** The plain text pending before the newline. *)
Let text : bytes := slice data i (p - i).

(** The newline and the spaces after it. *)
Let w : nat := scan (fun w => ceq (shift data p).[w] ch_sp) 1 (size - p).


End HardLinebreak.



(** ** Fenced code (C4) *)

Lemma scan_from_before (p : nat -> bool) (n i k : nat) :
  i <= k < scan_from n p i -> p k = true.
Proof.
  revert i. induction n as [|n IH]; intros i Hk; simpl in Hk; [lia|].
  destruct (p i) eqn:E; [|lia].
  destruct (Nat.eq_dec k i) as [->|Hne]; [exact E|]. apply (IH (S i)). lia.
Qed.

(** All the indices [scan] has passed satisfy the test. *)
Lemma scan_before (p : nat -> bool) (i size k : nat) :
  i <= k < scan p i size -> p k = true.
Proof. apply scan_from_before. Qed.

Lemma scan_from_upto (p : nat -> bool) (n i j : nat) :
  i <= j -> p j = false -> scan_from n p i <= j.
Proof.
  revert i. induction n as [|n IH]; intros i Hj Hp; simpl; [lia|].
  destruct (p i) eqn:E; [|lia].
  apply IH; [|exact Hp]. destruct (Nat.eq_dec i j) as [->|]; [congruence|lia].
Qed.

(** [scan] does not go past an index that fails the test. *)
Lemma scan_upto (p : nat -> bool) (i size j : nat) :
  i <= j -> p j = false -> scan p i size <= j.
Proof. apply scan_from_upto. Qed.

Lemma ch_sp_not_fence (chr : ascii) :
  chr = ch_tilde \/ chr = ch_btick -> ceq chr ch_sp = false.
Proof. intros [->| ->]; reflexivity. Qed.

(** What [is_codefence] has seen when it returns a position. *)
Lemma is_codefence_elim (data : ptr) (size w width : nat) (chr : ascii) :
  is_codefence data size = (w, width, chr) -> w <> 0 ->
  width <= w <= size /\ fence_shape data (w - width) width chr
  /\ (w < size -> data.[w] <> chr).
Proof.
  unfold is_codefence. intros H Hw.
  destruct (size <? 3); [injection H as <- _ _; lia|].
  set (i := countspaces data 0 size 3) in *.
  destruct (Nat.leb_spec size (i + 2)) as [|Hsz];
    [injection H as <- _ _; lia|]. cbn [orb] in H.
  destruct (ceq data.[i] ch_tilde || ceq data.[i] ch_btick) eqn:Ec;
    [|injection H as <- _ _; lia]. cbn [negb] in H.
  set (p := fun k => ceq data.[k] data.[i]) in *.
  destruct (Nat.ltb_spec (scan p (S i) size - i) 3) as [|Hn];
    [injection H as <- _ _; lia|].
  injection H as <- <- <-.
  pose proof (scan_ge p (S i) size) as Hge.
  pose proof (scan_le p (S i) size ltac:(lia)) as Hle.
  replace (scan p (S i) size - (scan p (S i) size - i)) with i by lia.
  split; [lia|]. split.
  - unfold fence_shape. split.
    + unfold i, countspaces.
      apply scan_upto; [lia|]. reflexivity.
    + split; [lia|]. split.
      * apply orb_prop in Ec. destruct Ec as [E|E]; apply ceq_eq in E; auto.
      * split.
        -- intros k Hk.
           assert (Hp := scan_before _ 0 size k (conj (Nat.le_0_l k) Hk)).
           apply andb_prop in Hp. destruct Hp as [_ Hp]. apply ceq_eq. exact Hp.
        -- intros k Hk. destruct k as [|k]; [rewrite Nat.add_0_r; reflexivity|].
           apply ceq_eq. apply (scan_before p (S i) size). lia.
  - intros Hlt. pose proof (scan_end p (S i) size Hlt) as E. unfold p in E.
    apply ceq_neq. exact E.
Qed.

(** The converse: a line of that shape, with something else than the
    fence character after the fence, if anything. *)
Lemma is_codefence_intro (data : ptr) (size s width : nat) (chr : ascii) :
  fence_shape data s width chr -> s + width <= size ->
  (s + width < size -> data.[s + width] <> chr) ->
  is_codefence data size = (s + width, width, chr).
Proof.
  intros (Hs & Hwd & Hc & Hsp & Hch) Hsz Hstop. unfold is_codefence.
  destruct (Nat.ltb_spec size 3); [lia|].
  assert (Hchr0 : data.[s] = chr).
  { rewrite <- (Nat.add_0_r s). apply Hch. lia. }
  assert (Hi : countspaces data 0 size 3 = s).
  { unfold countspaces. apply scan_stop; [lia| |].
    - intros k Hk. rewrite Hsp by lia. rewrite ceq_refl.
      destruct (Nat.eqb_spec (k - 0) 3); [lia|]. reflexivity.
    - rewrite Hchr0, (ch_sp_not_fence chr Hc). apply andb_false_r. }
  rewrite Hi, Hchr0.
  destruct (Nat.leb_spec size (s + 2)); [lia|]. cbn [orb].
  assert (Ec : ceq chr ch_tilde || ceq chr ch_btick = true).
  { destruct Hc as [->| ->]; reflexivity. }
  rewrite Ec. cbn [negb].
  assert (Hscan : scan (fun k => ceq data.[k] chr) (S s) size = s + width).
  { destruct (Nat.eq_dec (s + width) size) as [E|E].
    - rewrite E. apply scan_all; [lia|].
      intros k Hk. replace k with (s + (k - s)) by lia. rewrite Hch by lia.
      apply ceq_refl.
    - apply scan_stop; [lia| |].
      + intros k Hk. replace k with (s + (k - s)) by lia. rewrite Hch by lia.
        apply ceq_refl.
      + apply ceq_neq. apply Hstop. lia. }
  rewrite Hscan. replace (s + width - s) with width by lia.
  destruct (Nat.ltb_spec width 3); [lia|]. reflexivity.
Qed.

Lemma is_empty_spaces (data : ptr) (size : nat) :
  (forall k, k < size -> data.[k] = ch_sp) -> is_empty data size = size + 1.
Proof.
  intros H. unfold is_empty. rewrite scan_all; [|lia|].
  - rewrite Nat.ltb_irrefl. reflexivity.
  - intros k Hk. rewrite H by lia. reflexivity.
Qed.

Lemma is_empty_line (data : ptr) (size : nat) :
  is_empty data size <> 0 -> (forall k, k < size -> data.[k] <> ch_nl) ->
  forall k, k < size -> data.[k] = ch_sp.
Proof.
  unfold is_empty. intros H Hnl k Hk.
  set (p := fun k => negb (ceq data.[k] ch_nl) && ceq data.[k] ch_sp) in *.
  destruct (Nat.ltb_spec (scan p 0 size) size) as [Hlt|Hge].
  - exfalso. apply H. apply Hnl in Hlt. apply ceq_neq in Hlt. rewrite Hlt.
    reflexivity.
  - assert (Hp := scan_before p 0 size k ltac:(lia)). unfold p in Hp.
    apply andb_prop in Hp. apply ceq_eq, Hp.
Qed.

(** The test of [parse_fencedcode] on a line, in terms of the bytes of
    the line. *)
Lemma closing_fence_iff (data : ptr) (ls le s width : nat) (chr : ascii) :
  s <= 3 -> 3 <= width -> chr = ch_tilde \/ chr = ch_btick ->
  (forall k, ls <= k < le -> data.[k] <> ch_nl) ->
  closing_fence data ls le (s + width) width chr = true
  <-> closing_line data ls le s width chr.
Proof.
  intros Hs Hwd Hc Hnl. unfold closing_fence. split.
  - destruct (is_codefence (shift data ls) (le - ls)) as [[w2 width2] chr2] eqn:E.
    intros H. apply andb_prop in H. destruct H as [H He].
    apply andb_prop in H. destruct H as [H H3].
    apply andb_prop in H. destruct H as [H1 H2].
    apply Nat.eqb_eq in H1, H2. apply ceq_eq in H3. subst w2 width2 chr2.
    apply is_codefence_elim in E; [|lia].
    destruct E as (Hle & (_ & _ & _ & Hsp & Hch) & _).
    replace (s + width - width) with s in * by lia.
    unfold closing_line. split; [lia|]. split; [|split].
    + intros k Hk. rewrite <- at_ptr_shift. apply Hsp, Hk.
    + intros k Hk. rewrite <- Nat.add_assoc, <- at_ptr_shift. apply Hch, Hk.
    + intros k Hk. apply negb_true_iff, Nat.eqb_neq in He.
      replace k with (ls + (s + width) + (k - (ls + (s + width)))) by lia.
      rewrite <- at_ptr_shift. apply (is_empty_line _ _ He); [|lia].
      intros j Hj. rewrite at_ptr_shift. apply Hnl. lia.
  - intros (Hle & Hsp & Hch & Hrest).
    rewrite (is_codefence_intro (shift data ls) (le - ls) s width chr).
    + rewrite !Nat.eqb_refl, ceq_refl. cbn [andb].
      rewrite is_empty_spaces.
      * destruct (Nat.eqb_spec (le - (ls + (s + width)) + 1) 0); [lia|].
        reflexivity.
      * intros k Hk. rewrite at_ptr_shift. apply Hrest. lia.
    + unfold fence_shape. repeat split; try assumption.
      * intros k Hk. rewrite at_ptr_shift. apply Hsp, Hk.
      * intros k Hk. rewrite at_ptr_shift, Nat.add_assoc. apply Hch, Hk.
    + lia.
    + intros Hlt. rewrite at_ptr_shift, Hrest by lia.
      destruct Hc as [->| ->]; discriminate.
Qed.

Lemma parse_codefence_fence (data : ptr) (size w width : nat) (lang : bytes)
  (chr : ascii) :
  parse_codefence data size = (w, lang, width, chr) -> w <> 0 ->
  is_codefence data size = (w, width, chr).
Proof.
  unfold parse_codefence.
  destruct (is_codefence data size) as [[w0 width0] chr0].
  destruct (w0 =? 0); [intros H; injection H as <- _ _ _; congruence|].
  cbv zeta. destruct (_ <? size); intros H; injection H as <- _ <- <-;
    [congruence|reflexivity].
Qed.

Lemma fencedcode_loop_eq (n : nat) (data : ptr) (size w width : nat)
  (chr : ascii) (i : nat) :
  fencedcode_loop n data size w width chr i
  = if i <? size then
      let e := scan (fun k => negb (ceq data.[k] ch_nl)) i size in
      if closing_fence data i e w width chr then (i, e)
      else match n with
           | 0 => (i, e)
           | S n' => fencedcode_loop n' data size w width chr (S e)
           end
    else (i, i).
Proof. destruct n; reflexivity. Qed.

Section FencedCode.

Variable data : ptr.
Variable size : nat.
Variable doc : lowdown_doc.
Variable c : cursor.

(** The end of the line at [l]: its newline, or the end of the span. *)
Let line_end (l : nat) : nat :=
  scan (fun k => negb (ceq data.[k] ch_nl)) l size.

(** The opening fence is the first line. *)
Variables w width : nat.
Variable lang : bytes.
Variable chr : ascii.
Hypothesis opening : parse_codefence data (line_end 0) = (w, lang, width, chr).
Hypothesis opening_fence : w <> 0.

Let text_start : nat := S (line_end 0).

(** The lines after it start at [text_start] and after each newline. *)
Let line_start (l : nat) : Prop :=
  l = text_start \/ (text_start < l /\ data.[l - 1] = ch_nl).

(** The line at [ls] is the first to close the fence. *)
Variable ls : nat.
Hypothesis closing_start : line_start ls.
Hypothesis closing_in_span : ls < size.
Hypothesis closing :
  closing_line data ls (line_end ls) (w - width) width chr.
Hypothesis first_closing :
  forall l, l < ls -> line_start l ->
    ~ closing_line data l (line_end l) (w - width) width chr.
Hypothesis cur : current doc = Some c.
Hypothesis room : can_push doc = true.

Lemma opening_shape :
  width <= w /\ w - width <= 3 /\ 3 <= width
  /\ (chr = ch_tilde \/ chr = ch_btick).
Proof.
  pose proof (parse_codefence_fence _ _ _ _ _ _ opening opening_fence) as E.
  apply is_codefence_elim in E; [|exact opening_fence].
  destruct E as (Hle & (Hs & Hwd & Hc & _) & _). repeat split; try assumption.
  lia.
Qed.

Lemma line_end_no_newline (l k : nat) :
  l <= k < line_end l -> data.[k] <> ch_nl.
Proof.
  intros Hk. apply ceq_neq, negb_true_iff.
  apply (scan_before (fun k => negb (ceq data.[k] ch_nl)) l size k Hk).
Qed.

Lemma closing_fence_line (l : nat) :
  closing_fence data l (line_end l) w width chr = true
  <-> closing_line data l (line_end l) (w - width) width chr.
Proof.
  destruct opening_shape as (Hle & Hs & Hwd & Hc).
  replace w with (w - width + width) at 1 by lia.
  apply closing_fence_iff; try assumption. apply line_end_no_newline.
Qed.

Lemma fencedcode_loop_finds (n l : nat) :
  l <= ls -> line_start l -> ls - l <= n ->
  fencedcode_loop n data size w width chr l = (ls, line_end ls).
Proof.
  revert l. induction n as [|n IH]; intros l Hl Hstart Hn;
    rewrite fencedcode_loop_eq; fold (line_end l);
    (destruct (Nat.ltb_spec l size) as [_|?]; [|lia]); cbv zeta.
  - replace l with ls in * by lia.
    rewrite (proj2 (closing_fence_line ls) closing). reflexivity.
  - destruct (Nat.eq_dec l ls) as [->|Hne].
    + rewrite (proj2 (closing_fence_line ls) closing). reflexivity.
    + destruct (closing_fence data l (line_end l) w width chr) eqn:E.
      * exfalso. apply (first_closing l); [lia|exact Hstart|].
        apply closing_fence_line. exact E.
      * assert (Hnl : data.[ls - 1] = ch_nl /\ text_start < ls).
        { destruct closing_start as [E1|[Hlt E1]]; [|split; assumption].
          destruct Hstart as [E2|[Hlt2 _]]; lia. }
        assert (Hend : line_end l <= ls - 1).
        { apply scan_upto; [lia|]. rewrite (proj1 Hnl), ceq_refl. reflexivity. }
        assert (Hge : l <= line_end l).
        { apply (scan_ge (fun k => negb (ceq data.[k] ch_nl)) l size). }
        apply IH; [lia| |lia].
        right. split.
        -- destruct Hstart as [->|[Hlt _]].
           ++ pose proof (scan_ge (fun k => negb (ceq data.[k] ch_nl))
                                  text_start size). fold (line_end text_start) in *.
              lia.
           ++ pose proof (scan_ge (fun k => negb (ceq data.[k] ch_nl)) l size).
              fold (line_end l) in *. lia.
        -- replace (S (line_end l) - 1) with (line_end l) by lia.
           apply ceq_eq, negb_false_iff.
           apply (scan_end (fun k => negb (ceq data.[k] ch_nl)) l size).
           fold (line_end l). lia.
Qed.

(** C4, as the code has it: a line closes the fenced block exactly when
    it has the leading spaces of the opening fence, as many, then the
    fence character as many times as the opening fence has it, no more
    and no fewer, and then spaces only; and with the first such line at
    [ls], [parse_fencedcode] returns the end of that line and adds a
    BLOCKCODE node whose text is the bytes from the start of the line
    after the opening fence up to [ls], the lines strictly between the
    two fences. *)
Theorem parse_fencedcode_closing :
  (forall l,
     closing_fence data l (line_end l) w width chr = true
     <-> closing_line data l (line_end l) (w - width) width chr)
  /\ parse_fencedcode data size doc
     = Ret (line_end ls)
           (add_leaf LOWDOWN_BLOCKCODE
              (rndr_blockcode (slice data text_start (ls - text_start)) lang)
              doc).
Proof.
  split; [exact closing_fence_line|].
  unfold parse_fencedcode. fold (line_end 0). rewrite opening.
  destruct (Nat.eqb_spec w 0) as [?|_]; [contradiction|]. cbv zeta.
  fold text_start. rewrite (fencedcode_loop_finds size text_start).
  - rewrite (leaf_run _ _ _ _ c cur room). do 3 f_equal.
    unfold pushbuffer, slice, shift. cbn [mem base].
    rewrite Nat.add_0_r. reflexivity.
  - destruct closing_start as [->|[Hlt _]]; lia.
  - left. reflexivity.
  - lia.
Qed.

End FencedCode.

Lemma parse_fencedcode_closing_witness :
  parse_fencedcode
    (ptr_of (str "```c" ++ [ch_nl] ++ str "int x;" ++ [ch_nl] ++ str "```"
             ++ [ch_nl] ++ str "after" ++ [ch_nl])) 22 (doc_at_root None)
  = Ret 15 (add_leaf LOWDOWN_BLOCKCODE
              (rndr_blockcode (str "int x;" ++ [ch_nl]) (str "c"))
              (doc_at_root None)).
Proof.
  refine (proj2 (parse_fencedcode_closing
                   (ptr_of (str "```c" ++ [ch_nl] ++ str "int x;" ++ [ch_nl]
                            ++ str "```" ++ [ch_nl] ++ str "after" ++ [ch_nl]))
                   22 (doc_at_root None) _ 3 3 (str "c") ch_btick
                   eq_refl _ 12 _ _ _ _ eq_refl eq_refl)).
  - discriminate.
  - right. split; [vm_compute; lia|reflexivity].
  - lia.
  - unfold closing_line. split; [vm_compute; lia|]. split; [intros k Hk; lia|].
    split.
    + intros k Hk. destruct k as [|[|[|k]]]; [reflexivity..|lia].
    + intros k Hk. vm_compute in Hk. lia.
  - intros l Hl Hstart (_ & _ & Hch & _).
    assert (Hl5 : l = 5).
    { destruct Hstart as [E|[Hlt E]]; [exact E|]. exfalso.
      do 12 (destruct l as [|l];
             [vm_compute in E; vm_compute in Hlt;
              first [discriminate E|lia]|]).
      lia. }
    subst l. specialize (Hch 0 ltac:(lia)). vm_compute in Hch. discriminate Hch.
Defined.

(** C4 as the specification words it fails on a block opened by three
    backticks with a line of four backticks after it: in the words of
    the specification that line closes the block, but for
    [parse_fencedcode] it does not, and the text of the BLOCKCODE node
    runs on to the end of the input, the line of four backticks and the
    line after it included. *)
Lemma parse_fencedcode_longer_fence_counterexample :
  exists p,
    parse_fencedcode
      (ptr_of (str "```" ++ [ch_nl] ++ str "x" ++ [ch_nl] ++ str "````"
               ++ [ch_nl] ++ str "y" ++ [ch_nl])) 13 (doc_at_root None)
    = Ret 13 (add_leaf LOWDOWN_BLOCKCODE p (doc_at_root None))
    /\ closes_spec 3 ch_btick (str "````") = true
    /\ text_of p = str "x" ++ [ch_nl] ++ str "````" ++ [ch_nl] ++ str "y"
                   ++ [ch_nl]
    /\ text_of p <> str "x" ++ [ch_nl].
Proof.
  eexists. split; [vm_compute; reflexivity|].
  split; [reflexivity|]. split; [reflexivity|]. discriminate.
Qed.

(* ================================================================== *)
(** * Part III: further properties of the parser                       *)
(* ================================================================== *)

(** ** [pushnode] and [popnode] *)

(** X1: [pushnode] fails exactly when the depth counter is already
    above a maximum depth that is not zero; when it succeeds the new
    node has the next identifier, is the cursor, and the node and depth
    counters have grown by one; [popnode] fails on a node that is not
    the cursor; and a push followed by the pop of the node pushed leaves
    the depth as it was and the cursor on the parent, with the new
    childless node as its last child. *)
Theorem pushnode_popnode_round_trip (t : lowdown_rndrt) (doc : lowdown_doc) :
  (pushnode t doc = DepthExceeded
   <-> maxdepth doc < depth doc /\ maxdepth doc <> 0)
  /\ (forall n doc',
        pushnode t doc = Ret n doc' ->
        n = nodes doc /\ nodes doc' = S (nodes doc)
        /\ depth doc' = S (depth doc)
        /\ exists c', current doc' = Some c'
                      /\ c_hd c' = new_node (nodes doc) t
                      /\ c_children c' = [])
  /\ (forall n c,
        current doc = Some c -> id (c_hd c) <> n ->
        popnode n doc = AssertFailed)
  /\ (forall c,
        current doc = Some c -> can_push doc = true ->
        (n <- pushnode t ;; popnode n) doc
        = Ret tt (add_leaf t rndr_zero doc)
        /\ depth (add_leaf t rndr_zero doc) = depth doc
        /\ exists c',
             current (add_leaf t rndr_zero doc) = Some c'
             /\ c_hd c' = c_hd c /\ c_path c' = c_path c
             /\ c_children c'
                = c_children c ++ [Node (new_node (nodes doc) t) []]).
Proof.
  split; [|split; [|split]].
  - unfold pushnode.
    destruct (Nat.ltb_spec (maxdepth doc) (depth doc));
      destruct (Nat.eqb_spec (maxdepth doc) 0); cbn [andb negb];
      split; try discriminate; try tauto; intros [? ?]; lia.
  - intros n doc'. unfold pushnode.
    destruct ((maxdepth doc <? depth doc) && negb (maxdepth doc =? 0));
      [discriminate|].
    intros H. injection H as <- <-. destruct doc. cbn.
    repeat split; try reflexivity.
    destruct current0; eexists; repeat split; reflexivity.
  - intros n c Hc Hn. unfold popnode. rewrite Hc.
    destruct (depth doc =? 0); [reflexivity|].
    destruct (Nat.eqb_spec (id (c_hd c)) n); [contradiction|]. reflexivity.
  - intros c Hc Hroom. split; [|split].
    + pose proof (push_pop_run t tt doc c Hc Hroom) as H.
      unfold bind in *. destruct (pushnode t doc) as [n d| | |];
        try discriminate H.
      destruct (popnode n d) as [[] d'| | |]; try discriminate H.
      exact H.
    + unfold add_leaf. rewrite Hc. destruct doc. reflexivity.
    + eexists. split; [apply add_leaf_current; exact Hc|].
      repeat split; reflexivity.
Qed.

(** ** Runs of bytes in a buffer *)

(** A list splits into its longest prefix that satisfies a test and
    the rest. *)
Lemma run_split (p : ascii -> bool) (l : bytes) :
  exists a b, l = a ++ b /\ forallb p a = true
              /\ (b = [] \/ exists c b', b = c :: b' /\ p c = false).
Proof.
  induction l as [|c l (a & b & -> & Ha & Hb)].
  - exists [], []. repeat split. left. reflexivity.
  - destruct (p c) eqn:E.
    + exists (c :: a), b. repeat split; [simpl; rewrite E; exact Ha|exact Hb].
    + exists [], (c :: a ++ b). repeat split. right. eauto.
Qed.

(** [scan] over such a prefix, in a buffer that holds it after [pre]. *)
Lemma scan_run (p : ascii -> bool) (pre a b post : bytes) (size : nat) :
  forallb p a = true ->
  (b = [] \/ exists c b', b = c :: b' /\ p c = false) ->
  size = length (pre ++ a ++ b) ->
  scan (fun k => p (ptr_of (pre ++ a ++ b ++ post)).[k]) (length pre) size
  = length pre + length a.
Proof.
  intros Ha Hb ->. rewrite !length_app.
  assert (Hin : forall k, length pre <= k < length pre + length a ->
                  p (ptr_of (pre ++ a ++ b ++ post)).[k] = true).
  { intros k Hk. rewrite at_ptr_of, rd_app_r by lia.
    rewrite rd_app_l by lia. rewrite forallb_forall in Ha. apply Ha.
    unfold rd. apply nth_In. lia. }
  destruct Hb as [->|(c & b' & -> & Hc)].
  - simpl. rewrite Nat.add_0_r. apply scan_all; [lia|exact Hin].
  - apply scan_stop; [simpl; lia|exact Hin|].
    rewrite at_ptr_of, rd_app_r by lia. rewrite rd_app_r by lia.
    replace (length pre + length a - length pre - length a) with 0 by lia.
    exact Hc.
Qed.

(** ** [unscape_text] *)

Lemma unescaped_app (a r : bytes) :
  forallb (fun c => negb (ceq c ch_bslash)) a = true ->
  unescaped (a ++ r) = a ++ unescaped r.
Proof.
  induction a as [|c a IH]; intros H; [reflexivity|].
  simpl in H. apply andb_prop in H. destruct H as [Hc Ha].
  simpl. apply negb_true_iff in Hc. rewrite Hc. f_equal. apply IH, Ha.
Qed.

Lemma slice_app_mid (pre a post : bytes) :
  slice (ptr_of (pre ++ a ++ post)) (length pre) (length a) = a.
Proof. unfold slice, ptr_of. cbn [mem base]. apply sub_app_mid. Qed.

Lemma unscape_text_loop_spec (n : nat) :
  forall pre rest ob,
    length rest <= n ->
    unscape_text_loop n (ptr_of (pre ++ rest)) (length (pre ++ rest))
                      (length pre) ob
    = ob ++ unescaped rest.
Proof.
  induction n as [|n IH]; intros pre rest ob Hn.
  - destruct rest; [|simpl in Hn; lia]. simpl. symmetry. apply app_nil_r.
  - cbn [unscape_text_loop]. rewrite length_app.
    destruct (Nat.ltb_spec (length pre) (length pre + length rest)) as [Hlt|Hge].
    2:{ destruct rest; [|simpl in Hge; lia]. simpl. symmetry. apply app_nil_r. }
    destruct (run_split (fun c => negb (ceq c ch_bslash)) rest)
      as (a & b & -> & Ha & Hb).
    cbv zeta.
    pose proof (scan_run (fun c => negb (ceq c ch_bslash)) pre a b []
                  (length pre + length (a ++ b)) Ha Hb) as Hs.
    rewrite app_nil_r in Hs. rewrite Hs by (rewrite !length_app; lia).
    replace (length pre + length a - length pre) with (length a) by lia.
    rewrite slice_app_mid.
    assert (Hob : (if length pre <? length pre + length a then ob ++ a else ob)
                  = ob ++ a).
    { destruct (Nat.ltb_spec (length pre) (length pre + length a)) as [_|H0];
        [reflexivity|].
      destruct a; [|simpl in H0; lia]. symmetry. apply app_nil_r. }
    rewrite Hob, (unescaped_app a b Ha).
    rewrite !length_app in *.
    destruct Hb as [->|(c & b' & -> & Hc)].
    + simpl. destruct (Nat.leb_spec (length pre + (length a + 0))
                                    (length pre + length a + 1)); [|lia].
      rewrite ?app_nil_r, <- ?app_assoc. reflexivity.
    + apply negb_false_iff, ceq_eq in Hc. subst c. cbn [unescaped].
      rewrite ceq_refl. destruct b' as [|d r].
      * cbn [length]. destruct (Nat.leb_spec (length pre + (length a + 1))
                                             (length pre + length a + 1)); [|lia].
        rewrite ?app_nil_r, <- ?app_assoc. reflexivity.
      * cbn [length].
        destruct (Nat.leb_spec (length pre + (length a + S (S (length r))))
                               (length pre + length a + 1)); [lia|].
        replace (pre ++ a ++ ch_bslash :: d :: r)
          with ((pre ++ a ++ [ch_bslash; d]) ++ r)
          by (rewrite <- !app_assoc; reflexivity).
        assert (Hd : (ptr_of ((pre ++ a ++ [ch_bslash; d]) ++ r)).[
                       length pre + length a + 1] = d).
        { rewrite at_ptr_of, <- !app_assoc.
          rewrite rd_app_r by lia. rewrite rd_app_r by lia.
          replace (length pre + length a + 1 - length pre - length a) with 1
            by lia. reflexivity. }
        rewrite Hd.
        replace (length pre + (length a + S (S (length r))))
          with (length ((pre ++ a ++ [ch_bslash; d]) ++ r))
          by (rewrite !length_app; simpl; lia).
        replace (length pre + length a + 2)
          with (length (pre ++ a ++ [ch_bslash; d]))
          by (rewrite !length_app; simpl; lia).
        rewrite IH by (simpl in Hn; lia).
        rewrite <- !app_assoc. reflexivity.
Qed.

(** X2: [unscape_text] drops each backslash of the text and keeps the
    byte after it as it is, a second backslash too; a backslash that is
    the last byte is dropped with nothing in its place; so the result is
    never longer than the text, and a text without a backslash comes
    back unchanged. *)
Theorem unscape_text_unescaped (src : bytes) :
  unscape_text src = unescaped src
  /\ length (unscape_text src) <= length src
  /\ (forallb (fun c => negb (ceq c ch_bslash)) src = true ->
      unscape_text src = src).
Proof.
  assert (E : unscape_text src = unescaped src).
  { unfold unscape_text.
    apply (unscape_text_loop_spec (length src) [] src []). lia. }
  split; [exact E|]. split.
  - rewrite E. clear E.
    assert (H : forall n l, length l <= n -> length (unescaped l) <= length l).
    { induction n as [|n IH]; intros l Hl.
      - destruct l; [simpl; lia|simpl in Hl; lia].
      - destruct l as [|c r]; [simpl; lia|]. simpl in Hl. cbn [unescaped].
        destruct (ceq c ch_bslash).
        + destruct r as [|d r']; [simpl; lia|]. simpl in Hl. cbn [length].
          specialize (IH r' ltac:(lia)). lia.
        + cbn [length]. specialize (IH r ltac:(lia)). lia. }
    apply (H (length src)). lia.
  - intros H. rewrite E. rewrite <- (app_nil_r src) at 1.
    rewrite (unescaped_app src [] H). apply app_nil_r.
Qed.

(** ** Line predicates *)

(** X3: [is_codefence] returns a position other than 0, with a width
    and a character, exactly for a line that starts with at most three
    spaces and then holds a backtick or a tilde three times or more in a
    row; the width is the length of that run, all of it, and the
    position is the one right after the run, within the line. *)
Theorem is_codefence_shape (data : ptr) (size w width : nat) (chr : ascii) :
  (is_codefence data size = (w, width, chr) /\ w <> 0)
  <-> (width <= w <= size
       /\ fence_shape data (w - width) width chr
       /\ (w < size -> data.[w] <> chr)).
Proof.
  split.
  - intros [H Hw]. apply is_codefence_elim; assumption.
  - intros (Hle & Hshape & Hstop).
    pose proof Hshape as (_ & Hwd & _).
    pose proof (is_codefence_intro data size (w - width) width chr Hshape)
      as H.
    replace (w - width + width) with w in H by lia.
    split; [apply H; [lia|exact Hstop]|lia].
Qed.

(** X4: [is_empty] returns 0 exactly when a byte other than a space
    stands before the first newline of the span (or before its end,
    without a newline); otherwise it returns the length of the line,
    its newline counted whether it is there or not. *)
Theorem is_empty_blank_line (data : ptr) (size : nat) :
  let e := scan (fun k => negb (ceq data.[k] ch_nl)) 0 size in
  (is_empty data size = 0 <-> exists k, k < e /\ data.[k] <> ch_sp)
  /\ (is_empty data size <> 0 -> is_empty data size = e + 1).
Proof.
  intros e.
  set (p := fun k => negb (ceq data.[k] ch_nl) && ceq data.[k] ch_sp).
  set (q := fun k => negb (ceq data.[k] ch_nl)) in *.
  assert (Hdef : is_empty data size
                 = if (scan p 0 size <? size)
                      && negb (ceq data.[scan p 0 size] ch_nl)
                   then 0 else scan p 0 size + 1) by reflexivity.
  assert (Hbefore : forall k, k < scan p 0 size -> data.[k] = ch_sp).
  { intros k Hk. assert (Hp : p k = true) by (apply (scan_before p 0 size); lia).
    unfold p in Hp. apply andb_prop in Hp. apply ceq_eq, Hp. }
  assert (Hstop : scan p 0 size < size -> p (scan p 0 size) = false)
    by apply scan_end.
  assert (He : e <= size) by (apply scan_le; lia).
  assert (Hline : forall k, k < e -> q k = true).
  { intros k Hk. apply (scan_before q 0 size). fold e. lia. }
  assert (Hend : e < size -> q e = false) by apply scan_end.
  set (i := scan p 0 size) in *.
  assert (Hi : i <= size) by (apply scan_le; lia).
  assert (Hie : i <= e).
  { destruct (Nat.eq_dec e size) as [E|E]; [lia|].
    apply scan_upto; [lia|]. unfold p.
    specialize (Hend ltac:(lia)). unfold q in Hend. rewrite Hend. reflexivity. }
  assert (Hcase : (i = e /\ is_empty data size = e + 1)
                  \/ (i < e /\ is_empty data size = 0 /\ data.[i] <> ch_sp)).
  { destruct (Nat.eq_dec i e) as [E|E].
    - left. split; [exact E|]. rewrite Hdef, E.
      destruct (Nat.ltb_spec e size) as [Hlt|Hge]; [|reflexivity].
      specialize (Hend Hlt). unfold q in Hend.
      rewrite Hend. reflexivity.
    - right. assert (Hlt : i < e) by lia. split; [exact Hlt|].
      specialize (Hline i Hlt). specialize (Hstop ltac:(lia)).
      unfold p in Hstop. unfold q in Hline. rewrite Hline in Hstop.
      cbn [andb] in Hstop.
      split; [|apply ceq_neq; exact Hstop].
      rewrite Hdef. destruct (Nat.ltb_spec i size); [|lia].
      rewrite Hline. reflexivity. }
  split; [split|].
  - intros H0. destruct Hcase as [[_ H1]|(Hlt & _ & Hsp)]; [lia|].
    exists i. split; assumption.
  - intros (k & Hk & Hsp). destruct Hcase as [[E _]|(_ & H0 & _)]; [|exact H0].
    exfalso. apply Hsp. apply Hbefore. lia.
  - intros Hne. destruct Hcase as [[_ H1]|(_ & H0 & _)]; [exact H1|contradiction].
Qed.

(** X5: [countspaces] returns an index from [offset] on, within the
    span when [offset] is, and no more than [maxlen] past [offset] when
    [maxlen] is not zero; the bytes it has passed are all spaces, and it
    has stopped at the end of the span, at the limit, or at a byte that
    is no space. *)
Theorem countspaces_spaces (data : ptr) (offset size maxlen : nat) :
  let r := countspaces data offset size maxlen in
  offset <= r <= Nat.max offset size
  /\ (0 < maxlen -> r <= offset + maxlen)
  /\ (forall k, offset <= k < r -> data.[k] = ch_sp)
  /\ (size <= r \/ (0 < maxlen /\ r = offset + maxlen) \/ data.[r] <> ch_sp).
Proof.
  intros r. unfold countspaces in r.
  set (p := fun i => negb ((0 <? maxlen) && (i - offset =? maxlen))
                     && ceq data.[i] ch_sp) in *.
  assert (Hge : offset <= r) by apply scan_ge.
  split; [split; [exact Hge|]|split; [|split]].
  - destruct (Nat.le_gt_cases offset size) as [H|H].
    + pose proof (scan_le p offset size H). fold r in H0. lia.
    + unfold r. rewrite scan_past by lia. lia.
  - intros Hm. apply scan_upto; [lia|]. unfold p.
    destruct (Nat.ltb_spec 0 maxlen); [|lia].
    replace (offset + maxlen - offset) with maxlen by lia.
    rewrite Nat.eqb_refl. reflexivity.
  - intros k Hk. pose proof (scan_before p offset size k Hk) as Hp.
    unfold p in Hp. apply andb_prop in Hp. apply ceq_eq, Hp.
  - destruct (Nat.le_gt_cases size r) as [H|H]; [left; exact H|right].
    pose proof (scan_end p offset size H) as Hp. fold r in Hp. unfold p in Hp.
    apply andb_false_iff in Hp. destruct Hp as [Hp|Hp].
    + left. apply negb_false_iff, andb_prop in Hp. destruct Hp as [H1 H2].
      apply Nat.ltb_lt in H1. apply Nat.eqb_eq in H2. split; [exact H1|lia].
    + right. apply ceq_neq, Hp.
Qed.

(** X6: [find_emph_char] returns 0 or the index, within the span, of a
    byte that is the character searched; when the character does not
    occur in the span it returns 0. *)
Theorem find_emph_char_in_span (data : ptr) (size : nat) (c : ascii) :
  let r := find_emph_char data size c in
  (r = 0 \/ (r < size /\ data.[r] = c))
  /\ ((forall j, j < size -> data.[j] <> c) -> r = 0).
Proof.
  intros r. split.
  - apply find_emph_char_found.
  - apply find_emph_char_absent.
Qed.

(** ** Inline handlers *)

(** A loop with a state, with an invariant that may mention the index:
    the invariant holds at the end, and where the loop has stopped
    before the bound, its condition has failed. *)
Lemma iter_from_inv_at {St : Type} (P : nat -> St -> Prop)
  (step : nat -> St -> option St) (n i : nat) (s : St) :
  P i s ->
  (forall k s s', i <= k < i + n -> P k s -> step k s = Some s' -> P (S k) s') ->
  let r := iter_from n step i s in
  P (fst r) (snd r) /\ i <= fst r <= i + n
  /\ (fst r < i + n -> step (fst r) (snd r) = None).
Proof.
  revert i s. induction n as [|n IH]; intros i s Hs Hstep; simpl.
  - split; [assumption|]. split; lia.
  - destruct (step i s) as [s'|] eqn:E; simpl.
    + destruct (IH (S i) s') as (H1 & H2 & H3).
      * apply (Hstep i s); [lia|assumption|assumption].
      * intros k t t' Hk. apply Hstep. lia.
      * split; [assumption|]. split; [lia|]. intros H. apply H3. lia.
    + split; [assumption|]. split; [lia|]. intros _. exact E.
Qed.

(** X7: where no run of backticks as long as the opening run follows
    it in the span, [char_codespan] returns 0 and leaves the document
    as it found it: the backticks stay plain text. *)
Theorem char_codespan_unclosed (data : ptr) (offset size : nat)
  (doc : lowdown_doc) :
  let nb := scan (fun k => ceq data.[k] ch_btick) 0 size in
  (forall k, nb <= k -> k + nb <= size ->
     exists j, j < nb /\ data.[k + j] <> ch_btick) ->
  char_codespan data offset size doc = Ret 0 doc.
Proof.
  intros nb Hno. unfold char_codespan. fold nb.
  assert (Hnb : nb <= size) by (apply scan_le; lia).
  set (step := fun k i => if i <? nb
                          then Some (if ceq data.[k] ch_btick then S i else 0)
                          else None).
  pose proof (iter_from_inv_at
                (fun k i => nb + i <= k
                            /\ forall j, j < i -> data.[k - i + j] = ch_btick)
                step (size - nb) nb 0) as H.
  cbv zeta in H. unfold iter. destruct H as ((Hi & Hticks) & Hend & Hstop).
  - split; [lia|]. intros j Hj. lia.
  - intros k i i' Hk [Hle Ht] Hs. unfold step in Hs.
    destruct (Nat.ltb_spec i nb) as [Hlt|]; [|discriminate].
    injection Hs as <-.
    destruct (ceq data.[k] ch_btick) eqn:E.
    + split; [lia|]. intros j Hj.
      destruct (Nat.eq_dec j i) as [->|Hne].
      * replace (S k - S i + i) with k by lia. apply ceq_eq, E.
      * replace (S k - S i + j) with (k - i + j) by lia. apply Ht. lia.
    + split; [lia|]. intros j Hj. lia.
  - destruct (iter_from (size - nb) step nb 0) as [end_ i]. cbn [fst snd] in *.
    assert (Hlt : i < nb).
    { destruct (Nat.lt_ge_cases i nb) as [|Hge]; [assumption|]. exfalso.
      destruct (Hno (end_ - i) ltac:(lia) ltac:(lia)) as (j & Hj & Hne).
      apply Hne. apply Hticks. lia. }
    assert (Hsz : size <= end_).
    { destruct (Nat.le_gt_cases size end_) as [|Hgt]; [assumption|]. exfalso.
      specialize (Hstop ltac:(lia)). unfold step in Hstop.
      destruct (Nat.ltb_spec i nb); [discriminate|lia]. }
    destruct (Nat.ltb_spec i nb); [|lia].
    destruct (Nat.leb_spec size end_); [|lia]. reflexivity.
Qed.

Lemma char_codespan_unclosed_witness :
  char_codespan (ptr_of (str "``a`b")) 0 5 (doc_at_root None)
  = Ret 0 (doc_at_root None).
Proof.
  apply (char_codespan_unclosed (ptr_of (str "``a`b")) 0 5 (doc_at_root None)).
  change (scan (fun k => ceq (ptr_of (str "``a`b")).[k] ch_btick) 0 5) with 2.
  intros k Hk Hsz.
  destruct k as [|[|[|[|k]]]]; try lia.
  - exists 0. split; [lia|discriminate].
  - exists 1. split; [lia|discriminate].
Defined.

(** X8: on a span that holds no active character, [parse_inline] adds
    one NORMAL_TEXT node that holds the whole span as the last child of
    the cursor, and on an empty span it adds nothing. *)
Theorem parse_inline_plain_text (al : autolink) (fuel : nat) (data : ptr)
  (size : nat) (doc : lowdown_doc) (c : cursor) :
  (forall k, k < size -> active_char doc data.[k] = MD_CHAR_NONE) ->
  current doc = Some c -> can_push doc = true ->
  parse_inline al (S (S fuel)) data size doc
  = Ret tt (if 0 <? size
            then add_leaf LOWDOWN_NORMAL_TEXT
                          (rndr_normal_text (slice data 0 size)) doc
            else doc).
Proof.
  intros Hplain Hc Hroom.
  change (parse_inline al (S (S fuel)) data size)
    with (parse_inline_loop al (parse_inline al (S fuel)) (S fuel) (S fuel)
                            data size 0 0 0).
  rewrite parse_inline_loop_S.
  destruct (Nat.ltb_spec 0 size) as [Hpos|Hz]; [|reflexivity].
  rewrite get_bind. cbv zeta.
  rewrite scan_all; [|lia|].
  2:{ intros k Hk. rewrite Hplain by lia. reflexivity. }
  destruct (Nat.ltb_spec 0 size) as [_|?]; [|lia].
  erewrite bind_ret_eq.
  2:{ apply (leaf_run_unit _ _ _ c Hc Hroom). }
  rewrite Nat.leb_refl. rewrite Nat.sub_0_r.
  unfold pushbuffer, slice, shift. cbn [mem base].
  rewrite !Nat.add_0_r. reflexivity.
Qed.

Lemma parse_inline_plain_text_witness :
  parse_inline halink_off 2 (ptr_of (str "plain text, no more")) 19
               (doc_at_root None)
  = Ret tt (add_leaf LOWDOWN_NORMAL_TEXT
              (rndr_normal_text (str "plain text, no more"))
              (doc_at_root None)).
Proof.
  refine (parse_inline_plain_text halink_off 0
            (ptr_of (str "plain text, no more")) 19 (doc_at_root None) _
            _ eq_refl eq_refl).
  intros k Hk.
  do 19 (destruct k as [|k]; [reflexivity|]). lia.
Defined.

(** ** Looking up references *)

Lemma bytes_eqb_eq (a b : bytes) : bytes_eqb a b = true <-> a = b.
Proof.
  unfold bytes_eqb. split.
  - intros H. apply andb_prop in H. destruct H as [Hl Hf].
    apply Nat.eqb_eq in Hl. rewrite forallb_forall in Hf.
    apply (nth_ext a b zero zero Hl). intros n Hn.
    apply ceq_eq. apply (Hf n). apply in_seq. lia.
  - intros <-. rewrite Nat.eqb_refl. apply forallb_forall.
    intros k _. apply ceq_refl.
Qed.

Lemma named_test (o : option bytes) (name : bytes) :
  match o with
  | None => length name =? 0
  | Some nm => bytes_eqb nm name
  end = true <-> named o name.
Proof.
  unfold named. destruct o as [nm|].
  - rewrite bytes_eqb_eq. split.
    + intros ->. left. reflexivity.
    + intros [H|[H _]]; [injection H as ->; reflexivity|discriminate].
  - rewrite Nat.eqb_eq. split.
    + intros H. right. split; [reflexivity|].
      destruct name; [reflexivity|discriminate].
    + intros [H|[_ ->]]; [discriminate|reflexivity].
Qed.

(** X9: [find_footnote_ref] and [find_link_ref] return the first entry
    of the queue whose name is, byte for byte, the name looked up (a
    null name counts as the empty one), and nothing when the queue
    holds no such entry: of two definitions with one name the earlier
    is the one found. *)
Theorem find_ref_first (name : bytes) :
  (forall q : list footnote_ref,
     match find_footnote_ref q name with
     | Some k =>
       exists r, nth_error q k = Some r /\ named (fr_name r) name
                 /\ forall j r', j < k -> nth_error q j = Some r' ->
                                 ~ named (fr_name r') name
     | None => forall r, In r q -> ~ named (fr_name r) name
     end)
  /\ (forall q : list link_ref,
        match find_link_ref q name with
        | Some r =>
          exists before after,
            q = before ++ r :: after /\ named (lr_name r) name
            /\ forall r', In r' before -> ~ named (lr_name r') name
        | None => forall r, In r q -> ~ named (lr_name r) name
        end).
Proof.
  split.
  - induction q as [|r q IH]; simpl.
    + intros r [].
    + destruct (match fr_name r with
                | None => length name =? 0
                | Some nm => bytes_eqb nm name
                end) eqn:E.
      * exists r. split; [reflexivity|]. split; [apply named_test, E|].
        intros j r' Hj. lia.
      * assert (Hr : ~ named (fr_name r) name).
        { intros H. apply named_test in H. congruence. }
        destruct (find_footnote_ref q name) as [k|]; simpl.
        -- destruct IH as (r0 & Hn & Hm & Hfirst).
           exists r0. split; [exact Hn|]. split; [exact Hm|].
           intros [|j] r' Hj Hj'; simpl in Hj'.
           ++ injection Hj' as <-. exact Hr.
           ++ apply (Hfirst j); [lia|exact Hj'].
        -- intros r' [<-|Hin]; [exact Hr|apply IH, Hin].
  - unfold find_link_ref. induction q as [|r q IH]; simpl.
    + intros r [].
    + destruct (match lr_name r with
                | None => length name =? 0
                | Some nm => bytes_eqb nm name
                end) eqn:E.
      * exists [], q. split; [reflexivity|]. split; [apply named_test, E|].
        intros r' [].
      * assert (Hr : ~ named (lr_name r) name).
        { intros H. apply named_test in H. congruence. }
        destruct (find _ q) as [r0|].
        -- destruct IH as (before & after & -> & Hm & Hfirst).
           exists (r :: before), after. split; [reflexivity|].
           split; [exact Hm|].
           intros r' [<-|Hin]; [exact Hr|apply Hfirst, Hin].
        -- intros r' [<-|Hin]; [exact Hr|apply IH, Hin].
Qed.

(** ** The footnotes block *)

Lemma footnote_foreach_unused (rec : ptr -> nat -> M unit) (js : list nat)
  (i : nat) (n : option nat) (doc : lowdown_doc) :
  (forall r, In r (footnotes doc) -> is_used r = false) ->
  footnote_foreach rec js i n doc = Ret n doc.
Proof.
  intros Hun. induction js as [|j js IH]; [reflexivity|].
  cbn [footnote_foreach]. rewrite get_bind.
  destruct (nth_error (footnotes doc) j) as [ref|] eqn:E; [|exact IH].
  rewrite (Hun ref (nth_error_In _ _ E)). cbn [negb]. rewrite orb_true_r.
  exact IH.
Qed.

Lemma footnote_for_unused (rec : ptr -> nat -> M unit) (gas i : nat)
  (n : option nat) (doc : lowdown_doc) :
  (forall r, In r (footnotes doc) -> is_used r = false) ->
  footnotesz doc + 1 - i < gas ->
  footnote_for rec gas i n doc = Ret n doc.
Proof.
  intros Hun. revert i. induction gas as [|gas IH]; intros i Hg; [lia|].
  cbn [footnote_for]. rewrite get_bind.
  destruct (Nat.leb_spec i (footnotesz doc)); [|reflexivity].
  rewrite (bind_ret_eq _ _ _ _ _ (footnote_foreach_unused rec _ i n doc Hun)).
  apply IH. lia.
Qed.

(** X10: when none of the queued footnote definitions has been
    referred to, [parse_footnote_list] creates no node, no
    FOOTNOTES_BLOCK either, and leaves the document as it is. *)
Theorem parse_footnote_list_unused (rec : ptr -> nat -> M unit) (fuel : nat)
  (doc : lowdown_doc) :
  (forall r, In r (footnotes doc) -> is_used r = false) ->
  footnotesz doc + 1 < fuel ->
  parse_footnote_list rec fuel doc = Ret tt doc.
Proof.
  intros Hun Hfuel. unfold parse_footnote_list. rewrite get_bind.
  destruct (footnotes doc) as [|r q] eqn:E; [reflexivity|].
  rewrite <- E in *.
  rewrite (bind_ret_eq _ _ _ _ _
             (footnote_for_unused rec fuel 0 None doc Hun ltac:(lia))).
  reflexivity.
Qed.

Lemma parse_footnote_list_unused_witness :
  parse_footnote_list (parse_block halink_off 2) 2
    (set_footnotes [{| is_used := false; fr_num := 0;
                       fr_name := Some (str "x"); contents := str "c" |}]
                   (doc_at_root None))
  = Ret tt
      (set_footnotes [{| is_used := false; fr_num := 0;
                         fr_name := Some (str "x"); contents := str "c" |}]
                     (doc_at_root None)).
Proof.
  apply (parse_footnote_list_unused (parse_block halink_off 2) 2).
  - intros r [<-|[]]. reflexivity.
  - vm_compute. lia.
Defined.

(** ** The title of a definition list *)

Lemma lowdown_rndrt_beq_eq (a b : lowdown_rndrt) :
  lowdown_rndrt_beq a b = true <-> a = b.
Proof.
  split; [apply internal_lowdown_rndrt_dec_bl|apply internal_lowdown_rndrt_dec_lb].
Qed.

Lemma lowdown_rndrt_beq_neq (a b : lowdown_rndrt) :
  a <> b -> lowdown_rndrt_beq a b = false.
Proof.
  intros H. destruct (lowdown_rndrt_beq a b) eqn:E; [|reflexivity].
  apply lowdown_rndrt_beq_eq in E. contradiction.
Qed.

(** X11: at the start of [parse_definition] the paragraph before, with
    all its children, becomes the DEFINITION_TITLE child of the
    DEFINITION node, one level further down than it was parsed.  When
    the sibling before the paragraph is a DEFINITION the paragraph is
    moved to the end of that node, and no depth check is made at all;
    otherwise a new DEFINITION node is pushed in the place of the
    paragraph, and the one depth check made is that of [pushnode] for
    this node, whatever lies below the paragraph. *)
Theorem definition_open_moves_title (doc : lowdown_doc) (c : cursor)
  (before : list lowdown_node) (cur : node_hd) (kids : list lowdown_node)
  (beoln : bool) :
  current doc = Some c ->
  c_children c = before ++ [Node cur kids] ->
  type cur = LOWDOWN_PARAGRAPH ->
  payload cur = rndr_paragraph 1 beoln ->
  let title := Node {| id := id cur; type := LOWDOWN_DEFINITION_TITLE;
                       payload := payload cur |} kids in
  (forall before' prev pkids,
     before = before' ++ [Node prev pkids] ->
     type prev = LOWDOWN_DEFINITION ->
     exists fl doc',
       definition_open doc = Ret (id prev, fl) doc'
       /\ current doc'
          = Some {| c_hd := prev; c_children := pkids ++ [title];
                    c_path := {| f_hd := c_hd c; f_left := before';
                                 f_right := [] |} :: c_path c |}
       /\ depth doc' = S (depth doc) /\ nodes doc' = nodes doc)
  /\ ((before = []
       \/ exists before' prev pkids,
            before = before' ++ [Node prev pkids]
            /\ type prev <> LOWDOWN_DEFINITION) ->
      can_push doc = true ->
      exists fl doc',
        definition_open doc = Ret (nodes doc, fl) doc'
        /\ current doc'
           = Some {| c_hd := {| id := nodes doc; type := LOWDOWN_DEFINITION;
                                payload := rndr_definition fl |};
                     c_children := [title];
                     c_path := {| f_hd := c_hd c; f_left := before;
                                  f_right := [] |} :: c_path c |}
        /\ depth doc' = S (depth doc) /\ nodes doc' = S (nodes doc)).
Proof.
  intros Hc Hch Hty Hpl title.
  assert (Hstart :
            definition_open doc
            = (let flags := if beoln then fl_or HLIST_FL_DEF HLIST_FL_BLOCK
                            else HLIST_FL_DEF in
               match last_opt before with
               | Some (Node prev prev_children) =>
                 if lowdown_rndrt_beq (type prev) LOWDOWN_DEFINITION then
                   let flags := match payload prev with
                                | rndr_definition f => fl_or flags f
                                | _ => flags
                                end in
                   (modify (fun doc =>
                      set_current
                        (Some {| c_hd := prev;
                                 c_children := prev_children ++ [title];
                                 c_path := {| f_hd := c_hd c;
                                              f_left := removelast before;
                                              f_right := [] |} :: c_path c |})
                        (set_depth (S (depth doc)) doc)) ;;
                    ret (id prev, flags))
                 else definition_fresh before title flags
               | None => definition_fresh before title flags
               end) doc).
  { unfold definition_open. rewrite get_bind, Hc, Hch, last_opt_snoc.
    rewrite Hty, Hpl. cbn [lowdown_rndrt_beq]. rewrite removelast_last.
    unfold title. rewrite Hpl. destruct beoln; reflexivity. }
  cbv zeta in Hstart.
  split.
  - intros before' prev pkids -> Hprev. rewrite Hstart, last_opt_snoc.
    rewrite Hprev. cbn [lowdown_rndrt_beq]. rewrite removelast_last.
    eexists. eexists. split; [reflexivity|].
    destruct doc; repeat split; reflexivity.
  - intros Hbefore Hroom.
    assert (Hfresh : definition_open doc
                     = definition_fresh before title
                         (if beoln then fl_or HLIST_FL_DEF HLIST_FL_BLOCK
                          else HLIST_FL_DEF) doc).
    { rewrite Hstart. destruct Hbefore as [->|(b' & prev & pk & -> & Hne)];
        [reflexivity|].
      rewrite last_opt_snoc, (lowdown_rndrt_beq_neq _ _ Hne). reflexivity. }
    rewrite Hfresh. unfold definition_fresh, bind, pushnode.
    rewrite (pushnode_check doc Hroom). unfold set_payload, get, modify, ret.
    destruct doc. cbn in Hc |- *. rewrite Hc. cbn.
    eexists. eexists. split; [reflexivity|]. repeat split; reflexivity.
Qed.

Lemma definition_open_moves_title_witness :
  exists fl doc',
    definition_open
      (set_current
         (Some {| c_hd := new_node 0 LOWDOWN_ROOT;
                  c_children :=
                    [Node {| id := 1; type := LOWDOWN_PARAGRAPH;
                             payload := rndr_paragraph 1 false |}
                          [Node {| id := 2; type := LOWDOWN_NORMAL_TEXT;
                                   payload := rndr_normal_text (str "a") |}
                                []]];
                  c_path := [] |})
         (set_nodes 3 (doc_at_root None)))
    = Ret (3, fl) doc'
    /\ current doc'
       = Some {| c_hd := {| id := 3; type := LOWDOWN_DEFINITION;
                            payload := rndr_definition fl |};
                 c_children :=
                   [Node {| id := 1; type := LOWDOWN_DEFINITION_TITLE;
                            payload := rndr_paragraph 1 false |}
                         [Node {| id := 2; type := LOWDOWN_NORMAL_TEXT;
                                  payload := rndr_normal_text (str "a") |}
                               []]];
                 c_path := [{| f_hd := new_node 0 LOWDOWN_ROOT; f_left := [];
                               f_right := [] |}] |}
    /\ depth doc' = 2 /\ nodes doc' = 4.
Proof.
  exact (proj2 (definition_open_moves_title
                  (set_current
                     (Some {| c_hd := new_node 0 LOWDOWN_ROOT;
                              c_children :=
                                [Node {| id := 1; type := LOWDOWN_PARAGRAPH;
                                         payload := rndr_paragraph 1 false |}
                                      [Node {| id := 2;
                                               type := LOWDOWN_NORMAL_TEXT;
                                               payload :=
                                                 rndr_normal_text (str "a") |}
                                            []]];
                              c_path := [] |})
                     (set_nodes 3 (doc_at_root None)))
                  _ [] _ _ false eq_refl eq_refl eq_refl eq_refl)
               (or_introl eq_refl) eq_refl).
Defined.

(** ** A fenced block that is not closed *)

Section FencedCodeUnclosed.

Variable data : ptr.
Variable size : nat.
Variable doc : lowdown_doc.
Variable c : cursor.

Let line_end (l : nat) : nat :=
  scan (fun k => negb (ceq data.[k] ch_nl)) l size.

Variables w width : nat.
Variable lang : bytes.
Variable chr : ascii.
Hypothesis opening : parse_codefence data (line_end 0) = (w, lang, width, chr).
Hypothesis opening_fence : w <> 0.

Let text_start : nat := S (line_end 0).

Let line_start (l : nat) : Prop :=
  l = text_start \/ (text_start < l /\ data.[l - 1] = ch_nl).

(** The span ends with a newline, and none of its lines closes the
    fence. *)
Hypothesis ends_with_newline : 0 < size /\ data.[size - 1] = ch_nl.
Hypothesis never_closing :
  forall l, l < size -> line_start l ->
    ~ closing_line data l (line_end l) (w - width) width chr.
Hypothesis cur : current doc = Some c.
Hypothesis room : can_push doc = true.

Lemma line_end_before_last (l : nat) : l < size -> line_end l < size.
Proof.
  intros Hl. destruct ends_with_newline as [Hpos Hnl].
  assert (H : line_end l <= size - 1).
  { apply scan_upto; [lia|]. rewrite Hnl, ceq_refl. reflexivity. }
  lia.
Qed.

Lemma fencedcode_loop_unclosed (n l : nat) :
  l <= size -> line_start l -> size - l <= n ->
  fencedcode_loop n data size w width chr l = (size, size).
Proof.
  revert l. induction n as [|n IH]; intros l Hl Hstart Hn;
    rewrite fencedcode_loop_eq; fold (line_end l);
    destruct (Nat.ltb_spec l size) as [Hlt|Hge].
  - lia.
  - replace l with size by lia. reflexivity.
  - cbv zeta.
    destruct (closing_fence data l (line_end l) w width chr) eqn:E.
    + exfalso. apply (never_closing l Hlt Hstart).
      apply (closing_fence_line data size w width lang chr opening
                                opening_fence l Hlt l). exact E.
    + pose proof (line_end_before_last l Hlt) as Hend.
      assert (Hge : l <= line_end l).
      { apply (scan_ge (fun k => negb (ceq data.[k] ch_nl)) l size). }
      apply IH; [lia| |lia].
      right. split.
      * destruct Hstart as [->|[Hlt' _]]; lia.
      * replace (S (line_end l) - 1) with (line_end l) by lia.
        apply ceq_eq, negb_false_iff.
        apply (scan_end (fun k => negb (ceq data.[k] ch_nl)) l size).
        exact Hend.
  - replace l with size by lia. reflexivity.
Qed.

(** X12: when no line after the opening fence closes it, in a span
    that ends with a newline, [parse_fencedcode] takes all that is left
    of the span: the BLOCKCODE node holds every byte after the line of
    the opening fence, and the whole span is consumed. *)
Theorem parse_fencedcode_unclosed :
  parse_fencedcode data size doc
  = Ret size
        (add_leaf LOWDOWN_BLOCKCODE
           (rndr_blockcode (slice data text_start (size - text_start)) lang)
           doc).
Proof.
  destruct ends_with_newline as [Hpos _].
  pose proof (line_end_before_last 0 Hpos) as H0.
  unfold parse_fencedcode. fold (line_end 0). rewrite opening.
  destruct (Nat.eqb_spec w 0) as [?|_]; [contradiction|]. cbv zeta.
  fold text_start. rewrite (fencedcode_loop_unclosed size text_start).
  - rewrite (leaf_run _ _ _ _ c cur room). do 3 f_equal.
    unfold pushbuffer, slice, shift. cbn [mem base].
    rewrite Nat.add_0_r. reflexivity.
  - unfold text_start. lia.
  - left. reflexivity.
  - lia.
Qed.

End FencedCodeUnclosed.

Lemma parse_fencedcode_unclosed_witness :
  parse_fencedcode
    (ptr_of (str "~~~" ++ [ch_nl] ++ str "a" ++ [ch_nl] ++ str "~~" ++ [ch_nl]))
    9 (doc_at_root None)
  = Ret 9 (add_leaf LOWDOWN_BLOCKCODE
             (rndr_blockcode (str "a" ++ [ch_nl] ++ str "~~" ++ [ch_nl]) [])
             (doc_at_root None)).
Proof.
  refine (parse_fencedcode_unclosed
            (ptr_of (str "~~~" ++ [ch_nl] ++ str "a" ++ [ch_nl] ++ str "~~"
                     ++ [ch_nl]))
            9 (doc_at_root None) _ 3 3 [] ch_tilde
            eq_refl _ (conj _ eq_refl) _ eq_refl eq_refl).
  - discriminate.
  - lia.
  - intros l Hl Hstart (Hle & _ & Hch & _).
    do 9 (destruct l as [|l];
          [first [ specialize (Hch 0 ltac:(lia)); vm_compute in Hch;
                   discriminate Hch
                 | specialize (Hch 1 ltac:(lia)); vm_compute in Hch;
                   discriminate Hch
                 | specialize (Hch 2 ltac:(lia)); vm_compute in Hch;
                   discriminate Hch
                 | destruct Hstart as [E|[Hlt _]];
                   [vm_compute in E; discriminate E|vm_compute in Hlt; lia] ]|]).
    lia.
Defined.

(** ** The empty document *)

Lemma modify_bind {A : Type} (f : lowdown_doc -> lowdown_doc)
  (k : unit -> M A) (doc : lowdown_doc) :
  bind (modify f) k doc = k tt (f doc).
Proof. reflexivity. Qed.

Lemma ret_bind {A B : Type} (a : A) (k : A -> M B) (doc : lowdown_doc) :
  bind (ret a) k doc = k a doc.
Proof. reflexivity. Qed.

(** [pushnode] on a document with no cursor: the new node is a root. *)
Lemma pushnode_root (t : lowdown_rndrt) (doc : lowdown_doc) :
  current doc = None -> depth doc = 0 ->
  pushnode t doc
  = Ret (nodes doc)
        (set_current (Some {| c_hd := new_node (nodes doc) t;
                              c_children := []; c_path := [] |})
           (set_nodes (S (nodes doc)) (set_depth 1 doc))).
Proof.
  intros Hc Hd. unfold pushnode. rewrite Hc, Hd.
  destruct (maxdepth doc); reflexivity.
Qed.

(** [popnode] of a root: the tree is handed back. *)
Lemma popnode_root (n : nat) (doc : lowdown_doc) (c : cursor) :
  current doc = Some c -> c_path c = [] -> id (c_hd c) = n -> depth doc = 1 ->
  popnode n doc
  = Ret tt (set_detached (Some (Node (c_hd c) (c_children c)))
              (set_current None (set_depth 0 doc))).
Proof.
  intros Hc Hp Hn Hd. unfold popnode. rewrite Hc, Hp, Hn, Hd, Nat.eqb_refl.
  reflexivity.
Qed.

(** A childless node pushed, with steps that return without an effect
    before its pop. *)
Lemma push_pop_bind {A : Type} (t : lowdown_rndrt) (k : unit -> M A)
  (doc : lowdown_doc) (c : cursor) :
  current doc = Some c -> can_push doc = true ->
  (n <- pushnode t ;; u <- popnode n ;; k u) doc
  = k tt (add_leaf t rndr_zero doc).
Proof.
  intros Hc Hroom.
  pose proof (push_pop_run t tt doc c Hc Hroom) as H.
  unfold bind in *. destruct (pushnode t doc) as [n d| | |];
    try discriminate H.
  destruct (popnode n d) as [[] d'| | |]; try discriminate H.
  injection H as ->. reflexivity.
Qed.

Lemma pushnode_run (t : lowdown_rndrt) (doc : lowdown_doc) (c : cursor) :
  current doc = Some c -> can_push doc = true ->
  pushnode t doc
  = Ret (nodes doc)
        (set_current
           (Some {| c_hd := new_node (nodes doc) t; c_children := [];
                    c_path := {| f_hd := c_hd c; f_left := c_children c;
                                 f_right := [] |} :: c_path c |})
           (set_nodes (S (nodes doc)) (set_depth (S (depth doc)) doc))).
Proof.
  intros Hc Hroom. unfold pushnode. rewrite (pushnode_check doc Hroom), Hc.
  reflexivity.
Qed.

Lemma popnode_pushed (t : lowdown_rndrt) (doc : lowdown_doc) (c : cursor) :
  current doc = Some c ->
  popnode (nodes doc)
    (set_current
       (Some {| c_hd := new_node (nodes doc) t; c_children := [];
                c_path := {| f_hd := c_hd c; f_left := c_children c;
                             f_right := [] |} :: c_path c |})
       (set_nodes (S (nodes doc)) (set_depth (S (depth doc)) doc)))
  = Ret tt (add_leaf t rndr_zero doc).
Proof.
  intros Hc. unfold popnode, add_leaf. rewrite Hc. destruct doc. cbn.
  rewrite Nat.eqb_refl. cbn. rewrite Nat.sub_0_r. reflexivity.
Qed.

(** X13: on an empty input, with the metadata feature off,
    [lowdown_doc_parse] returns a ROOT node with two children, a
    DOC_HEADER and a DOC_FOOTER, both childless, whatever state the
    document was left in before; the nodes are numbered on from the
    node counter of the document, which is not reset, the count
    returned is that counter plus three, and at the end the depth is 0
    and the cursor is null.  (With the metadata feature on, the C code
    compares against [size - 1], which wraps around for an empty input,
    and reads [data[0]].) *)
Theorem lowdown_doc_parse_empty (al : autolink) (fuel : nat)
  (doc : lowdown_doc) :
  has_feat doc LOWDOWN_METADATA = false ->
  exists doc',
    lowdown_doc_parse al (S fuel) [] 0 doc
    = Ret (Some (Node (new_node (nodes doc) LOWDOWN_ROOT)
                   [Node (new_node (1 + nodes doc) LOWDOWN_DOC_HEADER) [];
                    Node (new_node (2 + nodes doc) LOWDOWN_DOC_FOOTER) []]),
           3 + nodes doc) doc'
    /\ depth doc' = 0 /\ current doc' = None.
Proof.
  intros Hmeta. unfold lowdown_doc_parse.
  rewrite modify_bind.
  set (d1 := set_in_link_body false (set_current None (set_depth 0 doc))).
  assert (Hn1 : nodes d1 = nodes doc) by (destruct doc; reflexivity).
  rewrite (bind_ret_eq _ _ _ _ _
             (pushnode_root LOWDOWN_ROOT d1 ltac:(destruct doc; reflexivity)
                            ltac:(destruct doc; reflexivity))).
  rewrite modify_bind, get_bind. rewrite Hn1.
  set (d3 := set_footnotesz 0 _).
  set (root := {| c_hd := new_node (nodes doc) LOWDOWN_ROOT;
                  c_children := []; c_path := [] |}).
  assert (Hc3 : current d3 = Some root) by (destruct doc; reflexivity).
  assert (Hn3 : nodes d3 = S (nodes doc)) by (destruct doc; reflexivity).
  assert (Hd3 : depth d3 = 1) by (destruct doc; reflexivity).
  assert (Hroom3 : can_push d3 = true).
  { unfold can_push. rewrite Hd3. destruct (maxdepth d3); reflexivity. }
  assert (Hf3 : has_feat d3 LOWDOWN_METADATA = false)
    by (destruct doc; exact Hmeta).
  rewrite Hf3. cbn [andb Nat.leb].
  (* the header *)
  rewrite (bind_ret_eq _ _ _ _ _ (pushnode_run LOWDOWN_DOC_HEADER d3 root
                                                Hc3 Hroom3)).
  rewrite ret_bind.
  change (first_pass (S fuel) (ptr_of []) 0 0 []) with (ret (@nil ascii)).
  rewrite ret_bind.
  rewrite (bind_ret_eq _ _ _ _ _ (popnode_pushed LOWDOWN_DOC_HEADER d3 root Hc3)).
  rewrite ret_bind.
  set (d4 := add_leaf LOWDOWN_DOC_HEADER rndr_zero d3).
  (* the footnotes *)
  assert (Hfoot : (if has_feat d3 LOWDOWN_FOOTNOTES
                   then parse_footnote_list (parse_block al (S fuel)) (S fuel)
                   else ret tt) d4 = Ret tt d4).
  { destruct (has_feat d3 LOWDOWN_FOOTNOTES); [|reflexivity].
    unfold parse_footnote_list. rewrite get_bind.
    replace (footnotes d4) with (@nil footnote_ref)
      by (destruct doc; reflexivity).
    reflexivity. }
  rewrite (bind_ret_eq _ _ _ _ _ Hfoot).
  (* the footer *)
  assert (Hc4 : exists c4, current d4 = Some c4).
  { eexists. apply add_leaf_current. exact Hc3. }
  destruct Hc4 as [c4 Hc4].
  rewrite (push_pop_bind LOWDOWN_DOC_FOOTER _ d4 c4 Hc4
             ltac:(unfold d4; rewrite add_leaf_can_push; exact Hroom3)).
  rewrite modify_bind, get_bind.
  set (d6 := set_footnotes [] _).
  set (top := {| c_hd := new_node (nodes doc) LOWDOWN_ROOT;
                 c_children :=
                   [Node (new_node (1 + nodes doc) LOWDOWN_DOC_HEADER) [];
                    Node (new_node (2 + nodes doc) LOWDOWN_DOC_FOOTER) []];
                 c_path := [] |}).
  assert (Hc6 : current d6 = Some top) by (destruct doc; reflexivity).
  assert (Hd6 : depth d6 = 1) by (destruct doc; reflexivity).
  assert (Hn6 : nodes d6 = 3 + nodes doc) by (destruct doc; reflexivity).
  rewrite (bind_ret_eq _ _ _ _ _
             (popnode_root (nodes doc) d6 top Hc6 eq_refl eq_refl Hd6)).
  rewrite get_bind. unfold bind, assert, ret. cbn [depth set_detached
    set_current set_depth Nat.eqb]. rewrite Hn6.
  eexists. split; [reflexivity|split; reflexivity].
Qed.

Lemma lowdown_doc_parse_empty_witness :
  exists doc',
    lowdown_doc_parse halink_off 1 [] 0 (lowdown_doc_new None)
    = Ret (Some (Node (new_node 0 LOWDOWN_ROOT)
                   [Node (new_node 1 LOWDOWN_DOC_HEADER) [];
                    Node (new_node 2 LOWDOWN_DOC_FOOTER) []]),
           3) doc'
    /\ depth doc' = 0 /\ current doc' = None.
Proof.
  exact (lowdown_doc_parse_empty halink_off 0 (lowdown_doc_new None) eq_refl).
Defined.

(** ** Tab expansion, what it keeps *)




(** ** [replace_spacing] *)

Lemma firstn_plus {A : Type} (n m : nat) (l : list A) :
  firstn (n + m) l = firstn n l ++ firstn m (skipn n l).
Proof.
  revert l. induction n as [|n IH]; intros l; [reflexivity|].
  destruct l as [|x l]; [simpl; rewrite firstn_nil; reflexivity|].
  simpl. f_equal. apply IH.
Qed.

Lemma slice_split (data : ptr) (i n m : nat) :
  slice data i (n + m) = slice data i n ++ slice data (i + n) m.
Proof.
  unfold slice, sub. rewrite firstn_plus, skipn_skipn.
  replace (n + (base data + i)) with (base data + (i + n)) by lia.
  reflexivity.
Qed.

Lemma slice_rd (data : ptr) (i n k : nat) :
  k < n -> rd (slice data i n) k = data.[i + k].
Proof.
  intros H. unfold slice. rewrite rd_sub by assumption. unfold at_ptr.
  f_equal. lia.
Qed.

(** Whether the last byte of [a], or the byte before when [a] is
    empty, is a space. *)
Lemma respaced_run (a rest : bytes) (prev : bool) :
  (forall k, k < length a -> rd a k <> ch_nl) ->
  respaced prev (a ++ rest)
  = a ++ respaced (if length a =? 0 then prev
                   else ceq (rd a (length a - 1)) ch_sp) rest.
Proof.
  revert prev. induction a as [|c a IH]; intros prev H; [reflexivity|].
  cbn [app respaced].
  assert (Hc : ceq c ch_nl = false).
  { apply ceq_neq. apply (H 0). simpl. lia. }
  rewrite Hc. f_equal. rewrite IH.
  2:{ intros k Hk. apply (H (S k)). simpl. lia. }
  f_equal. f_equal. cbn [length Nat.eqb].
  destruct a as [|d a]; [reflexivity|].
  cbn [length Nat.eqb]. replace (S (S (length a)) - 1) with (S (length a)) by lia.
  replace (S (length a) - 1) with (length a) by lia. reflexivity.
Qed.

Section ReplaceSpacing.

Variable data : ptr.
Variable size : nat.
Hypothesis span_in_memory : base data + size <= length (mem data).

Lemma replace_spacing_loop_spec (n i : nat) (ob : bytes) :
  i <= size -> size - i <= n ->
  replace_spacing_loop n data size i ob
  = ob ++ respaced ((0 <? i) && ceq data.[i - 1] ch_sp)
                   (slice data i (size - i)).
Proof.
  revert i ob. induction n as [|n IH]; intros i ob Hi Hn.
  - replace i with size by lia. cbn [replace_spacing_loop].
    rewrite scan_past by lia. rewrite !Nat.sub_diag.
    destruct (Nat.leb_spec size size); [|lia].
    unfold slice, sub. cbn [firstn]. rewrite !app_nil_r. reflexivity.
  - cbn [replace_spacing_loop].
    set (e := scan (fun k => negb (ceq data.[k] ch_nl)) i size).
    assert (Hge : i <= e) by apply scan_ge.
    assert (Hle : e <= size) by (apply scan_le; lia).
    assert (Hrun : forall k, k < length (slice data i (e - i)) ->
                     rd (slice data i (e - i)) k <> ch_nl).
    { intros k Hk. rewrite slice_length in Hk by lia.
      rewrite slice_rd by lia. apply ceq_neq, negb_true_iff.
      apply (scan_before (fun k => negb (ceq data.[k] ch_nl)) i size).
      fold e. lia. }
    assert (Hprev : (if length (slice data i (e - i)) =? 0
                     then (0 <? i) && ceq data.[i - 1] ch_sp
                     else ceq (rd (slice data i (e - i))
                                  (length (slice data i (e - i)) - 1)) ch_sp)
                    = (0 <? e) && ceq data.[e - 1] ch_sp).
    { rewrite slice_length by lia.
      destruct (Nat.eqb_spec (e - i) 0) as [E|E].
      - replace e with i by lia. reflexivity.
      - rewrite slice_rd by lia. destruct (Nat.ltb_spec 0 e); [|lia].
        replace (i + (e - i - 1)) with (e - 1) by lia. reflexivity. }
    replace (size - i) with ((e - i) + (size - e)) by lia.
    rewrite slice_split, (respaced_run _ _ _ Hrun), Hprev.
    replace (i + (e - i)) with e by lia.
    destruct (Nat.leb_spec size e) as [Hend|Hin].
    + replace (size - e) with 0 by lia. unfold slice at 2, sub.
      cbn [firstn respaced]. rewrite app_nil_r. reflexivity.
    + assert (Hnl : data.[e] = ch_nl).
      { apply ceq_eq, negb_false_iff.
        apply (scan_end (fun k => negb (ceq data.[k] ch_nl)) i size). exact Hin. }
      replace (size - e) with (1 + (size - S e)) by lia.
      rewrite slice_split, slice_one by lia. rewrite Hnl.
      cbn [app respaced]. rewrite ceq_refl.
      rewrite IH by lia.
      replace (e + 1) with (S e) by lia.
      replace ((0 <? S e) && ceq data.[S e - 1] ch_sp) with false.
      2:{ replace (S e - 1) with e by lia. rewrite Hnl. reflexivity. }
      destruct ((0 <? e) && ceq data.[e - 1] ch_sp); cbn [negb app];
        rewrite <- ?app_assoc; reflexivity.
Qed.

(** X15: [replace_spacing] copies the span with a space put in the
    place of each newline, and with nothing in its place when the byte
    before the newline is a space; the other bytes are kept, so the
    result holds no newline and is never longer than the span. *)
Theorem replace_spacing_respaced :
  replace_spacing data size = respaced false (slice data 0 size)
  /\ ~ In ch_nl (replace_spacing data size)
  /\ length (replace_spacing data size) <= size.
Proof.
  assert (E : replace_spacing data size = respaced false (slice data 0 size)).
  { unfold replace_spacing. rewrite replace_spacing_loop_spec by lia.
    rewrite Nat.sub_0_r. reflexivity. }
  assert (H : forall l prev, ~ In ch_nl (respaced prev l)
                             /\ length (respaced prev l) <= length l).
  { induction l as [|c l IH]; intros prev; [simpl; split; [tauto|lia]|].
    cbn [respaced]. destruct (ceq c ch_nl) eqn:Ec.
    - destruct (IH false) as [Hin Hlen]. split.
      + intros H. apply in_app_or in H. destruct H as [H|H]; [|tauto].
        destruct prev; [destruct H|]. destruct H as [H|[]]. discriminate H.
      + rewrite length_app. cbn [length]. destruct prev; simpl; lia.
    - destruct (IH (ceq c ch_sp)) as [Hin Hlen]. split.
      + intros [H|H]; [|tauto]. subst c. rewrite ceq_refl in Ec. discriminate.
      + cbn [length]. lia. }
  split; [exact E|]. rewrite E. destruct (H (slice data 0 size) false) as [H1 H2].
  split; [exact H1|]. rewrite slice_length in H2 by lia. exact H2.
Qed.

End ReplaceSpacing.

Lemma replace_spacing_respaced_witness :
  replace_spacing (ptr_of (str "a " ++ [ch_nl] ++ str "b" ++ [ch_nl] ++ str "c")) 6
  = str "a b c".
Proof.
  etransitivity.
  - exact (proj1 (replace_spacing_respaced
                    (ptr_of (str "a " ++ [ch_nl] ++ str "b" ++ [ch_nl]
                             ++ str "c")) 6 ltac:(simpl; lia))).
  - reflexivity.
Defined.

(** ** References to footnotes *)





Section FootnoteRef.

Variable rec : ptr -> nat -> M unit.
Variable data : ptr.
Variables offset size e : nat.

(** The span starts with an opening bracket and a caret, and the
    closing bracket, at [e], is the first bracket after them; no
    backtick comes before it, and no backslash right before it. *)
Hypothesis caret : data.[1] = ch_caret.
Hypothesis close_in_span : 3 <= e < size.
Hypothesis name_plain :
  forall k, 1 <= k < e ->
    data.[k] <> ch_rbrack /\ data.[k] <> ch_lbrack /\ data.[k] <> ch_btick.
Hypothesis close : data.[e] = ch_rbrack.
Hypothesis close_not_escaped : data.[e - 1] <> ch_bslash.

(** The name referred to. *)
Let name : bytes := slice data 2 (e - 2).


Variable doc : lowdown_doc.
Variable c : cursor.
Hypothesis feature : has_feat doc LOWDOWN_FOOTNOTES = true.
Hypothesis cur : current doc = Some c.
Hypothesis room : can_push doc = true.





End FootnoteRef.


(** ** The first pass leaves the tree alone *)



(** ** Metadata keys *)




(** ** Entities and escapes *)



(** X20: at a backslash with a byte after it in the span, and the math
    feature off, [char_escape] adds a LINEBREAK node when the byte is a
    newline and the commonmark feature is on, and then consumes the
    spaces after the newline too; otherwise it returns 0, adding
    nothing, unless the byte is one of the characters that can be
    escaped or is NUL, in which case it adds a NORMAL_TEXT node that
    holds this one byte and returns 2. *)
Theorem char_escape_next_byte (data : ptr) (offset size : nat)
  (doc : lowdown_doc) (c : cursor) :
  1 < size -> base data + size <= length (mem data) ->
  has_feat doc LOWDOWN_MATH = false ->
  current doc = Some c -> can_push doc = true ->
  char_escape data offset size doc
  = if has_feat doc LOWDOWN_COMMONMARK && ceq data.[1] ch_nl
    then Ret (scan (fun w => ceq data.[w] ch_sp) 2 size)
             (add_leaf LOWDOWN_LINEBREAK rndr_zero doc)
    else if existsb (ceq data.[1]) escape_chars || ceq data.[1] zero
    then Ret 2 (add_leaf LOWDOWN_NORMAL_TEXT (rndr_normal_text [data.[1]]) doc)
    else Ret 0 doc.
Proof.
  intros Hsize Hmem Hmath Hc Hroom. unfold char_escape.
  destruct (Nat.ltb_spec 1 size) as [_|?]; [|lia].
  rewrite get_bind, Hmath, andb_false_r. cbn [andb].
  rewrite ret_bind. cbn [Nat.eqb negb].
  destruct (has_feat doc LOWDOWN_COMMONMARK && ceq data.[1] ch_nl).
  - apply (push_pop_run _ _ _ c Hc Hroom).
  - unfold strchr.
    destruct (existsb (ceq data.[1]) escape_chars || ceq data.[1] zero);
      [|reflexivity].
    cbn [negb]. rewrite (leaf_run _ _ _ _ c Hc Hroom). do 3 f_equal.
    unfold pushbuffer. rewrite slice_one by (unfold shift; cbn [mem base]; lia).
    rewrite at_ptr_shift. reflexivity.
Qed.

Lemma char_escape_next_byte_witness :
  char_escape (ptr_of (ch_bslash :: str "*a")) 0 3 (doc_at_root None)
  = Ret 2 (add_leaf LOWDOWN_NORMAL_TEXT (rndr_normal_text (str "*"))
                    (doc_at_root None)).
Proof.
  exact (char_escape_next_byte (ptr_of (ch_bslash :: str "*a")) 0 3
           (doc_at_root None) _ ltac:(lia) ltac:(simpl; lia) eq_refl eq_refl
           eq_refl).
Defined.

(** ** The active characters *)

Lemma active_table_chars (m s a h k : bool) (c : ascii) :
  set_active_if m ch_dollar MD_CHAR_MATH
    (set_active_if s ch_caret MD_CHAR_SUPERSCRIPT
    (set_active_if a "w"%char MD_CHAR_AUTOLINK_WWW
    (set_active_if a ch_at MD_CHAR_AUTOLINK_EMAIL
    (set_active_if a ch_colon MD_CHAR_AUTOLINK_URL
    (set_active ch_amp MD_CHAR_ENTITY
    (set_active ch_bslash MD_CHAR_ESCAPE
    (set_active ch_lt MD_CHAR_LANGLE
    (set_active ch_bang MD_CHAR_IMAGE
    (set_active ch_lbrack MD_CHAR_LINK
    (set_active ch_nl MD_CHAR_LINEBREAK
    (set_active ch_btick MD_CHAR_CODESPAN
    (set_active_if h ch_eq MD_CHAR_EMPHASIS
    (set_active_if k ch_tilde MD_CHAR_EMPHASIS
    (set_active ch_under MD_CHAR_EMPHASIS
    (set_active ch_star MD_CHAR_EMPHASIS
    (fun _ => MD_CHAR_NONE)))))))))))))))) c = MD_CHAR_NONE
  \/ In c [ch_star; ch_under; ch_btick; ch_nl; ch_lbrack; ch_bang; ch_lt;
           ch_bslash; ch_amp]
  \/ (k = true /\ c = ch_tilde) \/ (h = true /\ c = ch_eq)
  \/ (a = true /\ In c [ch_colon; ch_at; "w"%char])
  \/ (s = true /\ c = ch_caret) \/ (m = true /\ c = ch_dollar).
Proof.
  destruct c as [[] [] [] [] [] [] [] []];
    first [ left; destruct m, s, a, h, k; reflexivity
          | right; left; simpl; tauto
          | destruct k; [right; right; left; split; reflexivity
                        |left; destruct m, s, a, h; reflexivity]
          | destruct h; [right; right; right; left; split; reflexivity
                        |left; destruct m, s, a, k; reflexivity]
          | destruct a; [right; right; right; right; left;
                         split; [reflexivity|simpl; tauto]
                        |left; destruct m, s, h, k; reflexivity]
          | destruct s; [right; right; right; right; right; left;
                         split; reflexivity
                        |left; destruct m, a, h, k; reflexivity]
          | destruct m; [right; right; right; right; right; right;
                         split; reflexivity
                        |left; destruct s, a, h, k; reflexivity] ].
Qed.

(** X21: in a document made by [lowdown_doc_new], whatever the
    options, a byte can be active only if it is one of nine
    characters, the asterisk, the underscore, the backtick, the
    newline, the opening bracket, the exclamation mark, the
    less-than sign, the backslash and the ampersand, or a character of
    a feature that is on: the tilde of STRIKE, the equals sign of
    HILITE, the colon, the at sign and the letter w of AUTOLINK, the
    caret of SUPER, the dollar sign of MATH.  Every other byte is plain
    text for [parse_inline]. *)
Theorem lowdown_doc_new_active_chars (opts : option lowdown_opts) (c : ascii) :
  let doc := lowdown_doc_new opts in
  active_char doc c = MD_CHAR_NONE
  \/ In c [ch_star; ch_under; ch_btick; ch_nl; ch_lbrack; ch_bang; ch_lt;
           ch_bslash; ch_amp]
  \/ (has_feat doc LOWDOWN_STRIKE = true /\ c = ch_tilde)
  \/ (has_feat doc LOWDOWN_HILITE = true /\ c = ch_eq)
  \/ (has_feat doc LOWDOWN_AUTOLINK = true
      /\ In c [ch_colon; ch_at; "w"%char])
  \/ (has_feat doc LOWDOWN_SUPER = true /\ c = ch_caret)
  \/ (has_feat doc LOWDOWN_MATH = true /\ c = ch_dollar).
Proof.
  intros doc. unfold doc, has_feat, lowdown_doc_new. cbn [active_char ext_flags].
  apply active_table_chars.
Qed.
